(** * act: flags, environment variables and struct-tag defaults bound to a record

    A shallow embedding of the Go package [go.ectobit.com/act] (files
    [act.go] and [value.go]) together with the parts of the Go standard
    library and of [github.com/iancoleman/strcase] that the package calls.

    Conventions.
    - A Go [string] is a [string] of bytes ([ascii]).
    - A pointer [*T] is [ptr T = option T]; [None] is the nil pointer.  A
      method with a pointer receiver returns the new pointee next to its
      results.
    - A call either returns or panics: [Outcome].
    - A Go [(value, error)] result is a pair whose second component is
      [option error]; [None] is the nil error. *)

From Stdlib Require Import ZArith Ascii String List Bool Lia DecimalString Floats.
From stdpp Require Import base option list strings gmap.

Set Warnings "-clear-no-such-hyp".

Open Scope string_scope.
Open Scope list_scope.
Open Scope Z_scope.

(** ** Errors *)

(** The error values the package creates or receives.  [Errorf] is the value
    of [fmt.Errorf] with exactly one [%w] verb: the text before it, the
    wrapped error, the text after it. *)
Inductive error : Type :=
| ErrInvalidConfigType
| ErrUnsupportedType
| flag_ErrHelp
| flag_errParse
| flag_errRange
| strconv_ErrSyntax
| strconv_ErrRange
| NumError (Func Num : string) (Err : error)
| Errorf (before : string) (wrapped : error) (after : string)
| errors_New (text : string).

(** What a panic carries.  A panic of package flag carries its message,
    which the package has printed to the output writer before it panics. *)
Inductive PanicValue : Type :=
| nil_dereference
| type_assertion_failed
| reflect_panic (text : string)
| flag_panic (text : string)
| panic_error (e : error).

Inductive Outcome (A : Type) : Type :=
| Ret (a : A)
| Panic (v : PanicValue).
Arguments Ret {A} a.
Arguments Panic {A} v.

Definition ptr (A : Type) : Type := option A.

(** [err.Unwrap()] for the error types above. *)
Definition Unwrap (e : error) : option error :=
  match e with
  | NumError _ _ inner => Some inner
  | Errorf _ inner _ => Some inner
  | _ => None
  end.

(** [errors.Is(err, flag.ErrHelp)]: the sentinels are compared by identity
    along the [Unwrap] chain. *)
Fixpoint is_ErrHelp (e : error) : bool :=
  match e with
  | flag_ErrHelp => true
  | NumError _ _ inner => is_ErrHelp inner
  | Errorf _ inner _ => is_ErrHelp inner
  | _ => false
  end.

(** ** Bytes *)

Definition byte_in (lo hi c : ascii) : bool :=
  (N_of_ascii lo <=? N_of_ascii c)%N && (N_of_ascii c <=? N_of_ascii hi)%N.

Definition isDigit (c : ascii) : bool := byte_in "0" "9" c.

Definition digit_value (c : ascii) : Z := Z.of_N (N_of_ascii c) - 48.

Definition len (s : string) : Z := Z.of_nat (String.length s).

(** ** Package strings *)

Module strings.

(** [strings.HasPrefix(s, prefix)]. *)
Fixpoint HasPrefix (s prefix : string) : bool :=
  match prefix, s with
  | EmptyString, _ => true
  | String p prefix', String c s' => if Ascii.eqb p c then HasPrefix s' prefix' else false
  | String _ _, EmptyString => false
  end.

(** The loop of [genSplit] for a non-empty separator, by bytes: [skip] counts
    the bytes of a separator occurrence still to pass over. *)
Fixpoint Split_from (sep s : string) (skip : nat) : list string :=
  match s with
  | EmptyString => [EmptyString]
  | String c s' =>
      match skip with
      | S k => Split_from sep s' k
      | O =>
          if HasPrefix s sep then EmptyString :: Split_from sep s' (String.length sep - 1)
          else
            match Split_from sep s' O with
            | piece :: pieces => String c piece :: pieces
            | [] => [String c EmptyString]
            end
      end
  end.

(** [strings.Split(s, sep)] for a non-empty [sep]; an empty [sep] explodes
    [s] into its bytes. *)
Definition Split (s sep : string) : list string :=
  match sep with
  | EmptyString => (fun c => String c EmptyString) <$> list_ascii_of_string s
  | _ => Split_from sep s O
  end.

(** [strings.Join(elems, sep)]. *)
Fixpoint Join (elems : list string) (sep : string) : string :=
  match elems with
  | [] => EmptyString
  | [e] => e
  | e :: rest => e +:+ sep +:+ Join rest sep
  end.

(** [strings.Contains(s, substr)]. *)
Fixpoint Contains (s substr : string) : bool :=
  HasPrefix s substr ||
  match s with
  | EmptyString => false
  | String _ s' => Contains s' substr
  end.

End strings.

(** ** Package strconv *)

Module strconv.

(** [strconv.IntSize]: the size of [int] and [uint] on the 64-bit platforms the
    package is built for. *)
Definition IntSize : Z := 64.

Definition maxUint64 : Z := 2 ^ 64 - 1.

(** The digit loop of [ParseUint] in base 10.  [inl n] is the number read;
    [inr e] is [ErrSyntax] at the first byte that is no digit or [ErrRange]
    at the first digit that overflows, whichever comes first. *)
Fixpoint ParseUint_digits (maxVal : Z) (s : string) (n : Z) : Z + error :=
  match s with
  | EmptyString => inl n
  | String c s' =>
      if negb (isDigit c) then inr strconv_ErrSyntax
      else if maxUint64 / 10 + 1 <=? n then inr strconv_ErrRange
      else
        let n1 := n * 10 + digit_value c in
        if maxVal <? n1 then inr strconv_ErrRange
        else ParseUint_digits maxVal s' n1
  end.

Definition bits (bitSize : Z) : Z := if bitSize =? 0 then IntSize else bitSize.

(** [strconv.ParseUint(s, 10, bitSize)]. *)
Definition ParseUint10 (s : string) (bitSize : Z) : Z * option error :=
  match s with
  | EmptyString => (0, Some (NumError "ParseUint" s strconv_ErrSyntax))
  | _ =>
      let maxVal := 2 ^ bits bitSize - 1 in
      match ParseUint_digits maxVal s 0 with
      | inl n => (n, None)
      | inr strconv_ErrRange => (maxVal, Some (NumError "ParseUint" s strconv_ErrRange))
      | inr e => (0, Some (NumError "ParseUint" s e))
      end
  end.

(** [strconv.ParseInt(s, 10, bitSize)], with the function name the error
    reports as a parameter ([ParseInt] and [Atoi] differ only there). *)
Definition ParseInt10_as (fn s : string) (bitSize : Z) : Z * option error :=
  match s with
  | EmptyString => (0, Some (NumError fn s strconv_ErrSyntax))
  | String c s' =>
      let neg := Ascii.eqb c "-" in
      let digits := if Ascii.eqb c "+" || neg then s' else s in
      let cutoff := 2 ^ (bits bitSize - 1) in
      match ParseUint10 digits bitSize with
      | (_, Some (NumError _ _ strconv_ErrSyntax)) => (0, Some (NumError fn s strconv_ErrSyntax))
      | (un, _) =>
          if negb neg && (cutoff <=? un) then (cutoff - 1, Some (NumError fn s strconv_ErrRange))
          else if neg && (cutoff <? un) then (- cutoff, Some (NumError fn s strconv_ErrRange))
          else (if neg then - un else un, None)
      end
  end.

Definition ParseInt10 (s : string) (bitSize : Z) : Z * option error :=
  ParseInt10_as "ParseInt" s bitSize.

(** [strconv.Atoi(s)]: [ParseInt(s, 10, 0)] reported as [Atoi]. *)
Definition Atoi (s : string) : Z * option error := ParseInt10_as "Atoi" s 0.

(** [strconv.ParseBool(str)]. *)
Definition ParseBool (str : string) : bool * option error :=
  if bool_decide (str ∈ ["1"; "t"; "T"; "TRUE"; "true"; "True"]) then (true, None)
  else if bool_decide (str ∈ ["0"; "f"; "F"; "FALSE"; "false"; "False"]) then (false, None)
  else (false, Some (NumError "ParseBool" str strconv_ErrSyntax)).

End strconv.

(** ** value.go: the list adapters *)

(** [type StringSlice []string].  A slice is the list of its elements; a nil
    slice and an empty slice are both the empty list. *)
Definition StringSlice : Type := list string.

(** [func (f *StringSlice) Set(s string) error] *)
Definition StringSlice_Set (f : ptr StringSlice) (s : string)
  : Outcome (ptr StringSlice * option error) :=
  if bool_decide (s = "") then Ret (f, None)
  else
    match f with
    | None => Panic nil_dereference
    | Some _ => Ret (Some (strings.Split s ","), None)
    end.

(** [func (f *StringSlice) String() string] *)
Definition StringSlice_String (f : ptr StringSlice) : string :=
  match f with
  | Some l =>
      if (Z.of_nat (length l) =? 0) then "[]"
      else "['" +:+ strings.Join l "','" +:+ "']"
  | None => ""
  end.

(** [func (f *StringSlice) Get() interface{}] *)
Definition StringSlice_Get (f : ptr StringSlice) : Outcome (list string) :=
  match f with
  | Some l => Ret l
  | None => Panic nil_dereference
  end.

(** [type IntSlice []int] *)
Definition IntSlice : Type := list Z.

(** The [for _, v := range vs] loop of [IntSlice.Set]: [acc] is [*f]. *)
Fixpoint IntSlice_Set_loop (vs : list string) (acc : IntSlice) : IntSlice * option error :=
  match vs with
  | [] => (acc, None)
  | v :: vs' =>
      match strconv.Atoi v with
      | (_, Some err) => ([], Some (Errorf "parsing int: " err ""))
      | (i, None) => IntSlice_Set_loop vs' (acc ++ [i])
      end
  end.

(** [func (f *IntSlice) Set(s string) error] *)
Definition IntSlice_Set (f : ptr IntSlice) (s : string)
  : Outcome (ptr IntSlice * option error) :=
  if bool_decide (s = "") then Ret (f, None)
  else
    match f with
    | None => Panic nil_dereference
    | Some _ =>
        let vs := strings.Split s "," in
        let '(l, err) := IntSlice_Set_loop vs [] in
        Ret (Some l, err)
    end.

(** [fmt.Sprintf("%d", i)]: the decimal numeral of [i]. *)
Definition FormatInt (i : Z) : string := NilZero.string_of_int (Z.to_int i).

(** [func (f *IntSlice) String() string] *)
Definition IntSlice_String (f : ptr IntSlice) : string :=
  match f with
  | Some l =>
      if (Z.of_nat (length l) =? 0) then "[]"
      else "[" +:+ strings.Join (FormatInt <$> l) "," +:+ "]"
  | None => ""
  end.

(** [func (f *IntSlice) Get() interface{}] *)
Definition IntSlice_Get (f : ptr IntSlice) : Outcome (list Z) :=
  match f with
  | Some l => Ret l
  | None => Panic nil_dereference
  end.

(** ** Package net/url: the data *)

Module url.

(** [url.Userinfo] *)
Record Userinfo : Type := mkUserinfo {
  username : string;
  password : string;
  passwordSet : bool
}.

(** [url.URL] *)
Record URL : Type := mkURL {
  Scheme : string;
  Opaque : string;
  User : ptr Userinfo;
  Host : string;
  Path : string;
  RawPath : string;
  OmitHost : bool;
  ForceQuery : bool;
  RawQuery : string;
  Fragment : string;
  RawFragment : string
}.

(** [url.URL{}] *)
Definition zero : URL := mkURL "" "" None "" "" "" false false "" "" "".

End url.

(** ** Package time: RFC 3339 *)

Module time.

(** A [time.Time] is an instant together with a location.  It is held here
    as the civil reading of the instant in its location and the location's
    offset from UTC in seconds: the fields [Parse] builds the value from and
    the fields [Format] prints. *)
Record Time : Type := mkTime {
  Year : Z;
  Month : Z;
  Day : Z;
  Hour : Z;
  Minute : Z;
  Second : Z;
  Nanosecond : Z;
  Offset : Z
}.

(** [time.Time{}]: January 1 of year 1, 00:00:00 UTC. *)
Definition zero : Time := mkTime 1 1 1 0 0 0 0 0.

Definition isLeap (year : Z) : bool :=
  (year mod 4 =? 0) && (negb (year mod 100 =? 0) || (year mod 400 =? 0)).

Definition daysIn (m year : Z) : Z :=
  if (m =? 2) && isLeap year then 29
  else if m =? 2 then 28
  else if (m =? 4) || (m =? 6) || (m =? 9) || (m =? 11) then 30
  else 31.

(** [s[i:j]] and [s[i:]] *)
Definition slice (s : string) (i j : nat) : string := substring i (j - i) s.
Definition slice_from (s : string) (i : nat) : string := substring i (String.length s - i) s.

(** [s[i] == c], false past the end. *)
Definition byte_is (s : string) (i : nat) (c : ascii) : bool :=
  match String.get i s with
  | Some b => Ascii.eqb b c
  | None => false
  end.

(** [isDigit(s, i)] of package time: false past the end. *)
Definition isDigitAt (s : string) (i : nat) : bool :=
  match String.get i s with
  | Some b => isDigit b
  | None => false
  end.

(** The decimal value of a string of digits, [None] at a byte that is no digit. *)
Fixpoint digits (s : string) (x : Z) : option Z :=
  match s with
  | EmptyString => Some x
  | String c s' => if isDigit c then digits s' (x * 10 + digit_value c) else None
  end.

(** The closure [parseUint] of [parseRFC3339]: the number and whether it is
    valid; an invalid one reads as [min]. *)
Definition parseUint (s : string) (min max : Z) : Z * bool :=
  match digits s 0 with
  | Some x => if (x <? min) || (max <? x) then (min, false) else (x, true)
  | None => (min, false)
  end.

(** The number of leading digits of [s]. *)
Fixpoint leading_digits (s : string) : nat :=
  match s with
  | String c s' => if isDigit c then S (leading_digits s') else O
  | EmptyString => O
  end.

(** [parseNanoseconds(value, nbytes)] on a value that starts with a period
    followed by [nbytes - 1] digits: the first nine of them, as nanoseconds. *)
Definition parseNanoseconds (value : string) (nbytes : nat) : Z :=
  let nbytes := Nat.min nbytes 10 in
  match digits (slice value 1 nbytes) 0 with
  | Some ns => ns * 10 ^ Z.of_nat (10 - nbytes)
  | None => 0
  end.

(** The part of [parseRFC3339] after the seconds, where [s] is [s[19:]]:
    first the optional fraction of a second, which gives the nanoseconds
    and what is left of [s]. *)
Definition parseRFC3339_fraction (s : string) : Z * string :=
  if (2 <=? String.length s)%nat && byte_is s 0 "." && isDigitAt s 1
  then
    let n := (2 + leading_digits (slice_from s 2))%nat in
    (parseNanoseconds s n, slice_from s n)
  else (0, s).

(** Then the time zone. *)
Definition parseRFC3339_zone (s : string) (year month day hour min sec : Z) : option Time :=
  let '(nsec, s) := parseRFC3339_fraction s in
  if bool_decide (s = "Z") then Some (mkTime year month day hour min sec nsec 0)
  else if negb (String.length s =? 6)%nat then None
  else
    let '(hr, ok7) := parseUint (slice s 1 3) 0 23 in
    let '(mm, ok8) := parseUint (slice s 4 6) 0 59 in
    if negb (ok7 && ok8)
       || negb ((byte_is s 0 "-" || byte_is s 0 "+") && byte_is s 3 ":")
    then None
    else
      let zoneOffset := (hr * 60 + mm) * 60 in
      let zoneOffset := if byte_is s 0 "-" then zoneOffset * -1 else zoneOffset in
      Some (mkTime year month day hour min sec nsec zoneOffset).

(** [parseRFC3339(s, local)]: the strict reading of an RFC 3339 timestamp. *)
Definition parseRFC3339 (s : string) : option Time :=
  if (String.length s <? 19)%nat then None
  else
    let '(year, ok1) := parseUint (slice s 0 4) 0 9999 in
    let '(month, ok2) := parseUint (slice s 5 7) 1 12 in
    let '(day, ok3) := parseUint (slice s 8 10) 1 (daysIn month year) in
    let '(hour, ok4) := parseUint (slice s 11 13) 0 23 in
    let '(min, ok5) := parseUint (slice s 14 16) 0 59 in
    let '(sec, ok6) := parseUint (slice s 17 19) 0 59 in
    let ok := ok1 && ok2 && ok3 && ok4 && ok5 && ok6 in
    if negb ok
       || negb (byte_is s 4 "-" && byte_is s 7 "-" && byte_is s 10 "T"
                && byte_is s 13 ":" && byte_is s 16 ":")
    then None
    else parseRFC3339_zone (slice_from s 19) year month day hour min sec.

(** The byte of a decimal digit. *)
Definition digit_byte (d : Z) : ascii := ascii_of_N (Z.to_N (48 + d)).

Definition pad_zeros (width : Z) (digits : string) : string :=
  String.concat "" (repeat "0" (Z.to_nat (width - len digits))) +:+ digits.

(** [appendInt(b, x, width)]: the bytes appended. *)
Definition appendInt (x width : Z) : string :=
  let sign := if x <? 0 then "-" else "" in
  let u := Z.abs x in
  if (width =? 2) && (u <? 100) then
    sign +:+ String (digit_byte (u / 10)) (String (digit_byte (u mod 10)) "")
  else if (width =? 4) && (u <? 10000) then
    sign +:+ String (digit_byte (u / 1000)) (String (digit_byte (u / 100 mod 10))
              (String (digit_byte (u / 10 mod 10)) (String (digit_byte (u mod 10)) "")))
  else sign +:+ pad_zeros width (FormatInt u).

(** The zone of the layout element [Z07:00]. *)
Definition formatZone (offset : Z) : string :=
  if offset =? 0 then "Z"
  else
    let zone := Z.quot offset 60 in
    let sign := if zone <? 0 then "-" else "+" in
    let zone := Z.abs zone in
    sign +:+ appendInt (Z.quot zone 60) 2 +:+ ":" +:+ appendInt (Z.rem zone 60) 2.

(** [t.Format(time.RFC3339)], layout [2006-01-02T15:04:05Z07:00]. *)
Definition Format_RFC3339 (t : Time) : string :=
  appendInt (Year t) 4 +:+ "-" +:+ appendInt (Month t) 2 +:+ "-" +:+ appendInt (Day t) 2
  +:+ "T" +:+ appendInt (Hour t) 2 +:+ ":" +:+ appendInt (Minute t) 2 +:+ ":"
  +:+ appendInt (Second t) 2 +:+ formatZone (Offset t).

End time.

(** ** The rest of the standard library

    The functions of the standard library that the package calls and that
    are not modelled above, as an interface.  Every definition and theorem
    below holds for any implementation of it. *)
Class Library : Type := {
  (** [url.Parse(rawURL)]: a non-nil [*url.URL], or an error *)
  url_Parse : string -> url.URL + error;
  (** the method [String] of [*url.URL] *)
  url_String : url.URL -> string;
  (** [time.Parse(time.RFC3339, value)] on a value that [parseRFC3339]
      rejects: the general layout-driven parser *)
  time_parse_layout : string -> time.Time * option error;
  (** [time.ParseDuration(s)], in nanoseconds *)
  time_ParseDuration : string -> Z * option error;
  (** [strconv.ParseFloat(s, 64)] *)
  strconv_ParseFloat : string -> float * option error;
  (** [strconv.ParseInt(s, 0, bitSize)] and [strconv.ParseUint(s, 0, bitSize)]:
      base 0, where the prefix of [s] selects the base *)
  strconv_ParseInt0 : string -> Z -> Z * option error;
  strconv_ParseUint0 : string -> Z -> Z * option error
}.

(** [time.Parse(time.RFC3339, value)]: the strict reading first, then the
    general parser. *)
Definition time_Parse_RFC3339 {lib : Library} (value : string) : time.Time * option error :=
  match time.parseRFC3339 value with
  | Some t => (t, None)
  | None => time_parse_layout value
  end.

(** An implementation of the interface on the inputs of the package's tests:
    [url.Parse] on the table of [TestURL], and parsers that reject what the
    models above do not read.  It instantiates the theorems at concrete
    inputs; no theorem is stated about it. *)
Definition table_url_Parse (rawURL : string) : url.URL + error :=
  if bool_decide (rawURL = "") then inl url.zero
  else if bool_decide (rawURL = "foo.bar") then
    inl (url.mkURL "" "" None "" "foo.bar" "" false false "" "" "")
  else if bool_decide (rawURL = "//foo.bar") then
    inl (url.mkURL "" "" None "foo.bar" "" "" false false "" "" "")
  else if bool_decide (rawURL = "https://foo.bar/baz?qux=1") then
    inl (url.mkURL "https" "" None "foo.bar" "/baz" "" false false "qux=1" "" "")
  else inr (errors_New ("parse " +:+ rawURL +:+ ": invalid URL")).

Definition table_url_String (u : url.URL) : string :=
  (if bool_decide (url.Scheme u = "") then "" else url.Scheme u +:+ ":")
  +:+ (if bool_decide (url.Host u = "") then "" else "//" +:+ url.Host u)
  +:+ url.Path u
  +:+ (if bool_decide (url.RawQuery u = "") then "" else "?" +:+ url.RawQuery u).

Definition table_library : Library := {|
  url_Parse := table_url_Parse;
  url_String := table_url_String;
  time_parse_layout := fun value => (time.zero, Some (errors_New ("parsing time " +:+ value)));
  time_ParseDuration := fun s => (0, Some (errors_New ("time: invalid duration " +:+ s)));
  strconv_ParseFloat := fun s => (PrimFloat.zero, Some (NumError "ParseFloat" s strconv_ErrSyntax));
  strconv_ParseInt0 := fun s bitSize => strconv.ParseInt10 s bitSize;
  strconv_ParseUint0 := fun s bitSize => strconv.ParseUint10 s bitSize
|}.

(** ** value.go: the URL and Time adapters *)

(** [type URL struct { *url.URL }] *)
Record URL : Type := mkURL { URL_embedded : ptr url.URL }.

(** [type Time struct { *time.Time }] *)
Record Time : Type := mkTime { Time_embedded : ptr time.Time }.

(** [func (f *URL) Set(s string) error] *)
Definition URL_Set {lib : Library} (f : ptr URL) (s : string)
  : Outcome (ptr URL * option error) :=
  match url_Parse s with
  | inr err => Ret (f, Some (Errorf "parsing url: " err ""))
  | inl u =>
      match f with
      | None => Panic nil_dereference
      | Some _ => Ret (Some (mkURL (Some u)), None)
      end
  end.

(** [func (f *URL) String() string] *)
Definition URL_String {lib : Library} (f : ptr URL) : string :=
  match f with
  | Some (mkURL (Some u)) => url_String u
  | _ => ""
  end.

(** [func (f *URL) Get() interface{}] *)
Definition URL_Get (f : ptr URL) : Outcome url.URL :=
  match f with
  | Some (mkURL (Some u)) => Ret u
  | _ => Panic nil_dereference
  end.

(** [func (f *Time) Set(s string) error] *)
Definition Time_Set {lib : Library} (f : ptr Time) (s : string)
  : Outcome (ptr Time * option error) :=
  match time_Parse_RFC3339 s with
  | (_, Some err) => Ret (f, Some (Errorf "parsing time: " err ""))
  | (t, None) =>
      match f with
      | None => Panic nil_dereference
      | Some _ => Ret (Some (mkTime (Some t)), None)
      end
  end.

(** [func (f *Time) String() string] *)
Definition Time_String (f : ptr Time) : string :=
  match f with
  | Some (mkTime (Some t)) => time.Format_RFC3339 t
  | _ => ""
  end.

(** [func (f *Time) Get() interface{}] *)
Definition Time_Get (f : ptr Time) : Outcome time.Time :=
  match f with
  | Some (mkTime (Some t)) => Ret t
  | _ => Panic nil_dereference
  end.

(** ** Package github.com/iancoleman/strcase

    The case conversions the binder derives names with, in the version the
    package's tests pin down ([Number1] becomes [number-1]). *)

Module strcase.

Definition isCap (c : ascii) : bool := byte_in "A" "Z" c.
Definition isLow (c : ascii) : bool := byte_in "a" "z" c.
Definition isNum (c : ascii) : bool := byte_in "0" "9" c.

(** [v += 'A'; v -= 'a'] and [v += 'a'; v -= 'A'] on a byte. *)
Definition toUpper (v : ascii) : ascii := ascii_of_N ((N_of_ascii v + 65 + 256 - 97) mod 256).
Definition toLower (v : ascii) : ascii := ascii_of_N ((N_of_ascii v + 97 + 256 - 65) mod 256).

(** [asciiSpace]: the white space among the bytes below [utf8.RuneSelf]. *)
Definition isSpace (c : ascii) : bool :=
  bool_decide (N_of_ascii c ∈ [9; 10; 11; 12; 13; 32]%N).

(** [unicode.IsSpace] on the runes that UTF-8 writes in two bytes, U+0085
    and U+00A0, by their bytes. *)
Definition isSpace2 (c1 c2 : ascii) : bool :=
  (N_of_ascii c1 =? 194)%N && ((N_of_ascii c2 =? 133)%N || (N_of_ascii c2 =? 160)%N).

(** [unicode.IsSpace] on the runes that UTF-8 writes in three bytes:
    U+1680, U+2000 to U+200A, U+2028, U+2029, U+202F, U+205F and U+3000.
    No rune of four bytes is white space. *)
Definition isSpace3 (c1 c2 c3 : ascii) : bool :=
  let b1 := N_of_ascii c1 in
  let b2 := N_of_ascii c2 in
  let b3 := N_of_ascii c3 in
  ((b1 =? 225) && (b2 =? 154) && (b3 =? 128)
   || (b1 =? 226) && (b2 =? 128)
      && ((128 <=? b3) && (b3 <=? 138) || (b3 =? 168) || (b3 =? 169) || (b3 =? 175))
   || (b1 =? 226) && (b2 =? 129) && (b3 =? 159)
   || (b1 =? 227) && (b2 =? 128) && (b3 =? 128))%N.

(** The loop of [TrimLeftFunc(s, unicode.IsSpace)]: the white-space runes at
    the start of [s] are passed over, a rune at a time.  The tests say which
    runes of one, two and three bytes are white space; a byte that starts no
    such rune, valid UTF-8 or not, ends the loop. *)
Fixpoint trimRunes (space1 : ascii -> bool) (space2 : ascii -> ascii -> bool)
    (space3 : ascii -> ascii -> ascii -> bool) (s : string) : string :=
  match s with
  | String c1 s1 =>
      if space1 c1 then trimRunes space1 space2 space3 s1
      else
        match s1 with
        | String c2 s2 =>
            if space2 c1 c2 then trimRunes space1 space2 space3 s2
            else
              match s2 with
              | String c3 s3 =>
                  if space3 c1 c2 c3 then trimRunes space1 space2 space3 s3 else s
              | EmptyString => s
              end
        | EmptyString => s
        end
  | EmptyString => EmptyString
  end.

Fixpoint reverse_onto (s acc : string) : string :=
  match s with
  | String c s' => reverse_onto s' (String c acc)
  | EmptyString => acc
  end.

(** The bytes of [s] from the last to the first. *)
Definition reverse (s : string) : string := reverse_onto s EmptyString.

(** [strings.TrimLeftFunc(s, unicode.IsSpace)] *)
Definition TrimLeft (s : string) : string := trimRunes isSpace isSpace2 isSpace3 s.

(** [strings.TrimRightFunc(s, unicode.IsSpace)]: the same loop from the end
    of [s], where [utf8.DecodeLastRuneInString] finds a white-space rune
    exactly when [s] ends with its bytes. *)
Definition TrimRight (s : string) : string :=
  reverse (trimRunes isSpace (fun c2 c1 => isSpace2 c1 c2)
             (fun c3 c2 c1 => isSpace3 c1 c2 c3) (reverse s)).

(** [strings.TrimSpace(s)]: its loops over the bytes below [utf8.RuneSelf]
    hand over to [TrimFunc] and [TrimRightFunc] at the first other byte, so
    that the white-space runes at both ends are removed, the start first. *)
Definition TrimSpace (s : string) : string := TrimRight (TrimLeft s).

(** [strings.ContainsAny(string(v), chars)] for one byte [v]. *)
Fixpoint ContainsAny (v : ascii) (chars : string) : bool :=
  match chars with
  | String c chars' => Ascii.eqb v c || ContainsAny v chars'
  | EmptyString => false
  end.

Definition isSeparator (v : ascii) : bool :=
  Ascii.eqb v " " || Ascii.eqb v "_" || Ascii.eqb v "-" || Ascii.eqb v ".".

(** The loop [for i, v := range []byte(s)] of [ToScreamingDelimited]:
    [prev] is [s[i-1]] when [i > 0], the argument is [s[i:]], the result is
    what the iterations from [i] on write. *)
Fixpoint delimit (delimiter : ascii) (ignore : string) (screaming : bool)
    (prev : option ascii) (s : string) : string :=
  match s with
  | EmptyString => EmptyString
  | String v0 rest =>
      let vIsCap := isCap v0 in
      let vIsLow := isLow v0 in
      let v := if vIsLow && screaming then toUpper v0
               else if vIsCap && negb screaming then toLower v0
               else v0 in
      let plain :=
        if isSeparator v && negb (ContainsAny v ignore) then delimiter else v in
      let changes :=
        match rest with
        | String next _ =>
            let vIsNum := isNum v in
            let nextIsCap := isCap next in
            let nextIsLow := isLow next in
            let nextIsNum := isNum next in
            if (vIsCap && (nextIsLow || nextIsNum))
               || (vIsLow && (nextIsCap || nextIsNum))
               || (vIsNum && (nextIsCap || nextIsLow))
            then
              let prevIgnore :=
                negb (bool_decide (ignore = EmptyString))
                && match prev with Some p => ContainsAny p ignore | None => false end in
              if negb prevIgnore then
                let prevIsCap := match prev with Some p => isCap p | None => false end in
                Some ((if vIsCap && nextIsLow && prevIsCap
                       then String delimiter EmptyString else EmptyString)
                      +:+ String v EmptyString
                      +:+ (if vIsLow || vIsNum || nextIsNum
                           then String delimiter EmptyString else EmptyString))
              else None
            else None
        | EmptyString => None
        end in
      match changes with
      | Some written => written +:+ delimit delimiter ignore screaming (Some v0) rest
      | None => String plain (delimit delimiter ignore screaming (Some v0) rest)
      end
  end.

(** [strcase.ToScreamingDelimited(s, delimiter, ignore, screaming)] *)
Definition ToScreamingDelimited (s : string) (delimiter : ascii) (ignore : string)
    (screaming : bool) : string :=
  delimit delimiter ignore screaming None (TrimSpace s).

(** [strcase.ToDelimited(s, delimiter)] *)
Definition ToDelimited (s : string) (delimiter : ascii) : string :=
  ToScreamingDelimited s delimiter EmptyString false.

(** [strcase.ToKebab(s)] *)
Definition ToKebab (s : string) : string := ToDelimited s "-".

(** [strcase.ToScreamingSnake(s)] *)
Definition ToScreamingSnake (s : string) : string :=
  ToScreamingDelimited s "_" EmptyString true.

End strcase.

(** ** Package reflect: kinds, types, struct fields *)

Module reflect.

(** [reflect.Kind] *)
Inductive Kind : Type :=
| Invalid | Bool | Int | Int8 | Int16 | Int32 | Int64
| Uint | Uint8 | Uint16 | Uint32 | Uint64 | Uintptr
| Float32 | Float64 | Complex64 | Complex128
| Array | Chan | Func | Interface | Map | Pointer | Slice | String | Struct
| UnsafePointer.

(** [Kind.String()] *)
Definition Kind_String (k : Kind) : string :=
  match k with
  | Invalid => "invalid" | Bool => "bool" | Int => "int" | Int8 => "int8"
  | Int16 => "int16" | Int32 => "int32" | Int64 => "int64"
  | Uint => "uint" | Uint8 => "uint8" | Uint16 => "uint16" | Uint32 => "uint32"
  | Uint64 => "uint64" | Uintptr => "uintptr"
  | Float32 => "float32" | Float64 => "float64"
  | Complex64 => "complex64" | Complex128 => "complex128"
  | Array => "array" | Chan => "chan" | Func => "func" | Interface => "interface"
  | Map => "map" | Pointer => "ptr" | Slice => "slice" | String => "string"
  | Struct => "struct" | UnsafePointer => "unsafe.Pointer"
  end.

(** [reflect.StructTag], as the key-value pairs the tag text spells. *)
Definition StructTag : Type := list (string * string).

(** [tag.Get(key)]: the value of [key], the empty string when absent. *)
Fixpoint Get (tag : StructTag) (key : string) : string :=
  match tag with
  | (k, v) :: tag' => if bool_decide (k = key) then v else Get tag' key
  | [] => ""
  end.

(** The types a field of the record can have: the predeclared types and the
    named types the binder tells apart, struct types with their fields, and
    [other_type k] for every other type, of kind [k] (named types over a
    predeclared one, pointers, maps, other slices, ...). *)
Inductive Type_ : Type :=
| go_bool | go_string | go_uint | go_uint64 | go_int | go_int64 | go_float64
| time_Duration
| act_StringSlice | act_IntSlice | act_URL | act_Time
| struct_type (fields : list StructField)
| other_type (k : Kind)
with StructField : Type :=
| mkStructField (Name PkgPath : string) (Type' : Type_) (Tag : StructTag).

Definition Name (sf : StructField) : string := let 'mkStructField n _ _ _ := sf in n.
Definition PkgPath (sf : StructField) : string := let 'mkStructField _ p _ _ := sf in p.
Definition Type' (sf : StructField) : Type_ := let 'mkStructField _ _ t _ := sf in t.
Definition Tag (sf : StructField) : StructTag := let 'mkStructField _ _ _ t := sf in t.

(** [sf.IsExported()]: [PkgPath] is empty for an exported field. *)
Definition IsExported (sf : StructField) : bool := bool_decide (PkgPath sf = "").

(** [t.Kind()] *)
Definition Kind_of (t : Type_) : Kind :=
  match t with
  | go_bool => Bool
  | go_string => String
  | go_uint => Uint
  | go_uint64 => Uint64
  | go_int => Int
  | go_int64 | time_Duration => Int64
  | go_float64 => Float64
  | act_StringSlice | act_IntSlice => Slice
  | act_URL | act_Time | struct_type _ => Struct
  | other_type k => k
  end.

#[global] Instance Kind_eq_dec : EqDecision Kind.
Proof. solve_decision. Defined.

End reflect.

(** ** Error texts *)

(** [strconv.Quote(s)] for a text without quotes, backslashes or control
    bytes: the text between two double quotes. *)
Definition Quote (s : string) : string :=
  String (ascii_of_N 34) s +:+ String (ascii_of_N 34) EmptyString.

(** [err.Error()] *)
Fixpoint Error (e : error) : string :=
  match e with
  | ErrInvalidConfigType => "invalid config type"
  | ErrUnsupportedType => "type not supported"
  | flag_ErrHelp => "flag: help requested"
  | flag_errParse => "parse error"
  | flag_errRange => "value out of range"
  | strconv_ErrSyntax => "invalid syntax"
  | strconv_ErrRange => "value out of range"
  | NumError fn num err => "strconv." +:+ fn +:+ ": parsing " +:+ Quote num +:+ ": " +:+ Error err
  | Errorf before wrapped after => before +:+ Error wrapped +:+ after
  | errors_New text => text
  end.

(** ** The target record and the output writer *)

(** A pointer into the target record is the path of field names from its
    root; the pointer to the record itself is the empty path. *)
Definition path : Type := list string.

(** What a leaf field holds. *)
Inductive Value : Type :=
| bool_of (b : bool)
| string_of (s : string)
| uint_of (n : Z)
| uint64_of (n : Z)
| int_of (n : Z)
| int64_of (n : Z)
| Duration_of (d : Z)
| float64_of (x : float)
| StringSlice_of (l : StringSlice)
| IntSlice_of (l : IntSlice)
| URL_of (u : URL)
| Time_of (t : Time).

(** What is written to an [io.Writer]: a text, or the defaults of the flags
    registered at that moment ([PrintDefaults], not rendered: the usage text
    of each flag by its name). *)
Inductive Written : Type :=
| text (s : string)
| defaults (flags : gmap string string).

(** The objects the binder shares with its caller: the memory of the target
    record, leaf by leaf, and what the output writer has received. *)
Record World : Type := mkWorld {
  memory : gmap path Value;
  sink : list Written
}.

Definition store (w : World) (p : path) (v : Value) : World :=
  mkWorld (<[p := v]> (memory w)) (sink w).

Definition write (w : World) (out : list Written) : World :=
  mkWorld (memory w) (sink w ++ out).

(** ** Package flag *)

Module flag.

(** [flag.ErrorHandling], an [int] *)
Definition ErrorHandling : Type := Z.
Definition ContinueOnError : ErrorHandling := 0.
Definition ExitOnError : ErrorHandling := 1.
Definition PanicOnError : ErrorHandling := 2.

(** The dynamic type of a registered [flag.Value]: the pointer types of
    package flag, and the pointers to the adapters of this package. *)
Inductive ValueType : Type :=
| boolValue | stringValue | uintValue | uint64Value | intValue | int64Value
| durationValue | float64Value
| StringSlice_pointer | IntSlice_pointer | URL_pointer | Time_pointer.

(** [flag.Flag]: [Value] is the dynamic type and the variable it points to.
    [DefValue] serves [PrintDefaults] only and is left out. *)
Record Flag : Type := mkFlag {
  Name : string;
  Usage : string;
  Value_type : ValueType;
  Value_pointer : path
}.

(** [flag.FlagSet].  [Usage] is nil or the function [WithUsage] installs,
    held by the parent command name it prints. *)
Record FlagSet : Type := mkFlagSet {
  name : string;
  Usage_parent : option string;
  formal : gmap string Flag;
  actual : gmap string Flag
}.

(** [flag.NewFlagSet(name, errorHandling)] *)
Definition NewFlagSet (name : string) : FlagSet := mkFlagSet name None ∅ ∅.

(** [f.Var(value, name, usage)].  The message of a panic is built by
    [f.sprintf], which prints it to the output writer of the flag set before
    [Var] panics with it: [flag_panic] carries the message printed. *)
Definition Var (f : FlagSet) (vt : ValueType) (p : path) (name usage : string)
  : Outcome FlagSet :=
  if strings.HasPrefix name "-" then
    Panic (flag_panic ("flag " +:+ Quote name +:+ " begins with -"))
  else if strings.Contains name "=" then
    Panic (flag_panic ("flag " +:+ Quote name +:+ " contains ="))
  else
    match formal f !! name with
    | Some _ =>
        Panic (flag_panic
                 (if bool_decide (flag.name f = "") then "flag redefined: " +:+ name
                  else flag.name f +:+ " flag redefined: " +:+ name))
    | None =>
        Ret (mkFlagSet (flag.name f) (Usage_parent f)
               (<[name := mkFlag name usage vt p]> (formal f)) (actual f))
    end.

(** [numError(err)] *)
Definition numError (err : error) : error :=
  match err with
  | NumError _ _ strconv_ErrSyntax => flag_errParse
  | NumError _ _ strconv_ErrRange => flag_errRange
  | _ => err
  end.

(** [fv.IsBoolFlag()] where the value has the method *)
Definition IsBoolFlag (vt : ValueType) : bool :=
  match vt with boolValue => true | _ => false end.

(** [f.usage()]: what it writes *)
Definition usage (f : FlagSet) : list Written :=
  let header :=
    match Usage_parent f with
    | Some parent => "Usage of " +:+ parent +:+ " " +:+ name f +:+ ":"
    | None =>
        if bool_decide (name f = "") then "Usage:" else "Usage of " +:+ name f +:+ ":"
    end in
  [text header; defaults (Usage <$> formal f)].

(** [f.failf(format, a...)]: the message is written, then the usage, and the
    message is the error returned. *)
Definition failf (f : FlagSet) (w : World) (msg : string) : World * error :=
  (write w (text msg :: usage f), errors_New msg).

(** [flag.Value.Set(s)] by dynamic type: the new value of the variable and
    the error.  [cur] is what the variable holds before the call. *)
Definition Value_Set {lib : Library} (vt : ValueType) (cur : option Value) (s : string)
  : Outcome (Value * option error) :=
  match vt with
  | boolValue =>
      let '(v, err) := strconv.ParseBool s in
      Ret (bool_of v, (fun _ => flag_errParse) <$> err)
  | stringValue => Ret (string_of s, None)
  | uintValue =>
      let '(v, err) := strconv_ParseUint0 s strconv.IntSize in
      Ret (uint_of v, numError <$> err)
  | uint64Value =>
      let '(v, err) := strconv_ParseUint0 s 64 in
      Ret (uint64_of v, numError <$> err)
  | intValue =>
      let '(v, err) := strconv_ParseInt0 s strconv.IntSize in
      Ret (int_of v, numError <$> err)
  | int64Value =>
      let '(v, err) := strconv_ParseInt0 s 64 in
      Ret (int64_of v, numError <$> err)
  | durationValue =>
      let '(v, err) := time_ParseDuration s in
      Ret (Duration_of v, (fun _ => flag_errParse) <$> err)
  | float64Value =>
      let '(v, err) := strconv_ParseFloat s in
      Ret (float64_of v, numError <$> err)
  | StringSlice_pointer =>
      let l := match cur with Some (StringSlice_of l) => l | _ => [] end in
      match StringSlice_Set (Some l) s with
      | Ret (p, err) => Ret (StringSlice_of (default l p), err)
      | Panic v => Panic v
      end
  | IntSlice_pointer =>
      let l := match cur with Some (IntSlice_of l) => l | _ => [] end in
      match IntSlice_Set (Some l) s with
      | Ret (p, err) => Ret (IntSlice_of (default l p), err)
      | Panic v => Panic v
      end
  | URL_pointer =>
      let u := match cur with Some (URL_of u) => u | _ => mkURL None end in
      match URL_Set (Some u) s with
      | Ret (p, err) => Ret (URL_of (default u p), err)
      | Panic v => Panic v
      end
  | Time_pointer =>
      let t := match cur with Some (Time_of t) => t | _ => mkTime None end in
      match Time_Set (Some t) s with
      | Ret (p, err) => Ret (Time_of (default t p), err)
      | Panic v => Panic v
      end
  end.

(** [flag.Value.Set(value)] on the variable of a registered flag. *)
Definition set_flag {lib : Library} (w : World) (fl : Flag) (value : string)
  : Outcome (World * option error) :=
  match Value_Set (Value_type fl) (memory w !! Value_pointer fl) value with
  | Ret (v, err) => Ret (store w (Value_pointer fl) v, err)
  | Panic pv => Panic pv
  end.

(** The loop [for i := 1; i < len(name); i++] of [parseOne] that cuts
    [name=value] at the first equals sign that is not the first byte: the
    name, the value, and whether there is a value. *)
Fixpoint cut_value (name : string) (first : bool) : string * string * bool :=
  match name with
  | EmptyString => (EmptyString, EmptyString, false)
  | String c name' =>
      if negb first && Ascii.eqb c "=" then (EmptyString, name', true)
      else let '(n, v, has) := cut_value name' false in (String c n, v, has)
  end.

Definition record_actual (f : FlagSet) (fl : Flag) : FlagSet :=
  mkFlagSet (name f) (Usage_parent f) (formal f) (<[Name fl := fl]> (actual f)).

(** How [parseOne] reads one argument: no flag (the parse stops), the
    terminator [--], a bad flag, or a flag name with the value that may
    follow an equals sign. *)
Inductive Argument : Type :=
| not_a_flag
| terminator
| bad_syntax
| named (name value : string) (hasValue : bool).

Definition classify (s : string) : Argument :=
  if (len s <? 2) || negb (time.byte_is s 0 "-") then not_a_flag
  else
    let numMinuses := if time.byte_is s 1 "-" then 2%nat else 1%nat in
    if (numMinuses =? 2)%nat && (len s =? 2) then terminator
    else
      let name := time.slice_from s numMinuses in
      if (len name =? 0) || time.byte_is name 0 "-" || time.byte_is name 0 "="
      then bad_syntax
      else let '(name, value, hasValue) := cut_value name true in named name value hasValue.

(** [f.Parse(arguments)] of a flag set created with [ContinueOnError]: the
    loop over [f.parseOne()], which stops at the first argument that is no
    flag, at [--], or at the first error. *)
Fixpoint Parse {lib : Library} (f : FlagSet) (w : World) (arguments : list string)
  : Outcome (FlagSet * World * option error) :=
  match arguments with
  | [] => Ret (f, w, None)
  | s :: args =>
      match classify s with
      | not_a_flag | terminator => Ret (f, w, None)
      | bad_syntax =>
          let '(w, err) := failf f w ("bad flag syntax: " +:+ s) in Ret (f, w, Some err)
      | named name value hasValue =>
          match formal f !! name with
          | None =>
              if bool_decide (name = "help") || bool_decide (name = "h")
              then Ret (f, write w (usage f), Some flag_ErrHelp)
              else
                let '(w, err) :=
                  failf f w ("flag provided but not defined: -" +:+ name) in
                Ret (f, w, Some err)
          | Some fl =>
              if IsBoolFlag (Value_type fl) then
                match set_flag w fl (if hasValue then value else "true") with
                | Panic pv => Panic pv
                | Ret (w, Some err) =>
                    let msg :=
                      if hasValue
                      then "invalid boolean value " +:+ Quote value +:+ " for -"
                           +:+ name +:+ ": " +:+ Error err
                      else "invalid boolean flag " +:+ name +:+ ": " +:+ Error err in
                    let '(w, err) := failf f w msg in Ret (f, w, Some err)
                | Ret (w, None) => Parse (record_actual f fl) w args
                end
              else
                let set_value value rest :=
                  match set_flag w fl value with
                  | Panic pv => Panic pv
                  | Ret (w, Some err) =>
                      let msg := "invalid value " +:+ Quote value +:+ " for flag -"
                                 +:+ name +:+ ": " +:+ Error err in
                      let '(w, err) := failf f w msg in Ret (f, w, Some err)
                  | Ret (w, None) => rest (record_actual f fl) w
                  end in
                match hasValue, args with
                | true, _ => set_value value (fun f w => Parse f w args)
                | false, next :: args' => set_value next (fun f w => Parse f w args')
                | false, [] =>
                    let '(w, err) := failf f w ("flag needs an argument: -" +:+ name) in
                    Ret (f, w, Some err)
                end
          end
      end
  end.

End flag.

(** ** act.go: the binder *)

(** [type Act struct].  The field [output] is the writer of the [World]. *)
Record Act : Type := mkAct {
  flagSet : flag.FlagSet;
  lookupEnvFunc : string -> string * bool;
  name : string;
  errorHandling : flag.ErrorHandling;
  help : bool
}.

Definition with_flagSet (a : Act) (f : flag.FlagSet) : Act :=
  mkAct f (lookupEnvFunc a) (name a) (errorHandling a) (help a).

Definition with_help (a : Act) (h : bool) : Act :=
  mkAct (flagSet a) (lookupEnvFunc a) (name a) (errorHandling a) h.

Definition with_lookupEnvFunc (a : Act) (fn : string -> string * bool) : Act :=
  mkAct (flagSet a) fn (name a) (errorHandling a) (help a).

(** [type Option func(a *Act)]: the four options the package exports. *)
Inductive Option : Type :=
| WithErrorHandling (errorHandling : flag.ErrorHandling)
| WithOutput
| WithLookupEnvFunc (fn : string -> string * bool)
| WithUsage (parentCmdName : string).

Definition apply_Option (opt : Option) (a : Act) : Act :=
  match opt with
  | WithErrorHandling eh => mkAct (flagSet a) (lookupEnvFunc a) (name a) eh (help a)
  | WithOutput => a
  | WithLookupEnvFunc fn => with_lookupEnvFunc a fn
  | WithUsage parent =>
      with_flagSet a
        (flag.mkFlagSet (flag.name (flagSet a)) (Some parent)
           (flag.formal (flagSet a)) (flag.actual (flagSet a)))
  end.

(** [func New(name string, opts ...Option) *Act]; [LookupEnv] is
    [os.LookupEnv], the environment of the process. *)
Definition New (LookupEnv : string -> string * bool) (name : string) (opts : list Option)
  : Act :=
  fold_left (fun a opt => apply_Option opt a) opts
    (mkAct (flag.NewFlagSet name) LookupEnv name flag.ExitOnError false).

(** [func (a *Act) parseHelp(flags []string)] *)
Fixpoint parseHelp (a : Act) (flags : list string) : Act :=
  match flags with
  | [] => a
  | f :: flags' =>
      if bool_decide (f = "--help") || bool_decide (f = "-help")
         || bool_decide (f = "--h") || bool_decide (f = "-h")
      then with_help a true
      else parseHelp a flags'
  end.

(** [func (a *Act) flagName(sf reflect.StructField, prefix string) string] *)
Definition flagName (sf : reflect.StructField) (prefix : string) : string :=
  let f := reflect.Get (reflect.Tag sf) "flag" in
  if negb (bool_decide (f = "")) then f
  else
    let n := reflect.Name sf in
    let n := if negb (bool_decide (prefix = "")) then prefix +:+ "-" +:+ n else n in
    strcase.ToKebab n.

(** [func (a *Act) envVarName(sf reflect.StructField, prefix string) string] *)
Definition envVarName (a : Act) (sf : reflect.StructField) (prefix : string) : string :=
  let e := reflect.Get (reflect.Tag sf) "env" in
  if negb (bool_decide (e = "")) then e
  else
    let n := name a +:+ "_" +:+ reflect.Name sf in
    let n := if negb (bool_decide (prefix = ""))
             then name a +:+ "_" +:+ prefix +:+ "_" +:+ reflect.Name sf else n in
    strcase.ToScreamingSnake n.

(** [func (a *Act) usage(sf reflect.StructField, env string, prefix string) string] *)
Definition usage (sf : reflect.StructField) (env prefix : string) : string :=
  let u := reflect.Get (reflect.Tag sf) "help" in
  if negb (bool_decide (u = "")) then u +:+ " (env " +:+ env +:+ ")"
  else
    let n := reflect.Name sf in
    let n := if negb (bool_decide (prefix = "")) then prefix +:+ " " +:+ reflect.Name sf else n in
    strcase.ToDelimited n " " +:+ " (env " +:+ env +:+ ")".

(** [func (a *Act) newPrefix(sf reflect.StructField, prefix string) string] *)
Definition newPrefix (sf : reflect.StructField) (prefix : string) : string :=
  if negb (bool_decide (prefix = "")) then prefix +:+ "-" +:+ reflect.Name sf
  else reflect.Name sf.

(** What a call of the binder's internals yields: the binder, the world and
    the error returned, or a panic. *)
Definition Step : Type := Outcome (Act * World * option error).

(** [a.flagSet.BoolVar(p, name, value, usage)] and its siblings, and the
    assignment [*p = ...] followed by [a.flagSet.Var(p, name, usage)] for an
    adapter: the variable at [p] receives [v], then the flag is registered. *)
Definition register (a : Act) (w : World) (vt : flag.ValueType) (p : path) (v : Value)
    (name usage : string) : Step :=
  match flag.Var (flagSet a) vt p name usage with
  | Panic pv => Panic pv
  | Ret f => Ret (with_flagSet a f, store w p v, None)
  end.

(** [fmt.Errorf("parsing <what> %q: %w", value, err)] *)
Definition parsing (what value : string) (err : error) : error :=
  Errorf ("parsing " +:+ what +:+ " " +:+ Quote value +:+ ": ") err "".

(** [func (a *Act) parseBool(p *bool, flag, value, usage string) error] *)
Definition parseBool (a : Act) (w : World) (p : path) (flag value usage : string) : Step :=
  if bool_decide (value = "") then register a w flag.boolValue p (bool_of false) flag usage
  else
    match strconv.ParseBool value with
    | (_, Some err) => Ret (a, w, Some (parsing "bool" value err))
    | (val, None) => register a w flag.boolValue p (bool_of val) flag usage
    end.

(** [func (a *Act) parseUint(p *uint, flag, value, usage string) error] *)
Definition parseUint (a : Act) (w : World) (p : path) (flag value usage : string) : Step :=
  if bool_decide (value = "") then register a w flag.uintValue p (uint_of 0) flag usage
  else
    match strconv.ParseUint10 value 32 with
    | (_, Some err) => Ret (a, w, Some (parsing "uint" value err))
    | (val, None) => register a w flag.uintValue p (uint_of val) flag usage
    end.

(** [func (a *Act) parseUint64(p *uint64, flag, value, usage string) error] *)
Definition parseUint64 (a : Act) (w : World) (p : path) (flag value usage : string) : Step :=
  if bool_decide (value = "") then register a w flag.uint64Value p (uint64_of 0) flag usage
  else
    match strconv.ParseUint10 value 64 with
    | (_, Some err) => Ret (a, w, Some (parsing "uint64" value err))
    | (val, None) => register a w flag.uint64Value p (uint64_of val) flag usage
    end.

(** [func (a *Act) parseInt(p *int, flag, value, usage string) error] *)
Definition parseInt (a : Act) (w : World) (p : path) (flag value usage : string) : Step :=
  if bool_decide (value = "") then register a w flag.intValue p (int_of 0) flag usage
  else
    match strconv.Atoi value with
    | (_, Some err) => Ret (a, w, Some (parsing "int" value err))
    | (val, None) => register a w flag.intValue p (int_of val) flag usage
    end.

(** [func (a *Act) parseInt64(p *int64, flag, value, usage string) error] *)
Definition parseInt64 (a : Act) (w : World) (p : path) (flag value usage : string) : Step :=
  if bool_decide (value = "") then register a w flag.int64Value p (int64_of 0) flag usage
  else
    match strconv.ParseInt10 value 64 with
    | (_, Some err) => Ret (a, w, Some (parsing "int64" value err))
    | (val, None) => register a w flag.int64Value p (int64_of val) flag usage
    end.

(** [func (a *Act) parseDuration(p *time.Duration, flag, value, usage string) error] *)
Definition parseDuration {lib : Library} (a : Act) (w : World) (p : path)
    (flag value usage : string) : Step :=
  if bool_decide (value = "") then register a w flag.durationValue p (Duration_of 0) flag usage
  else
    match time_ParseDuration value with
    | (_, Some err) => Ret (a, w, Some (parsing "duration" value err))
    | (val, None) => register a w flag.durationValue p (Duration_of val) flag usage
    end.

(** [func (a *Act) parseFloat64(p *float64, flag, value, usage string) error] *)
Definition parseFloat64 {lib : Library} (a : Act) (w : World) (p : path)
    (flag value usage : string) : Step :=
  if bool_decide (value = "")
  then register a w flag.float64Value p (float64_of PrimFloat.zero) flag usage
  else
    match strconv_ParseFloat value with
    | (_, Some err) => Ret (a, w, Some (parsing "float64" value err))
    | (val, None) => register a w flag.float64Value p (float64_of val) flag usage
    end.

(** [func (a *Act) parseStringSlice(p *StringSlice, flag, value, usage string) error] *)
Definition parseStringSlice (a : Act) (w : World) (p : path) (flag value usage : string)
  : Step :=
  if bool_decide (value = "")
  then register a w flag.StringSlice_pointer p (StringSlice_of []) flag usage
  else
    match StringSlice_Set (Some []) value with
    | Panic pv => Panic pv
    | Ret (ss, _) =>
        register a w flag.StringSlice_pointer p (StringSlice_of (default [] ss)) flag usage
    end.

(** [func (a *Act) parseIntSlice(p *IntSlice, flag, value, usage string) error] *)
Definition parseIntSlice (a : Act) (w : World) (p : path) (flag value usage : string)
  : Step :=
  if bool_decide (value = "")
  then register a w flag.IntSlice_pointer p (IntSlice_of []) flag usage
  else
    match IntSlice_Set (Some []) value with
    | Panic pv => Panic pv
    | Ret (_, Some err) => Ret (a, w, Some err)
    | Ret (ints, None) =>
        register a w flag.IntSlice_pointer p (IntSlice_of (default [] ints)) flag usage
    end.

(** [func (a *Act) parseURL(p *URL, flag, value, usage string) error] *)
Definition parseURL {lib : Library} (a : Act) (w : World) (p : path)
    (flag value usage : string) : Step :=
  if bool_decide (value = "")
  then register a w flag.URL_pointer p (URL_of (mkURL None)) flag usage
  else
    match URL_Set (Some (mkURL None)) value with
    | Panic pv => Panic pv
    | Ret (_, Some err) => Ret (a, w, Some err)
    | Ret (u, None) =>
        register a w flag.URL_pointer p (URL_of (default (mkURL None) u)) flag usage
    end.

(** [func (a *Act) parseTime(p *Time, flag, value, usage string) error] *)
Definition parseTime {lib : Library} (a : Act) (w : World) (p : path)
    (flag value usage : string) : Step :=
  if bool_decide (value = "")
  then register a w flag.Time_pointer p (Time_of (mkTime None)) flag usage
  else
    match Time_Set (Some (mkTime None)) value with
    | Panic pv => Panic pv
    | Ret (_, Some err) => Ret (a, w, Some err)
    | Ret (t, None) =>
        register a w flag.Time_pointer p (Time_of (default (mkTime None) t)) flag usage
    end.

(** [fmt.Errorf("parsing value: %w: %v", ErrUnsupportedType, kind)] *)
Definition unsupported (kind : reflect.Kind) : error :=
  Errorf "parsing value: " ErrUnsupportedType (": " +:+ reflect.Kind_String kind).

(** [func (a *Act) parseValue(kind reflect.Kind, varPointer interface{}, flag,
    value, usage string) error].  [varPointer] is a pointer to a variable of
    type [t], at [p]; an unchecked type assertion on another type panics. *)
Definition parseValue {lib : Library} (a : Act) (w : World) (kind : reflect.Kind)
    (t : reflect.Type_) (p : path) (flag value usage : string) : Step :=
  match kind with
  | reflect.Bool =>
      match t with
      | reflect.go_bool => parseBool a w p flag value usage
      | _ => Panic type_assertion_failed
      end
  | reflect.String =>
      match t with
      | reflect.go_string => register a w flag.stringValue p (string_of value) flag usage
      | _ => Panic type_assertion_failed
      end
  | reflect.Uint =>
      match t with
      | reflect.go_uint => parseUint a w p flag value usage
      | _ => Panic type_assertion_failed
      end
  | reflect.Uint64 =>
      match t with
      | reflect.go_uint64 => parseUint64 a w p flag value usage
      | _ => Panic type_assertion_failed
      end
  | reflect.Int =>
      match t with
      | reflect.go_int => parseInt a w p flag value usage
      | _ => Panic type_assertion_failed
      end
  | reflect.Int64 =>
      match t with
      | reflect.time_Duration => parseDuration a w p flag value usage
      | reflect.go_int64 => parseInt64 a w p flag value usage
      | _ => Ret (a, w, Some (unsupported kind))
      end
  | reflect.Float64 =>
      match t with
      | reflect.go_float64 => parseFloat64 a w p flag value usage
      | _ => Panic type_assertion_failed
      end
  | reflect.Struct =>
      match t with
      | reflect.act_URL => parseURL a w p flag value usage
      | reflect.act_Time => parseTime a w p flag value usage
      | _ => Ret (a, w, Some (unsupported kind))
      end
  | reflect.Slice =>
      match t with
      | reflect.act_StringSlice => parseStringSlice a w p flag value usage
      | reflect.act_IntSlice => parseIntSlice a w p flag value usage
      | _ => Ret (a, w, Some (unsupported kind))
      end
  | _ => Ret (a, w, Some (unsupported kind))
  end.

(** The part of the loop body of [parse] that binds a leaf field: the
    environment value when there is one and no help was asked for, the [def]
    tag otherwise. *)
Definition bind_leaf {lib : Library} (a : Act) (w : World) (field : reflect.StructField)
    (p : path) (prefix : string) : Step :=
  let flagName := flagName field prefix in
  let envVarName := envVarName a field prefix in
  let usage := usage field envVarName prefix in
  let t := reflect.Type' field in
  let '(envVarValue, ok) := lookupEnvFunc a envVarName in
  if ok && negb (help a) then
    match parseValue a w (reflect.Kind_of t) t p flagName envVarValue usage with
    | Ret (a, w, Some err) => Ret (a, w, Some (Errorf (reflect.Name field +:+ " env: ") err ""))
    | r => r
    end
  else
    match parseValue a w (reflect.Kind_of t) t p flagName
            (reflect.Get (reflect.Tag field) "def") usage with
    | Ret (a, w, Some err) => Ret (a, w, Some (Errorf (reflect.Name field +:+ " def: ") err ""))
    | r => r
    end.

(** Whether [parse] recurses into a field of type [t]: a struct that is
    neither [URL] nor [Time]. *)
Definition recurses (t : reflect.Type_) : bool :=
  bool_decide (reflect.Kind_of t = reflect.Struct)
  && negb (match t with reflect.act_URL => true | _ => false end)
  && negb (match t with reflect.act_Time => true | _ => false end).

(** The loop [for i := 0; i < v.NumField(); i++] of [parse] over the fields
    [fs] of the struct at [base], in the order of their declaration;
    [recurse] is [a.parse] on the pointer to a field that is a struct. *)
Fixpoint parse_fields {lib : Library}
    (recurse : reflect.Type_ -> Act -> World -> path -> list string -> string -> Step)
    (base : path) (flags : list string) (prefix : string)
    (fs : list reflect.StructField) (a : Act) (w : World) {struct fs} : Step :=
  match fs with
  | [] => Ret (a, w, None)
  | field :: fs' =>
      if negb (reflect.IsExported field) then
        Panic (reflect_panic "reflect.Value.Interface: cannot return value obtained from unexported field or method")
      else
        let p := base ++ [reflect.Name field] in
        let r :=
          match field with
          | reflect.mkStructField _ _ ft _ =>
              if recurses ft
              then recurse ft a w p flags (newPrefix field prefix)
              else bind_leaf a w field p prefix
          end in
        match r with
        | Ret (a, w, None) => parse_fields recurse base flags prefix fs' a w
        | _ => r
        end
  end.

(** [func (a *Act) parse(config interface{}, flags []string, prefix string) error]
    on a non-nil pointer to a struct of type [t] at [base]. *)
Fixpoint parse_struct {lib : Library} (t : reflect.Type_) (a : Act) (w : World)
    (base : path) (flags : list string) (prefix : string) {struct t} : Step :=
  let a := parseHelp a flags in
  match t with
  | reflect.struct_type fields => parse_fields parse_struct base flags prefix fields a w
  | _ => Ret (a, w, None)
  end.

(** What a caller can pass as [config interface{}]: the nil interface, a
    pointer of type [*elem] that is nil or points to the target record, or a
    value of any type that is no pointer. *)
Inductive Config : Type :=
| nil_interface
| pointer_to (elem : reflect.Type_) (target : ptr path)
| not_a_pointer.

(** The fields [reflect] reports for a type of kind [Struct]: the adapters
    [URL] and [Time] have one embedded pointer field each. *)
Definition as_struct (t : reflect.Type_) : reflect.Type_ :=
  match t with
  | reflect.act_URL =>
      reflect.struct_type [reflect.mkStructField "URL" "" (reflect.other_type reflect.Pointer) []]
  | reflect.act_Time =>
      reflect.struct_type [reflect.mkStructField "Time" "" (reflect.other_type reflect.Pointer) []]
  | _ => t
  end.

(** [func (a *Act) parse(config interface{}, flags []string, prefix string) error] *)
Definition parse {lib : Library} (a : Act) (w : World) (config : Config)
    (flags : list string) (prefix : string) : Step :=
  match config with
  | pointer_to elem target =>
      if negb (bool_decide (reflect.Kind_of elem = reflect.Struct))
      then Ret (parseHelp a flags, w, Some ErrInvalidConfigType)
      else
        match target with
        | None =>
            Panic (reflect_panic "reflect: call of reflect.Value.NumField on zero Value")
        | Some base => parse_struct (as_struct elem) a w base flags prefix
        end
  | _ => Ret (parseHelp a flags, w, Some ErrInvalidConfigType)
  end.

(** How a call of [Parse] ends: it returns, the process exits, or it panics. *)
Inductive Exit : Type :=
| returned (a : Act) (w : World) (err : option error)
| exited (w : World) (code : Z)
| panicked (v : PanicValue).

(** [func (a *Act) exit(err error) error] *)
Definition exit (a : Act) (w : World) (err : option error) : Exit :=
  match err with
  | None => returned a w None
  | Some e =>
      if errorHandling a =? flag.ContinueOnError then
        if is_ErrHelp e then returned a w None else returned a w (Some e)
      else if errorHandling a =? flag.ExitOnError then
        if help a || is_ErrHelp e then exited w 0
        else exited (write w [text ("act: " +:+ Error e +:+ String (ascii_of_N 10) EmptyString)]) 2
      else if errorHandling a =? flag.PanicOnError then panicked (panic_error e)
      else returned a w None
  end.

(** [func (a *Act) Parse(config interface{}, flags []string) error] *)
Definition Parse {lib : Library} (a : Act) (w : World) (config : Config)
    (flags : list string) : Exit :=
  match parse a w config flags EmptyString with
  | Panic pv => panicked pv
  | Ret (a, w, Some err) => exit a w (Some err)
  | Ret (a, w, None) =>
      match flag.Parse (flagSet a) w flags with
      | Panic pv => panicked pv
      | Ret (f, w, err) => exit (with_flagSet a f) w err
      end
  end.

(** ** The words of the specification *)

(** A help request: one of the tokens [-h], [--h], [-help], [--help] among
    the arguments. *)
Definition help_requested (flags : list string) : bool :=
  existsb (fun f => bool_decide (f ∈ ["-h"; "--h"; "-help"; "--help"])) flags.

(** The target is a pointer to a record type. *)
Definition is_pointer_to_struct (config : Config) : bool :=
  match config with
  | pointer_to elem _ => bool_decide (reflect.Kind_of elem = reflect.Struct)
  | _ => false
  end.

(** The type dispatch table of the specification: the baseline a text
    denotes for a leaf of type [t], [None] when the text does not parse or
    the type is not supported.  An empty text denotes the zero value. *)
Definition baseline_value {lib : Library} (t : reflect.Type_) (text : string)
  : option Value :=
  let nonempty (read : option Value) (zero : Value) :=
    if bool_decide (text = "") then Some zero else read in
  match t with
  | reflect.go_bool =>
      nonempty (match strconv.ParseBool text with (b, None) => Some (bool_of b) | _ => None end)
        (bool_of false)
  | reflect.go_string => Some (string_of text)
  | reflect.go_uint =>
      nonempty (match strconv.ParseUint10 text 32 with (n, None) => Some (uint_of n) | _ => None end)
        (uint_of 0)
  | reflect.go_uint64 =>
      nonempty (match strconv.ParseUint10 text 64 with (n, None) => Some (uint64_of n) | _ => None end)
        (uint64_of 0)
  | reflect.go_int =>
      nonempty (match strconv.Atoi text with (n, None) => Some (int_of n) | _ => None end)
        (int_of 0)
  | reflect.go_int64 =>
      nonempty (match strconv.ParseInt10 text 64 with (n, None) => Some (int64_of n) | _ => None end)
        (int64_of 0)
  | reflect.time_Duration =>
      nonempty (match time_ParseDuration text with (d, None) => Some (Duration_of d) | _ => None end)
        (Duration_of 0)
  | reflect.go_float64 =>
      nonempty (match strconv_ParseFloat text with (x, None) => Some (float64_of x) | _ => None end)
        (float64_of PrimFloat.zero)
  | reflect.act_StringSlice =>
      nonempty (Some (StringSlice_of (strings.Split text ","))) (StringSlice_of [])
  | reflect.act_IntSlice =>
      nonempty (match IntSlice_Set_loop (strings.Split text ",") [] with
                | (l, None) => Some (IntSlice_of l)
                | _ => None
                end)
        (IntSlice_of [])
  | reflect.act_URL =>
      nonempty (match url_Parse text with inl u => Some (URL_of (mkURL (Some u))) | inr _ => None end)
        (URL_of (mkURL None))
  | reflect.act_Time =>
      nonempty (match time_Parse_RFC3339 text with
                | (t, None) => Some (Time_of (mkTime (Some t)))
                | _ => None
                end)
        (Time_of (mkTime None))
  | _ => None
  end.

(** The dynamic type of the flag value registered for a leaf of type [t]. *)
Definition flag_type (t : reflect.Type_) : option flag.ValueType :=
  match t with
  | reflect.go_bool => Some flag.boolValue
  | reflect.go_string => Some flag.stringValue
  | reflect.go_uint => Some flag.uintValue
  | reflect.go_uint64 => Some flag.uint64Value
  | reflect.go_int => Some flag.intValue
  | reflect.go_int64 => Some flag.int64Value
  | reflect.time_Duration => Some flag.durationValue
  | reflect.go_float64 => Some flag.float64Value
  | reflect.act_StringSlice => Some flag.StringSlice_pointer
  | reflect.act_IntSlice => Some flag.IntSlice_pointer
  | reflect.act_URL => Some flag.URL_pointer
  | reflect.act_Time => Some flag.Time_pointer
  | _ => None
  end.

(** The text a leaf field takes its baseline from: the value of its
    environment variable when the lookup finds one and no help was asked
    for, the [def] annotation otherwise. *)
Definition baseline_text (a : Act) (field : reflect.StructField) (prefix : string) : string :=
  let '(value, found) := lookupEnvFunc a (envVarName a field prefix) in
  if found && negb (help a) then value else reflect.Get (reflect.Tag field) "def".

(** The outcome of a step, or of [Parse], for a binder that looks the
    environment up with [fn]: the same outcome, in which the binder
    returned has [fn] for its lookup. *)
Definition under_environment (fn : string -> string * bool) (st : Step) : Step :=
  match st with
  | Ret (a, w, e) => Ret (with_lookupEnvFunc a fn, w, e)
  | Panic pv => Panic pv
  end.

Definition Exit_under_environment (fn : string -> string * bool) (x : Exit) : Exit :=
  match x with
  | returned a w err => returned (with_lookupEnvFunc a fn) w err
  | exited w code => exited w code
  | panicked pv => panicked pv
  end.

(** The environment in which no variable is set. *)
Definition empty_environment (key : string) : string * bool := ("", false).

(** The field of a struct by its name, as [FieldByName] finds it among the
    fields of the struct itself. *)
Fixpoint find_field (fields : list reflect.StructField) (n : string)
  : option reflect.StructField :=
  match fields with
  | [] => None
  | field :: fields' =>
      if bool_decide (reflect.Name field = n) then Some field else find_field fields' n
  end.

(** The field path of the specification: the leaf field that the field
    identifiers [p] lead to from the fields of a record, parent first, with
    the prefix [parse] has built when it reaches the leaf. *)
Fixpoint find_leaf (fields : list reflect.StructField) (p : path) (prefix : string)
  : option (reflect.StructField * string) :=
  match p with
  | [] => None
  | n :: rest =>
      match find_field fields n with
      | None => None
      | Some field =>
          if recurses (reflect.Type' field) then
            match reflect.Type' field with
            | reflect.struct_type fields' => find_leaf fields' rest (newPrefix field prefix)
            | _ => None
            end
          else
            match rest with
            | [] => Some (field, prefix)
            | _ => None
            end
      end
  end.

(** Two bytes are alike when they are equal or are both a hyphen or an
    underscore; two texts are alike when they are so byte by byte. *)
Definition alike_bytes (c1 c2 : ascii) : Prop :=
  c1 = c2 \/ ((c1 = "-"%char \/ c1 = "_"%char) /\ (c2 = "-"%char \/ c2 = "_"%char)).

Inductive alike : string -> string -> Prop :=
| alike_empty : alike EmptyString EmptyString
| alike_byte (c1 c2 : ascii) (s1 s2 : string) :
    alike_bytes c1 c2 -> alike s1 s2 -> alike (String c1 s1) (String c2 s2).

(** The field identifiers of the structs along a field path are distinct
    within each struct, as the language requires of a struct type. *)
Fixpoint distinct_along (fields : list reflect.StructField) (p : path) : Prop :=
  NoDup (reflect.Name <$> fields)
  /\ match p with
     | [] => True
     | n :: rest =>
         match find_field fields n with
         | Some field =>
             match reflect.Type' field with
             | reflect.struct_type fields' => distinct_along fields' rest
             | _ => True
             end
         | None => True
         end
     end.

(** The world in which a call of [Parse] ends, unless it panics. *)
Definition final_world (x : Exit) : option World :=
  match x with
  | returned _ w _ => Some w
  | exited w _ => Some w
  | panicked _ => None
  end.

(** A step touches only the variables in [S]: the memory outside [S] is as
    before, the flags registered before are still registered, and every new
    flag points into [S]. *)
Definition touches_only (S : path -> Prop) (x y : Act * World) : Prop :=
  (forall q, ~ S q -> memory y.2 !! q = memory x.2 !! q)
  /\ (forall n fl, flag.formal (flagSet y.1) !! n = Some fl ->
        flag.formal (flagSet x.1) !! n = Some fl \/ S (flag.Value_pointer fl))
  /\ (forall n fl, flag.formal (flagSet x.1) !! n = Some fl ->
        flag.formal (flagSet y.1) !! n = Some fl).

(** The final value of the field at [p] is [v]: after the walk has ended in
    [a1] and [w1], the flag collaborator parses the arguments and ends in a
    world where the field holds [v]; [Parse] hands the collaborator's error
    to the policy in that world, and in whatever world [Parse] ends, the field
    holds [v]. *)
Definition field_ends_as {lib : Library} (a a1 : Act) (w w1 : World) (config : Config)
    (flags : list string) (p : path) (v : Value) : Prop :=
  (exists f2 w2 e2,
      flag.Parse (flagSet a1) w1 flags = Ret (f2, w2, e2)
      /\ Parse a w config flags = exit (with_flagSet a1 f2) w2 e2
      /\ memory w2 !! p = Some v)
  /\ (forall wf, final_world (Parse a w config flags) = Some wf -> memory wf !! p = Some v).

(** RFC 3339, section 5.6: the timestamps [date-time] without fraction of a
    second, by their fields. *)
Module rfc3339.

(** [time-offset]: the letter [Z], which may be written in lower case, or a
    numeric offset with its sign, hour and minute. *)
Inductive Offset : Type :=
| zulu (lowercase : bool)
| numoffset (negative : bool) (hour minute : Z).

Record DateTime : Type := mkDateTime {
  fullyear : Z;
  month : Z;
  mday : Z;
  lowercase_t : bool;
  hour : Z;
  minute : Z;
  second : Z;
  offset : Offset
}.

(** Section 5.7 and appendix C: the days of a month. *)
Definition leap_year (year : Z) : bool :=
  (year mod 4 =? 0) && (negb (year mod 100 =? 0) || (year mod 400 =? 0)).

Definition days_in_month (year month : Z) : Z :=
  if month =? 2 then (if leap_year year then 29 else 28)
  else if bool_decide (month ∈ [4; 6; 9; 11]) then 30
  else 31.

Definition valid_offset (o : Offset) : Prop :=
  match o with
  | zulu _ => True
  | numoffset _ h m => 0 <= h <= 23 /\ 0 <= m <= 59
  end.

(** The ranges of the fields; a second of 60 is a leap second. *)
Definition valid (dt : DateTime) : Prop :=
  0 <= fullyear dt <= 9999
  /\ 1 <= month dt <= 12
  /\ 1 <= mday dt <= days_in_month (fullyear dt) (month dt)
  /\ 0 <= hour dt <= 23
  /\ 0 <= minute dt <= 59
  /\ 0 <= second dt <= 60
  /\ valid_offset (offset dt).

(** [2DIGIT] and [4DIGIT] *)
Definition digit (d : Z) : ascii := ascii_of_N (Z.to_N (48 + d)).

Definition two_digits (n : Z) (rest : string) : string :=
  String (digit (n / 10)) (String (digit (n mod 10)) rest).

Definition four_digits (n : Z) (rest : string) : string :=
  String (digit (n / 1000)) (String (digit (n / 100 mod 10))
    (String (digit (n / 10 mod 10)) (String (digit (n mod 10)) rest))).

(** [time-secfrac] without its period: one or more digits. *)
Fixpoint digits_only (s : string) : bool :=
  match s with
  | EmptyString => true
  | String c s' => isDigit c && digits_only s'
  end.

Definition secfrac (fraction : string) : Prop :=
  fraction <> EmptyString /\ digits_only fraction = true.

Definition offset_text (o : Offset) : string :=
  match o with
  | zulu lowercase => if lowercase then "z" else "Z"
  | numoffset negative h m =>
      String (if negative then "-" else "+")%char
        (two_digits h (String ":" (two_digits m EmptyString)))
  end.

(** The text of a timestamp. *)
Definition text (dt : DateTime) : string :=
  four_digits (fullyear dt) (String "-"
    (two_digits (month dt) (String "-"
      (two_digits (mday dt) (String (if lowercase_t dt then "t" else "T")%char
        (two_digits (hour dt) (String ":"
          (two_digits (minute dt) (String ":"
            (two_digits (second dt) (offset_text (offset dt)))))))))))).

(** The same timestamp with a fraction of a second, [time-secfrac]: a
    period and one or more digits. *)
Definition text_with_fraction (dt : DateTime) (fraction : string) : string :=
  four_digits (fullyear dt) (String "-"
    (two_digits (month dt) (String "-"
      (two_digits (mday dt) (String (if lowercase_t dt then "t" else "T")%char
        (two_digits (hour dt) (String ":"
          (two_digits (minute dt) (String ":"
            (two_digits (second dt)
               (String "." (fraction +:+ offset_text (offset dt))))))))))))).

(** The timestamps that [time.Parse] reads and [Format] writes back as they
    are: capital [T] and [Z], no leap second, and no numeric offset of
    zero. *)
Definition canonical (dt : DateTime) : Prop :=
  lowercase_t dt = false
  /\ second dt <= 59
  /\ match offset dt with
     | zulu lowercase => lowercase = false
     | numoffset _ h m => h <> 0 \/ m <> 0
     end.

End rfc3339.

(** ** Relations between the states of the walk *)

(** A step respects a relation between the state before and the state after
    when every return of it, with or without an error, is related to the
    state it started from. *)
Definition respects (R : Act * World -> Act * World -> Prop) (a : Act) (w : World)
    (st : Step) : Prop :=
  forall a' w' e, st = Ret (a', w', e) -> R (a, w) (a', w').

(** The walk changes neither the name, the policy nor the environment
    lookup of the binder, and only ever raises the help mark. *)
Definition keeps_settings (x y : Act * World) : Prop :=
  lookupEnvFunc y.1 = lookupEnvFunc x.1
  /\ name y.1 = name x.1
  /\ errorHandling y.1 = errorHandling x.1
  /\ (help x.1 = true -> help y.1 = true).

(** Without a help request the walk leaves the settings of the binder as
    they are, the help mark included. *)
Definition same_settings (x y : Act * World) : Prop :=
  lookupEnvFunc y.1 = lookupEnvFunc x.1 /\ name y.1 = name x.1 /\ help y.1 = help x.1.

(** The leaf at [q] is bound: its variable holds the baseline that [text]
    denotes, its flag is registered under [flagname] and points to it, and no
    flag registered since [a0] under another name points to it. *)
Definition bound_at {lib : Library} (a0 a1 : Act) (w1 : World) (q : path)
    (field : reflect.StructField) (flagname text : string) : Prop :=
  exists v vt u,
    baseline_value (reflect.Type' field) text = Some v
    /\ memory w1 !! q = Some v
    /\ flag.formal (flagSet a1) !! flagname = Some (flag.mkFlag flagname u vt q)
    /\ (forall n fl, flag.formal (flagSet a1) !! n = Some fl -> flag.Value_pointer fl = q ->
          n = flagname \/ flag.formal (flagSet a0) !! n = Some fl).

(** Linear arithmetic with quotients and remainders by constants. *)
Ltac div_lia := Z.div_mod_to_equations; lia.

(** ** The fields of a record *)

(** The fields the walk over a value of type [t] comes to: the fields of
    [t] itself and, through each field the walk recurses into, the fields
    below it. *)
Inductive reaches : reflect.Type_ -> reflect.StructField -> Prop :=
| reaches_field (fields : list reflect.StructField) (field : reflect.StructField) :
    field ∈ fields -> reaches (reflect.struct_type fields) field
| reaches_below (fields : list reflect.StructField) (field below : reflect.StructField) :
    field ∈ fields -> recurses (reflect.Type' field) = true ->
    reaches (reflect.Type' field) below -> reaches (reflect.struct_type fields) below.

(** The number of leaves of a type: the fields the walk binds, at any
    depth. *)
Fixpoint leaves (t : reflect.Type_) : nat :=
  match t with
  | reflect.struct_type fields =>
      sum_list_with
        (fun field =>
           match field with
           | reflect.mkStructField _ _ ft _ => if recurses ft then leaves ft else 1%nat
           end)
        fields
  | _ => 0%nat
  end.

(** ** Where the walk stands *)

(** The leaf at [q] is registered: its variable holds the baseline that the
    text of the leaf denotes for the binder [a0], and its flag is in the flag
    set of [a1] under the name [flagName] gives it, with the usage text of
    [usage] and the environment name of [envVarName], and points to the
    variable. *)
Definition registered_at {lib : Library} (a0 a1 : Act) (w1 : World) (q : path)
    (field : reflect.StructField) (prefix : string) : Prop :=
  exists v vt,
    baseline_value (reflect.Type' field) (baseline_text a0 field prefix) = Some v
    /\ memory w1 !! q = Some v
    /\ flag_type (reflect.Type' field) = Some vt
    /\ flag.formal (flagSet a1) !! flagName field prefix
       = Some (flag.mkFlag (flagName field prefix)
                 (usage field (envVarName a0 field prefix) prefix) vt q).

(** The walk of [parse] over a value of type [t] at [base], called with the
    binder [a], the record [w] and [prefix], arrives at [field]: the loop has
    bound the fields before it without an error and stands at [field] with
    the binder [a'] and the record [w'], in the struct at [base'] that was
    entered with [prefix'].  The field is one of [t] itself, or one below a
    field of [t] that the walk recurses into. *)
Inductive arrives {lib : Library} (flags : list string) :
  reflect.Type_ -> Act -> World -> path -> string ->
  reflect.StructField -> Act -> World -> path -> string -> Prop :=
| arrives_here (fs1 fs2 : list reflect.StructField) (field : reflect.StructField)
    (a a1 : Act) (w w1 : World) (base : path) (prefix : string) :
    parse_fields parse_struct base flags prefix fs1 (parseHelp a flags) w = Ret (a1, w1, None) ->
    arrives flags (reflect.struct_type (fs1 ++ field :: fs2)) a w base prefix
      field a1 w1 base prefix
| arrives_below (fs1 fs2 : list reflect.StructField) (parent field : reflect.StructField)
    (a a1 a' : Act) (w w1 w' : World) (base base' : path) (prefix prefix' : string) :
    parse_fields parse_struct base flags prefix fs1 (parseHelp a flags) w = Ret (a1, w1, None) ->
    reflect.IsExported parent = true ->
    recurses (reflect.Type' parent) = true ->
    arrives flags (reflect.Type' parent) a1 w1 (base ++ [reflect.Name parent])
      (newPrefix parent prefix) field a' w' base' prefix' ->
    arrives flags (reflect.struct_type (fs1 ++ parent :: fs2)) a w base prefix
      field a' w' base' prefix'.

(** The messages with which [f.Var] panics on the flag name [name], each
    printed to the output writer of the flag set before the panic: the name
    begins with a hyphen, contains an equals sign, or is defined already. *)
Definition Var_panics_with (f : flag.FlagSet) (name msg : string) : Prop :=
  msg = "flag " +:+ Quote name +:+ " begins with -"
  \/ msg = "flag " +:+ Quote name +:+ " contains ="
  \/ msg = (if bool_decide (flag.name f = "") then "flag redefined: " +:+ name
            else flag.name f +:+ " flag redefined: " +:+ name).

(** * Properties *)

(** ** The list adapters *)

Lemma Atoi_error_names_token (tok : string) (e : error) :
  (strconv.Atoi tok).2 = Some e -> exists cause, e = NumError "Atoi" tok cause.
Proof.
  unfold strconv.Atoi, strconv.ParseInt10_as.
  destruct tok as [|c tok]; simpl.
  - intros [= <-]. eauto.
  - repeat case_match; simpl; intros [= <-]; eauto.
Qed.

Lemma IntSlice_Set_loop_first_failure (vs : list string) (acc : IntSlice) :
  (exists tok, tok ∈ vs /\ (strconv.Atoi tok).2 <> None) ->
  exists before tok after cause,
    vs = before ++ tok :: after
    /\ Forall (fun t => (strconv.Atoi t).2 = None) before
    /\ (strconv.Atoi tok).2 = Some (NumError "Atoi" tok cause)
    /\ IntSlice_Set_loop vs acc
       = ([], Some (Errorf "parsing int: " (NumError "Atoi" tok cause) "")).
Proof.
  revert acc. induction vs as [|v vs IH]; intros acc [tok [Hin Hbad]].
  - inversion Hin.
  - simpl. destruct (strconv.Atoi v) as [i [err|]] eqn:Hv.
    + destruct (Atoi_error_names_token v err) as [cause ->]; [by rewrite Hv|].
      exists [], v, vs, cause. rewrite Hv. by repeat split.
    + destruct (IH (acc ++ [i])) as (before & tok' & after & cause & -> & Hok & Hfail & Hloop).
      { apply elem_of_cons in Hin as [->|Hin]; [by rewrite Hv in Hbad|eauto]. }
      exists (v :: before), tok', after, cause. repeat split; try done.
      constructor; [by rewrite Hv|done].
Qed.

(** C4.  For every non-empty text one of whose comma-separated tokens is not
    read by [strconv.Atoi], [IntSlice.Set] returns the error of the first such
    token, which names the token, and leaves the list empty: [Get] returns the
    empty sequence, whatever the list held before. *)
Theorem IntSlice_Set_rejects_whole_text (l : IntSlice) (s : string) :
  s <> "" ->
  (exists tok, tok ∈ strings.Split s "," /\ (strconv.Atoi tok).2 <> None) ->
  exists before tok after cause,
    strings.Split s "," = before ++ tok :: after
    /\ Forall (fun t => (strconv.Atoi t).2 = None) before
    /\ (strconv.Atoi tok).2 = Some (NumError "Atoi" tok cause)
    /\ exists f',
         IntSlice_Set (Some l) s
         = Ret (f', Some (Errorf "parsing int: " (NumError "Atoi" tok cause) ""))
         /\ IntSlice_Get f' = Ret [].
Proof.
  intros Hs Hbad.
  destruct (IntSlice_Set_loop_first_failure (strings.Split s ",") [] Hbad)
    as (before & tok & after & cause & Hsplit & Hok & Hfail & Hloop).
  exists before, tok, after, cause. repeat split; try done.
  exists (Some []). split; [|done].
  unfold IntSlice_Set. rewrite bool_decide_eq_false_2 by done.
  cbv zeta. by rewrite Hloop.
Qed.

Lemma IntSlice_Set_rejects_whole_text_witness :
  exists before tok after cause,
    strings.Split "1,foo,2" "," = before ++ tok :: after
    /\ Forall (fun t => (strconv.Atoi t).2 = None) before
    /\ (strconv.Atoi tok).2 = Some (NumError "Atoi" tok cause)
    /\ exists f',
         IntSlice_Set (Some [7]) "1,foo,2"
         = Ret (f', Some (Errorf "parsing int: " (NumError "Atoi" tok cause) ""))
         /\ IntSlice_Get f' = Ret [].
Proof.
  apply (IntSlice_Set_rejects_whole_text [7] "1,foo,2").
  - discriminate.
  - exists "foo". split; [|discriminate].
    vm_compute. repeat constructor.
Defined.

(** C9, as the code has it.  [String] never fails: it answers the empty text
    on a nil receiver, for each of the four adapters, and on a [URL] or [Time]
    whose embedded pointer is nil; on an empty [StringSlice] or [IntSlice] it
    answers a pair of brackets. *)
Theorem String_on_nil_and_zero_adapters {lib : Library} :
  StringSlice_String None = "" /\ IntSlice_String None = ""
  /\ URL_String None = "" /\ Time_String None = ""
  /\ URL_String (Some (mkURL None)) = "" /\ Time_String (Some (mkTime None)) = ""
  /\ StringSlice_String (Some []) = "[]" /\ IntSlice_String (Some []) = "[]".
Proof. repeat split. Qed.

(** C9 fails as stated: the zero value of [StringSlice] is displayed as a
    pair of brackets, not as the empty text. *)
Lemma String_of_zero_StringSlice_is_not_empty :
  StringSlice_String (Some []) = "[]" /\ StringSlice_String (Some []) <> "".
Proof. split; [reflexivity | discriminate]. Qed.

(** ** The URL and Time adapters *)

(** C10.  [URL.Get] and [Time.Get] return the value behind the embedded
    pointer when it is not nil, which is the case after a successful [Set]
    (for [URL] also after [Set] of the empty text, when [url.Parse] accepts
    it), and are a nil dereference on a zero-valued adapter, where [String]
    answers the empty text. *)
Theorem Get_dereferences_without_guard {lib : Library} :
  (forall u, URL_Get (Some (mkURL (Some u))) = Ret u)
  /\ (forall t, Time_Get (Some (mkTime (Some t))) = Ret t)
  /\ URL_Get (Some (mkURL None)) = Panic nil_dereference
  /\ Time_Get (Some (mkTime None)) = Panic nil_dereference
  /\ (forall f s f', URL_Set (Some f) s = Ret (f', None) ->
        exists u, url_Parse s = inl u /\ URL_Get f' = Ret u)
  /\ (forall f s f', Time_Set (Some f) s = Ret (f', None) ->
        exists t, time_Parse_RFC3339 s = (t, None) /\ Time_Get f' = Ret t)
  /\ (forall f u, url_Parse "" = inl u ->
        exists f', URL_Set (Some f) "" = Ret (f', None) /\ URL_Get f' = Ret u)
  /\ URL_String (Some (mkURL None)) = "" /\ Time_String (Some (mkTime None)) = "".
Proof.
  repeat split; try done.
  - intros f s f'. unfold URL_Set. destruct (url_Parse s) as [u|e]; [|done].
    intros [= <-]. by exists u.
  - intros f s f'. unfold Time_Set.
    destruct (time_Parse_RFC3339 s) as [t [e|]]; [done|].
    intros [= <-]. by exists t.
  - intros f u Hu. unfold URL_Set. rewrite Hu. eauto.
Qed.

Lemma Get_dereferences_without_guard_witness :
  URL_Get (Some (mkURL (Some url.zero))) = Ret url.zero
  /\ exists f', URL_Set (lib := table_library) (Some (mkURL None)) "" = Ret (f', None)
                /\ URL_Get f' = Ret url.zero.
Proof.
  pose proof (@Get_dereferences_without_guard table_library)
    as (Hget & _ & _ & _ & _ & _ & Hempty & _).
  split; [apply Hget | apply Hempty; reflexivity].
Defined.

(** C3, as the code has it.  [URL.Set] and [Time.Set] on a non-nil receiver
    always return.  A failing [Set] leaves the adapter as it was: nothing is
    reset.  A successful [Set] stores exactly the value parsed, and for the
    empty text, which [url.Parse] reads as the zero URL, that is the zero URL. *)
Theorem Set_keeps_or_replaces {lib : Library} (fu : URL) (ft : Time) (s : string) :
  (exists r, URL_Set (Some fu) s = Ret r)
  /\ (exists r, Time_Set (Some ft) s = Ret r)
  /\ (forall f' e, URL_Set (Some fu) s = Ret (f', Some e) -> f' = Some fu)
  /\ (forall f' e, Time_Set (Some ft) s = Ret (f', Some e) -> f' = Some ft)
  /\ (forall f', URL_Set (Some fu) s = Ret (f', None) ->
        exists u, url_Parse s = inl u /\ f' = Some (mkURL (Some u)))
  /\ (forall f', Time_Set (Some ft) s = Ret (f', None) ->
        exists t, time_Parse_RFC3339 s = (t, None) /\ f' = Some (mkTime (Some t)))
  /\ (url_Parse "" = inl url.zero ->
        URL_Set (Some fu) "" = Ret (Some (mkURL (Some url.zero)), None)).
Proof.
  unfold URL_Set, Time_Set.
  repeat split.
  - destruct (url_Parse s); eauto.
  - destruct (time_Parse_RFC3339 s) as [t [e|]]; eauto.
  - intros f' e. destruct (url_Parse s); intros [= <-]; done.
  - intros f' e. destruct (time_Parse_RFC3339 s) as [t [e'|]]; intros [= <-]; done.
  - intros f'. destruct (url_Parse s) as [u|e]; intros [= <-]. by exists u.
  - intros f'. destruct (time_Parse_RFC3339 s) as [t [e|]]; intros [= <-]. by exists t.
  - intros ->. done.
Qed.

Lemma Set_keeps_or_replaces_witness :
  URL_Set (lib := table_library) (Some (mkURL None)) ""
  = Ret (Some (mkURL (Some url.zero)), None).
Proof.
  pose proof (@Set_keeps_or_replaces table_library (mkURL None) (mkTime None) "")
    as (_ & _ & _ & _ & _ & _ & Hempty).
  apply Hempty. reflexivity.
Defined.

(** C3 fails as stated: a [Time] that holds a parsed value still holds it
    after [Set] of the empty text has failed, and a [URL] that holds a parsed
    value still holds it after [Set] of a malformed text has failed.  The
    inputs are those of the package's tests. *)
Lemma Set_failure_does_not_reset :
  exists (t : Time) (u : URL) (e1 e2 : error),
    Time_Set (lib := table_library) (Some (mkTime None)) "2002-10-02T15:00:00Z"
    = Ret (Some t, None)
    /\ Time_Set (lib := table_library) (Some t) "" = Ret (Some t, Some e1)
    /\ t <> mkTime None
    /\ URL_Set (lib := table_library) (Some (mkURL None)) "foo.bar" = Ret (Some u, None)
    /\ URL_Set (lib := table_library) (Some u) "%" = Ret (Some u, Some e2)
    /\ u <> mkURL None.
Proof.
  eexists _, _, _, _. repeat split; try reflexivity; discriminate.
Qed.

(** ** The walk over the record: induction and invariants *)

(** Induction over the nesting of struct types. *)
Lemma struct_type_induction (P : reflect.Type_ -> Prop) :
  (forall t,
     (forall fields, t = reflect.struct_type fields ->
        Forall (fun sf => P (reflect.Type' sf)) fields) -> P t) ->
  forall t, P t.
Proof.
  intros step. fix IH 1. intros t. apply step.
  destruct t as [| | | | | | | | | | | |fs|k]; intros fields Heq; try discriminate Heq.
  injection Heq as <-.
  induction fs as [|sf fs IHfs]; constructor; [|exact IHfs].
  destruct sf as [n pkg ft tag]. exact (IH ft).
Qed.

Lemma parse_fields_respects {lib : Library} (R : Act * World -> Act * World -> Prop)
    (recurse : reflect.Type_ -> Act -> World -> path -> list string -> string -> Step)
    (base : path) (flags : list string) (prefix : string) (fs : list reflect.StructField) :
  (forall x, R x x) ->
  (forall x y z, R x y -> R y z -> R x z) ->
  (forall a w field, field ∈ fs ->
     respects R a w (bind_leaf a w field (base ++ [reflect.Name field]) prefix)) ->
  (forall a w field, field ∈ fs -> recurses (reflect.Type' field) = true ->
     respects R a w
       (recurse (reflect.Type' field) a w (base ++ [reflect.Name field]) flags
          (newPrefix field prefix))) ->
  forall a w, respects R a w (parse_fields recurse base flags prefix fs a w).
Proof.
  intros Hrefl Htrans. induction fs as [|field fs IH]; intros Hleaf Hrec a w a' w' e; simpl.
  - intros [= <- <- <-]. apply Hrefl.
  - destruct (reflect.IsExported field); simpl; [|done].
    assert (Hin : field ∈ field :: fs) by (apply elem_of_cons; auto).
    pose proof (Hleaf a w field Hin) as Hl. pose proof (Hrec a w field Hin) as Hr.
    assert (IH' : forall a w, respects R a w (parse_fields recurse base flags prefix fs a w)).
    { apply IH.
      - intros ? ? ? ?. apply Hleaf. apply elem_of_cons; auto.
      - intros ? ? ? ?. apply Hrec. apply elem_of_cons; auto. }
    destruct field as [n pkg ft tag]; simpl in *.
    match goal with |- context [match ?r with Ret _ => _ | Panic _ => _ end] =>
      assert (Hstep : respects R a w r) by (destruct (recurses ft); auto);
      destruct r as [[[a1 w1] [e1|]]|pv] end; try done.
    + intros [= <- <- <-]. by eapply Hstep.
    + intros Hrest. eapply Htrans; [by eapply Hstep|]. by eapply IH'.
Qed.

Lemma parse_struct_respects {lib : Library} (R : Act * World -> Act * World -> Prop)
    (flags : list string) :
  (forall x, R x x) ->
  (forall x y z, R x y -> R y z -> R x z) ->
  (forall a w, R (a, w) (parseHelp a flags, w)) ->
  (forall a w field p prefix, respects R a w (bind_leaf a w field p prefix)) ->
  forall t a w base prefix, respects R a w (parse_struct t a w base flags prefix).
Proof.
  intros Hrefl Htrans Hhelp Hleaf t.
  induction t as [t IH] using struct_type_induction. intros a w base prefix a' w' e.
  destruct t; simpl; try (intros [= <- <- <-]; apply Hhelp).
  specialize (IH fields eq_refl). intros Hrun.
  eapply Htrans; [apply (Hhelp a w)|].
  eapply parse_fields_respects; [done|done| | |exact Hrun].
  - intros. apply Hleaf.
  - intros a0 w0 field Hin _. rewrite Forall_forall in IH. by apply IH.
Qed.

(** *** One leaf *)

Lemma Var_Ret (f f' : flag.FlagSet) (vt : flag.ValueType) (p : path) (name usage : string) :
  flag.Var f vt p name usage = Ret f' ->
  flag.formal f !! name = None
  /\ f' = flag.mkFlagSet (flag.name f) (flag.Usage_parent f)
            (<[name := flag.mkFlag name usage vt p]> (flag.formal f)) (flag.actual f).
Proof.
  unfold flag.Var. repeat case_match; try done. by intros [= <-].
Qed.

Lemma register_Ret (a a' : Act) (w w' : World) (vt : flag.ValueType) (p : path) (v : Value)
    (name usage : string) (e : option error) :
  register a w vt p v name usage = Ret (a', w', e) ->
  e = None /\ w' = store w p v
  /\ exists f', flag.Var (flagSet a) vt p name usage = Ret f' /\ a' = with_flagSet a f'.
Proof.
  unfold register. destruct (flag.Var _ _ _ _ _) as [f'|]; [|done].
  intros [= <- <- <-]. eauto.
Qed.

(** What [parseValue] does on a variable of type [t]: it returns an error and
    changes nothing when the text denotes no baseline; otherwise it stores the
    baseline and registers the flag. *)
Lemma parseValue_Ret {lib : Library} (a a' : Act) (w w' : World) (t : reflect.Type_)
    (p : path) (flag value usage : string) (e : option error) :
  parseValue a w (reflect.Kind_of t) t p flag value usage = Ret (a', w', e) ->
  match e with
  | Some _ => a' = a /\ w' = w /\ baseline_value t value = None
  | None =>
      exists vt v f',
        flag_type t = Some vt /\ baseline_value t value = Some v
        /\ flag.Var (flagSet a) vt p flag usage = Ret f'
        /\ a' = with_flagSet a f' /\ w' = store w p v
  end.
Proof.
  unfold parseValue, baseline_value.
  destruct t as [| | | | | | | | | | | |fs|k]; simpl.
  all: unfold parseBool, parseUint, parseUint64, parseInt, parseInt64, parseDuration,
           parseFloat64, parseStringSlice, parseIntSlice, parseURL, parseTime,
           StringSlice_Set, IntSlice_Set, URL_Set, Time_Set.
  all: repeat (case_match; simplify_eq/=; try done).
  all: try (intros [= <- <- <-]; done).
  all: try (intros Hreg; apply register_Ret in Hreg as (He & -> & f' & Hvar & ->);
            try discriminate He; eexists _, _, f'; repeat split; done).
Qed.

Lemma bind_leaf_Ret {lib : Library} (a a' : Act) (w w' : World) (field : reflect.StructField)
    (p : path) (prefix : string) (e : option error) :
  bind_leaf a w field p prefix = Ret (a', w', e) ->
  match e with
  | Some _ => a' = a /\ w' = w
  | None =>
      exists vt v f',
        flag_type (reflect.Type' field) = Some vt
        /\ baseline_value (reflect.Type' field) (baseline_text a field prefix) = Some v
        /\ flag.Var (flagSet a) vt p (flagName field prefix)
             (usage field (envVarName a field prefix) prefix) = Ret f'
        /\ a' = with_flagSet a f' /\ w' = store w p v
  end.
Proof.
  unfold bind_leaf, baseline_text.
  destruct (lookupEnvFunc a (envVarName a field prefix)) as [value found].
  destruct (found && negb (help a)).
  all: match goal with |- context [parseValue ?a ?w ?k ?t ?p ?f ?v ?u] =>
         destruct (parseValue a w k t p f v u) as [[[a1 w1] [e1|]]|pv] eqn:Hpv end.
  all: intros Hret; simplify_eq.
  all: apply parseValue_Ret in Hpv; first [exact Hpv | by destruct Hpv as (-> & -> & _)].
Qed.

(** *** What the walk keeps *)

Lemma parseHelp_keeps (a : Act) (flags : list string) :
  flagSet (parseHelp a flags) = flagSet a
  /\ lookupEnvFunc (parseHelp a flags) = lookupEnvFunc a
  /\ name (parseHelp a flags) = name a
  /\ errorHandling (parseHelp a flags) = errorHandling a
  /\ help (parseHelp a flags) = help a || help_requested flags.
Proof.
  induction flags as [|f flags IH]; simpl.
  - by rewrite orb_false_r.
  - assert (Hc : bool_decide (f = "--help") || bool_decide (f = "-help")
                 || bool_decide (f = "--h") || bool_decide (f = "-h")
                 = bool_decide (f ∈ ["-h"; "--h"; "-help"; "--help"])).
    { repeat case_bool_decide; simplify_eq; simpl; try done;
        exfalso; set_solver. }
    rewrite Hc. destruct (bool_decide (f ∈ _)); simpl.
    + repeat split; try done. by rewrite orb_true_r.
    + exact IH.
Qed.

Lemma parseHelp_again (a : Act) (flags : list string) :
  help a = true \/ help_requested flags = false -> parseHelp a flags = a.
Proof.
  intros Hcases. induction flags as [|f flags IH]; [done|]. cbn [parseHelp].
  destruct (_ || _) eqn:Htoken.
  - destruct Hcases as [Hhelp|Hnone].
    + destruct a. simpl in Hhelp. by subst.
    + exfalso. cbn [help_requested existsb] in Hnone.
      apply orb_false_iff in Hnone as [Hf _]. apply bool_decide_eq_false in Hf.
      apply Hf. repeat (apply orb_true_iff in Htoken as [Htoken|Htoken]);
        apply bool_decide_eq_true in Htoken; subst; set_solver.
  - apply IH. destruct Hcases as [?|Hnone]; [by left|right].
    cbn [help_requested existsb] in Hnone. by apply orb_false_iff in Hnone as [_ ?].
Qed.

Lemma parseHelp_twice (a : Act) (flags : list string) :
  parseHelp (parseHelp a flags) flags = parseHelp a flags.
Proof.
  apply parseHelp_again. destruct (parseHelp_keeps a flags) as (_ & _ & _ & _ & ->).
  destruct (help_requested flags); [left; apply orb_true_r|by right].
Qed.

Lemma parse_struct_keeps_settings {lib : Library} (t : reflect.Type_) (a : Act) (w : World)
    (base : path) (flags : list string) (prefix : string) :
  respects keeps_settings a w (parse_struct t a w base flags prefix).
Proof.
  apply parse_struct_respects.
  - by intros [a0 w0].
  - intros x y z (? & ? & ? & ?) (? & ? & ? & ?). unfold keeps_settings. intuition congruence.
  - intros a0 w0. destruct (parseHelp_keeps a0 flags) as (? & ? & ? & ? & Hh).
    repeat split; try done. simpl. rewrite Hh. by intros ->.
  - intros a0 w0 field p pre a' w' e Hret. apply bind_leaf_Ret in Hret.
    destruct e as [err|].
    + by destruct Hret as (-> & ->).
    + destruct Hret as (vt & v & f' & _ & _ & _ & -> & _). by repeat split.
Qed.

Lemma parse_keeps_settings {lib : Library} (a : Act) (w : World) (config : Config)
    (flags : list string) (prefix : string) :
  respects keeps_settings a w (parse a w config flags prefix).
Proof.
  intros a' w' e. unfold parse.
  assert (Hhelp : keeps_settings (a, w) (parseHelp a flags, w)).
  { destruct (parseHelp_keeps a flags) as (? & ? & ? & ? & Hh).
    repeat split; try done. simpl. rewrite Hh. by intros ->. }
  destruct config as [|elem [base|]|]; try (by intros [= <- <- <-]).
  - case_match; [by intros [= <- <- <-]|]. apply parse_struct_keeps_settings.
  - case_match; [by intros [= <- <- <-]|done].
Qed.

(** ** The target must be a pointer to a record *)

(** C7, as the code has it.  For every target that is not a pointer to a
    struct type and for every argument list, the walk fails with
    [ErrInvalidConfigType] before any flag is registered, any field is
    modified or anything is written; [Parse] hands that error to the error
    handling policy, and under the return-error policy returns it. *)
Theorem Parse_rejects_other_targets {lib : Library} (a : Act) (w : World) (config : Config)
    (flags : list string) :
  is_pointer_to_struct config = false ->
  parse a w config flags "" = Ret (parseHelp a flags, w, Some ErrInvalidConfigType)
  /\ flagSet (parseHelp a flags) = flagSet a
  /\ Parse a w config flags = exit (parseHelp a flags) w (Some ErrInvalidConfigType)
  /\ (errorHandling a = flag.ContinueOnError ->
      Parse a w config flags = returned (parseHelp a flags) w (Some ErrInvalidConfigType)).
Proof.
  intros Hconfig.
  assert (Hwalk : parse a w config flags ""
                  = Ret (parseHelp a flags, w, Some ErrInvalidConfigType)).
  { unfold parse. destruct config as [|elem target|]; try done.
    simpl in Hconfig. by rewrite Hconfig. }
  destruct (parseHelp_keeps a flags) as (Hfs & _ & _ & Heh & _).
  repeat split; try done.
  - unfold Parse. by rewrite Hwalk.
  - intros Hpolicy. unfold Parse. rewrite Hwalk. unfold exit. by rewrite Heh, Hpolicy.
Qed.

Lemma Parse_rejects_other_targets_witness :
  Parse (lib := table_library)
    (New (fun _ => ("", false)) "test" [WithErrorHandling flag.ContinueOnError])
    (mkWorld ∅ []) not_a_pointer [""]
  = returned (New (fun _ => ("", false)) "test" [WithErrorHandling flag.ContinueOnError])
      (mkWorld ∅ []) (Some ErrInvalidConfigType).
Proof.
  pose proof (@Parse_rejects_other_targets table_library
                (New (fun _ => ("", false)) "test" [WithErrorHandling flag.ContinueOnError])
                (mkWorld ∅ []) not_a_pointer [""] eq_refl) as (_ & _ & _ & Hret).
  exact (Hret eq_refl).
Defined.

(** C7 fails as stated: with the default policy, which terminates the
    process, and a help token among the arguments, [Parse] on a target that
    is no pointer ends the process with status 0 and reports nothing. *)
Lemma Parse_of_other_target_exits_zero_on_help :
  Parse (lib := table_library) (New (fun _ => ("", false)) "test" [])
    (mkWorld ∅ []) not_a_pointer ["-h"]
  = exited (mkWorld ∅ []) 0.
Proof. reflexivity. Qed.

(** ** Help under the return-error policy *)

(** [f.Parse] on the single argument [-h]. *)
Lemma flag_Parse_h {lib : Library} (f : flag.FlagSet) (w : World) :
  flag.Parse f w ["-h"]
  = match flag.formal f !! "h" with
    | None => Ret (f, write w (flag.usage f), Some flag_ErrHelp)
    | Some fl =>
        if flag.IsBoolFlag (flag.Value_type fl) then
          match flag.set_flag w fl "true" with
          | Panic pv => Panic pv
          | Ret (w', Some err) =>
              let '(w', err) :=
                flag.failf f w' ("invalid boolean flag h: " +:+ Error err) in
              Ret (f, w', Some err)
          | Ret (w', None) => Ret (flag.record_actual f fl, w', None)
          end
        else
          let '(w', err) := flag.failf f w "flag needs an argument: -h" in
          Ret (f, w', Some err)
    end.
Proof. reflexivity. Qed.

(** C8, as the code has it.  Under the return-error policy, [Parse] with the
    arguments [-h] returns no error on every record whose walk succeeds and
    that registers no flag named [h] other than a boolean one; when no flag
    is named [h] the usage is written.  The policy turns the help sentinel
    into a nil error and returns every other error as it is. *)
Theorem Parse_help_returns_no_error {lib : Library} (a a1 : Act) (w w1 : World)
    (config : Config) :
  errorHandling a = flag.ContinueOnError ->
  parse a w config ["-h"] "" = Ret (a1, w1, None) ->
  (forall fl, flag.formal (flagSet a1) !! "h" = Some fl ->
              flag.Value_type fl = flag.boolValue) ->
  (exists a2 w2,
      Parse a w config ["-h"] = returned a2 w2 None
      /\ (flag.formal (flagSet a1) !! "h" = None ->
          a2 = a1 /\ w2 = write w1 (flag.usage (flagSet a1))))
  /\ (forall a' w' e, errorHandling a' = flag.ContinueOnError ->
        exit a' w' (Some e) = returned a' w' (if is_ErrHelp e then None else Some e)).
Proof.
  intros Hpolicy Hwalk Hbool.
  pose proof (parse_keeps_settings a w config ["-h"] "" a1 w1 None Hwalk)
    as (_ & _ & Hpolicy1 & _). simpl in Hpolicy1.
  split.
  - unfold Parse. rewrite Hwalk, flag_Parse_h.
    destruct (flag.formal (flagSet a1) !! "h") as [fl|] eqn:Hh.
    + rewrite (Hbool fl eq_refl). simpl.
      unfold flag.set_flag, flag.Value_Set. rewrite (Hbool fl eq_refl). simpl.
      eexists _, _. split; [reflexivity|done].
    + unfold exit. simpl. rewrite Hpolicy1, Hpolicy. simpl.
      eexists _, _. split; [reflexivity|]. intros _. split; [|done].
      by destruct a1.
  - intros a' w' e Hp. unfold exit. rewrite Hp. simpl. by destruct (is_ErrHelp e).
Qed.

Lemma Parse_help_returns_no_error_witness :
  exists a2 w2,
    Parse (lib := table_library)
      (New (fun _ => ("", false)) "test" [WithErrorHandling flag.ContinueOnError])
      (mkWorld ∅ [])
      (pointer_to (reflect.struct_type
                     [reflect.mkStructField "LogLevel" "" reflect.go_string [("def", "debug")]])
         (Some []))
      ["-h"]
    = returned a2 w2 None.
Proof.
  match eval vm_compute in
    (parse (lib := table_library)
       (New (fun _ => ("", false)) "test" [WithErrorHandling flag.ContinueOnError])
       (mkWorld ∅ [])
       (pointer_to (reflect.struct_type
                      [reflect.mkStructField "LogLevel" "" reflect.go_string [("def", "debug")]])
          (Some []))
       ["-h"] "")
  with
  | Ret (?a1, ?w1, None) =>
      destruct (@Parse_help_returns_no_error table_library
                  (New (fun _ => ("", false)) "test" [WithErrorHandling flag.ContinueOnError])
                  a1 (mkWorld ∅ []) w1
                  (pointer_to (reflect.struct_type
                     [reflect.mkStructField "LogLevel" "" reflect.go_string [("def", "debug")]])
                     (Some [])))
        as [(a2 & w2 & Hreturn & _) _]
  end.
  - reflexivity.
  - vm_compute. reflexivity.
  - intros fl Hfl. vm_compute in Hfl. discriminate Hfl.
  - exists a2, w2. exact Hreturn.
Defined.

(** C8 fails as stated: on a record with a text field named [H], whose flag
    is [-h], the argument [-h] is a flag that lacks its value, and [Parse]
    returns that error under the return-error policy. *)
Lemma Parse_help_on_a_field_named_H :
  exists a' w',
    Parse (lib := table_library)
      (New (fun _ => ("", false)) "test" [WithErrorHandling flag.ContinueOnError])
      (mkWorld ∅ [])
      (pointer_to (reflect.struct_type [reflect.mkStructField "H" "" reflect.go_string []])
         (Some []))
      ["-h"]
    = returned a' w' (Some (errors_New "flag needs an argument: -h")).
Proof. eexists _, _. reflexivity. Qed.

(** ** Help mode *)

Lemma parseHelp_under_environment (a : Act) (flags : list string)
    (fn : string -> string * bool) :
  parseHelp (with_lookupEnvFunc a fn) flags = with_lookupEnvFunc (parseHelp a flags) fn.
Proof.
  induction flags as [|f flags IH]; simpl; [done|]. by case_match.
Qed.

Lemma parseValue_under_environment {lib : Library} (a : Act) (w : World)
    (kind : reflect.Kind) (t : reflect.Type_) (p : path) (flag value usage : string)
    (fn : string -> string * bool) :
  parseValue (with_lookupEnvFunc a fn) w kind t p flag value usage
  = under_environment fn (parseValue a w kind t p flag value usage).
Proof.
  unfold parseValue, parseBool, parseUint, parseUint64, parseInt, parseInt64,
    parseDuration, parseFloat64, parseStringSlice, parseIntSlice, parseURL, parseTime,
    register.
  destruct kind, t; simpl; try done; repeat (case_match; simpl; try done).
Qed.

(** In help mode a leaf is bound from its [def] annotation. *)
Lemma bind_leaf_in_help_mode {lib : Library} (a : Act) (w : World)
    (field : reflect.StructField) (p : path) (prefix : string) :
  help a = true ->
  bind_leaf a w field p prefix
  = match parseValue a w (reflect.Kind_of (reflect.Type' field)) (reflect.Type' field) p
            (flagName field prefix) (reflect.Get (reflect.Tag field) "def")
            (usage field (envVarName a field prefix) prefix) with
    | Ret (a', w', Some err) =>
        Ret (a', w', Some (Errorf (reflect.Name field +:+ " def: ") err ""))
    | r => r
    end.
Proof.
  intros Hhelp. unfold bind_leaf. rewrite Hhelp.
  destruct (lookupEnvFunc a (envVarName a field prefix)) as [value found].
  by rewrite andb_false_r.
Qed.

Lemma bind_leaf_under_environment {lib : Library} (a : Act) (w : World)
    (field : reflect.StructField) (p : path) (prefix : string)
    (fn : string -> string * bool) :
  help a = true ->
  bind_leaf (with_lookupEnvFunc a fn) w field p prefix
  = under_environment fn (bind_leaf a w field p prefix).
Proof.
  intros Hhelp. rewrite !bind_leaf_in_help_mode by done.
  change (envVarName (with_lookupEnvFunc a fn) field prefix) with (envVarName a field prefix).
  rewrite parseValue_under_environment.
  by destruct (parseValue a w _ _ p _ _ _) as [[[a1 w1] [e1|]]|pv].
Qed.

Lemma parse_fields_under_environment {lib : Library}
    (recurse : reflect.Type_ -> Act -> World -> path -> list string -> string -> Step)
    (base : path) (flags : list string) (prefix : string) (fs : list reflect.StructField)
    (fn : string -> string * bool) :
  Forall (fun sf => forall a w base prefix,
            recurse (reflect.Type' sf) (with_lookupEnvFunc a fn) w base flags prefix
            = under_environment fn (recurse (reflect.Type' sf) a w base flags prefix)) fs ->
  Forall (fun sf => forall a w base prefix,
            respects keeps_settings a w (recurse (reflect.Type' sf) a w base flags prefix)) fs ->
  forall a w, help a = true ->
    parse_fields recurse base flags prefix fs (with_lookupEnvFunc a fn) w
    = under_environment fn (parse_fields recurse base flags prefix fs a w).
Proof.
  induction fs as [|field fs IH]; intros Hrec Hkeep a w Hhelp; simpl; [done|].
  apply Forall_cons in Hrec as [Hrec1 Hrec], Hkeep as [Hkeep1 Hkeep].
  destruct (reflect.IsExported field); simpl; [|done].
  destruct field as [n pkg ft tag]; simpl in *.
  destruct (recurses ft).
  - rewrite Hrec1.
    destruct (recurse ft a w _ flags _) as [[[a1 w1] [e1|]]|pv] eqn:Hstep; simpl; try done.
    apply IH; try done. by apply Hkeep1 in Hstep as (_ & _ & _ & Hh); apply Hh.
  - rewrite bind_leaf_under_environment by done.
    destruct (bind_leaf a w _ _ prefix) as [[[a1 w1] [e1|]]|pv] eqn:Hstep; simpl; try done.
    apply IH; try done.
    apply bind_leaf_Ret in Hstep as (vt & v & f' & _ & _ & _ & -> & _). done.
Qed.

Lemma parse_struct_under_environment {lib : Library} (t : reflect.Type_)
    (flags : list string) (fn : string -> string * bool) :
  help_requested flags = true ->
  forall a w base prefix,
    parse_struct t (with_lookupEnvFunc a fn) w base flags prefix
    = under_environment fn (parse_struct t a w base flags prefix).
Proof.
  intros Hhelp. induction t as [t IH] using struct_type_induction. intros a w base prefix.
  destruct t; simpl; rewrite ?parseHelp_under_environment; try done.
  apply parse_fields_under_environment.
  - by apply IH.
  - apply Forall_forall. intros sf _ a0 w0 base0 prefix0. apply parse_struct_keeps_settings.
  - destruct (parseHelp_keeps a flags) as (_ & _ & _ & _ & ->). by rewrite Hhelp, orb_true_r.
Qed.

Lemma exit_under_environment (a : Act) (w : World) (err : option error)
    (fn : string -> string * bool) :
  exit (with_lookupEnvFunc a fn) w err = Exit_under_environment fn (exit a w err).
Proof.
  unfold exit. destruct err as [e|]; simpl; [|done]. by repeat case_match.
Qed.

(** With a help token among the arguments the walk and [Parse] come out
    the same whatever the environment-lookup function of the binder: the
    same flags registered, the same baselines stored, the same output
    written, the same result. *)
Lemma walk_under_environment {lib : Library} (a : Act) (w : World)
    (config : Config) (flags : list string) (prefix : string)
    (fn : string -> string * bool) :
  help_requested flags = true ->
  parse (with_lookupEnvFunc a fn) w config flags prefix
  = under_environment fn (parse a w config flags prefix)
  /\ Parse (with_lookupEnvFunc a fn) w config flags
     = Exit_under_environment fn (Parse a w config flags).
Proof.
  intros Hhelp.
  assert (Hwalk : forall pre,
    parse (with_lookupEnvFunc a fn) w config flags pre
    = under_environment fn (parse a w config flags pre)).
  { intros pre. unfold parse.
    destruct config as [|elem [base|]|]; rewrite ?parseHelp_under_environment; try done.
    - case_match; [done|]. by apply parse_struct_under_environment.
    - by case_match. }
  split; [apply Hwalk|].
  unfold Parse. rewrite Hwalk.
  destruct (parse a w config flags "")
    as [[[a1 w1] [e1|]]|pv]; cbn [under_environment Exit_under_environment]; try done.
  - apply exit_under_environment.
  - change (flagSet (with_lookupEnvFunc a1 fn)) with (flagSet a1).
    destruct (flag.Parse (flagSet a1) w1 flags) as [[[f2 w2] e2]|pv]; [|done].
    apply (exit_under_environment (with_flagSet a1 f2)).
Qed.

(** ** Derived names *)

Lemma alike_refl (s : string) : alike s s.
Proof. induction s; constructor; [by left|done]. Qed.

Lemma alike_app (s1 s2 t1 t2 : string) :
  alike s1 s2 -> alike t1 t2 -> alike (s1 +:+ t1) (s2 +:+ t2).
Proof. induction 1; simpl; [done|]. intros. by constructor; auto. Qed.

Lemma alike_bytes_classes (c1 c2 : ascii) :
  alike_bytes c1 c2 ->
  strcase.isCap c1 = strcase.isCap c2 /\ strcase.isLow c1 = strcase.isLow c2
  /\ strcase.isNum c1 = strcase.isNum c2 /\ strcase.isSpace c1 = strcase.isSpace c2
  /\ strcase.isSeparator c1 = strcase.isSeparator c2
  /\ (strcase.isSeparator c1 = false -> c1 = c2).
Proof.
  intros [->|[[-> | ->] [-> | ->]]]; repeat split; try done.
Qed.

(** [ToScreamingDelimited] reads a hyphen and an underscore alike. *)
Lemma delimit_alike (delimiter : ascii) (screaming : bool) (s1 s2 : string) :
  alike s1 s2 ->
  forall prev1 prev2,
    match prev1, prev2 with
    | Some p1, Some p2 => alike_bytes p1 p2
    | None, None => True
    | _, _ => False
    end ->
    strcase.delimit delimiter EmptyString screaming prev1 s1
    = strcase.delimit delimiter EmptyString screaming prev2 s2.
Proof.
  induction 1 as [|c1 c2 s1 s2 Hc Hs IH]; intros prev1 prev2 Hprev; [done|].
  cbn [strcase.delimit].
  rewrite (IH (Some c1) (Some c2) Hc).
  destruct (alike_bytes_classes c1 c2 Hc) as (Hcap & Hlow & Hnum & _ & Hsep & Heq).
  assert (Hprevcap : match prev1 with Some p => strcase.isCap p | None => false end
                     = match prev2 with Some p => strcase.isCap p | None => false end).
  { destruct prev1 as [p1|], prev2 as [p2|]; try done.
    by destruct (alike_bytes_classes p1 p2 Hprev) as (-> & _). }
  assert (Hnext : match s1 with String n _ => Some (strcase.isCap n, strcase.isLow n, strcase.isNum n) | EmptyString => None end
                  = match s2 with String n _ => Some (strcase.isCap n, strcase.isLow n, strcase.isNum n) | EmptyString => None end).
  { destruct Hs as [|n1 n2 ? ? Hn _]; [done|].
    by destruct (alike_bytes_classes n1 n2 Hn) as (-> & -> & -> & _). }
  destruct (strcase.isSeparator c1) eqn:Hsep1; symmetry in Hsep.
  - (* both are separators: neither a letter nor a digit *)
    assert (Hclass : forall c, strcase.isSeparator c = true ->
              strcase.isCap c = false /\ strcase.isLow c = false /\ strcase.isNum c = false).
    { intros c Hc'. unfold strcase.isSeparator in Hc'.
      repeat (apply orb_true_iff in Hc' as [Hc'|Hc']);
        apply Ascii.eqb_eq in Hc' as ->; done. }
    destruct (Hclass c1 Hsep1) as (Hc1 & Hl1 & Hn1).
    destruct (Hclass c2 Hsep) as (Hc2 & Hl2 & Hn2).
    rewrite Hc1, Hl1, Hc2, Hl2. simpl. rewrite Hn1, Hn2, Hsep1, Hsep. simpl.
    by destruct s1, s2.
  - rewrite (Heq eq_refl) in *. rewrite Hprevcap.
    destruct s1 as [|n1 s1], s2 as [|n2 s2]; try done. by injection Hnext as -> -> ->.
Qed.

Lemma isSpace2_alike (a1 a2 b1 b2 : ascii) :
  alike_bytes a1 a2 -> alike_bytes b1 b2 -> strcase.isSpace2 a1 b1 = strcase.isSpace2 a2 b2.
Proof.
  unfold strcase.isSpace2.
  intros [->|[[-> | ->] [-> | ->]]] [->|[[-> | ->] [-> | ->]]]; try done;
    cbn; by rewrite ?andb_false_r.
Qed.

Lemma isSpace3_alike (a1 a2 b1 b2 c1 c2 : ascii) :
  alike_bytes a1 a2 -> alike_bytes b1 b2 -> alike_bytes c1 c2 ->
  strcase.isSpace3 a1 b1 c1 = strcase.isSpace3 a2 b2 c2.
Proof.
  assert (Hhigh : forall a b c, strcase.isSpace3 a b c = true ->
            (128 <= N_of_ascii a /\ 128 <= N_of_ascii b /\ 128 <= N_of_ascii c)%N).
  { intros a b c. unfold strcase.isSpace3. cbv zeta.
    rewrite !orb_true_iff, !andb_true_iff, !orb_true_iff, !andb_true_iff, !N.eqb_eq,
      !N.leb_le. lia. }
  assert (Hsame : forall x y, alike_bytes x y -> (128 <= N_of_ascii x)%N -> x = y).
  { intros x y [->|[[-> | ->] _]] Hx; [done| |]; vm_compute in Hx; by destruct Hx. }
  assert (Hswap : forall x y, alike_bytes x y -> alike_bytes y x).
  { intros x y [->|[? ?]]; [by left|by right]. }
  intros Ha Hb Hc.
  destruct (strcase.isSpace3 a1 b1 c1) eqn:H1.
  - destruct (Hhigh _ _ _ H1) as (? & ? & ?).
    by rewrite <- (Hsame a1 a2), <- (Hsame b1 b2), <- (Hsame c1 c2).
  - destruct (strcase.isSpace3 a2 b2 c2) eqn:H2; [|done].
    destruct (Hhigh _ _ _ H2) as (? & ? & ?).
    rewrite <- (Hsame a2 a1), <- (Hsame b2 b1), <- (Hsame c2 c1) in H1 by auto. congruence.
Qed.

Lemma trimRunes_alike (space1 : ascii -> bool) (space2 : ascii -> ascii -> bool)
    (space3 : ascii -> ascii -> ascii -> bool) :
  (forall a1 a2, alike_bytes a1 a2 -> space1 a1 = space1 a2) ->
  (forall a1 a2 b1 b2, alike_bytes a1 a2 -> alike_bytes b1 b2 -> space2 a1 b1 = space2 a2 b2) ->
  (forall a1 a2 b1 b2 c1 c2, alike_bytes a1 a2 -> alike_bytes b1 b2 -> alike_bytes c1 c2 ->
     space3 a1 b1 c1 = space3 a2 b2 c2) ->
  forall n s1 s2, (String.length s1 <= n)%nat -> alike s1 s2 ->
    alike (strcase.trimRunes space1 space2 space3 s1)
      (strcase.trimRunes space1 space2 space3 s2).
Proof.
  intros H1 H2 H3. induction n as [|n IH]; intros s1 s2 Hlen Hs.
  { destruct Hs; [constructor|simpl in Hlen; lia]. }
  destruct Hs as [|a1 a2 s1 s2 Ha Hs]; [constructor|]. simpl in Hlen.
  cbn [strcase.trimRunes]. rewrite <- (H1 a1 a2 Ha).
  destruct (space1 a1); [apply IH; [lia|done]|].
  destruct Hs as [|b1 b2 s1 s2 Hb Hs]; [by constructor; [|constructor]|]. simpl in Hlen.
  rewrite <- (H2 a1 a2 b1 b2 Ha Hb).
  destruct (space2 a1 b1); [apply IH; [lia|done]|].
  destruct Hs as [|c1 c2 s1 s2 Hc Hs]; [by constructor; [|constructor; [|constructor]]|].
  simpl in Hlen.
  rewrite <- (H3 a1 a2 b1 b2 c1 c2 Ha Hb Hc).
  destruct (space3 a1 b1 c1); [apply IH; [lia|done]|].
  by constructor; [|constructor; [|constructor]].
Qed.

Lemma reverse_onto_alike (s1 s2 : string) :
  alike s1 s2 -> forall acc1 acc2, alike acc1 acc2 ->
  alike (strcase.reverse_onto s1 acc1) (strcase.reverse_onto s2 acc2).
Proof.
  induction 1 as [|c1 c2 s1 s2 Hc Hs IH]; intros acc1 acc2 Hacc; [done|].
  simpl. apply IH. by constructor.
Qed.

Lemma TrimLeft_alike (s1 s2 : string) :
  alike s1 s2 -> alike (strcase.TrimLeft s1) (strcase.TrimLeft s2).
Proof.
  intros Hs. unfold strcase.TrimLeft.
  apply (trimRunes_alike _ _ _) with (n := String.length s1); try done.
  - intros a1 a2 Ha. by destruct (alike_bytes_classes a1 a2 Ha) as (_ & _ & _ & ? & _).
  - apply isSpace2_alike.
  - apply isSpace3_alike.
Qed.

Lemma TrimRight_alike (s1 s2 : string) :
  alike s1 s2 -> alike (strcase.TrimRight s1) (strcase.TrimRight s2).
Proof.
  intros Hs. unfold strcase.TrimRight, strcase.reverse.
  apply reverse_onto_alike; [|constructor].
  apply (trimRunes_alike _ _ _) with (n := String.length (strcase.reverse_onto s1 ""));
    try done.
  - intros a1 a2 Ha. by destruct (alike_bytes_classes a1 a2 Ha) as (_ & _ & _ & ? & _).
  - intros a1 a2 b1 b2 Ha Hb. by apply isSpace2_alike.
  - intros a1 a2 b1 b2 c1 c2 Ha Hb Hc. by apply isSpace3_alike.
  - apply reverse_onto_alike; [done|constructor].
Qed.

Lemma ToScreamingSnake_alike (s1 s2 : string) :
  alike s1 s2 -> strcase.ToScreamingSnake s1 = strcase.ToScreamingSnake s2.
Proof.
  intros Hs. unfold strcase.ToScreamingSnake, strcase.ToScreamingDelimited, strcase.TrimSpace.
  apply delimit_alike; [|done]. by apply TrimRight_alike, TrimLeft_alike.
Qed.

(** White space that UTF-8 writes in more than one byte is trimmed as well:
    a command name that starts with a no-break space, U+00A0, and ends with
    a hair space, U+200A. *)
Example envVarName_trims_unicode_white_space :
  envVarName
    (New empty_environment
       (String (ascii_of_N 194) (String (ascii_of_N 160) "cool")) [])
    (reflect.mkStructField "Port" "" reflect.go_int []) ""
  = "COOL_PORT"
  /\ strcase.TrimSpace
       (String (ascii_of_N 194)
          (String (ascii_of_N 160)
             ("cool" +:+ String (ascii_of_N 226)
                           (String (ascii_of_N 128) (String (ascii_of_N 138) "")))))
     = "cool".
Proof. split; reflexivity. Qed.

Lemma Join_cons (sep e : string) (rest : list string) :
  rest <> [] -> strings.Join (e :: rest) sep = e +:+ sep +:+ strings.Join rest sep.
Proof. by destruct rest. Qed.

Lemma append_assoc (s1 s2 s3 : string) : (s1 +:+ s2) +:+ s3 = s1 +:+ s2 +:+ s3.
Proof.
  induction s1 as [|c s1 IH]; [done|].
  change (String c ((s1 +:+ s2) +:+ s3) = String c (s1 +:+ s2 +:+ s3)). by rewrite IH.
Qed.

Lemma append_empty_r (s : string) : s +:+ EmptyString = s.
Proof.
  induction s as [|c s IH]; [done|].
  change (String c (s +:+ EmptyString) = String c s). by rewrite IH.
Qed.

Lemma Join_snoc (sep e : string) (parents : list string) :
  parents <> [] ->
  strings.Join (parents ++ [e]) sep = strings.Join parents sep +:+ sep +:+ e.
Proof.
  induction parents as [|n parents IH]; [done|]. intros _.
  destruct parents as [|n' parents]; [done|].
  change ((n :: n' :: parents) ++ [e]) with (n :: ((n' :: parents) ++ [e])).
  rewrite (Join_cons sep n ((n' :: parents) ++ [e])) by done.
  rewrite IH by done. rewrite (Join_cons sep n (n' :: parents)) by done.
  by rewrite !append_assoc.
Qed.

Lemma Join_alike (l : list string) : alike (strings.Join l "-") (strings.Join l "_").
Proof.
  induction l as [|e l IH]; [constructor|].
  destruct l as [|e' l]; [apply alike_refl|].
  rewrite !Join_cons by done.
  apply alike_app; [apply alike_refl|]. apply alike_app; [|done].
  constructor; [|constructor]. right. auto.
Qed.

Lemma Join_nonempty (sep : string) (l : list string) :
  l <> [] -> Forall (fun n => n <> EmptyString) l -> strings.Join l sep <> EmptyString.
Proof.
  destruct l as [|e l]; [done|]. intros _ Hl. apply Forall_cons in Hl as [He _].
  destruct l; [done|]. rewrite Join_cons by done. by destruct e.
Qed.

Lemma find_field_Name (fields : list reflect.StructField) (n : string)
    (field : reflect.StructField) :
  find_field fields n = Some field -> reflect.Name field = n /\ field ∈ fields.
Proof.
  induction fields as [|f fields IH]; simpl; [done|].
  case_bool_decide.
  - intros [= <-]. split; [done|]. apply elem_of_cons; auto.
  - intros Hf. destruct (IH Hf). split; [done|]. apply elem_of_cons; auto.
Qed.

(** The prefix [parse] passes down is the hyphen-joined path of the parents. *)
Lemma find_leaf_path (p : path) :
  forall fields parents field prefix,
    Forall (fun n => n <> EmptyString) (parents ++ p) ->
    find_leaf fields p (strings.Join parents "-") = Some (field, prefix) ->
    exists above, p = above ++ [reflect.Name field]
                  /\ prefix = strings.Join (parents ++ above) "-".
Proof.
  induction p as [|n rest IH]; intros fields parents field prefix Hnames; simpl; [done|].
  destruct (find_field fields n) as [f|] eqn:Hf; [|done].
  apply find_field_Name in Hf as [Hn _].
  destruct (recurses (reflect.Type' f)).
  - destruct (reflect.Type' f) as [| | | | | | | | | | | |fs|k]; try done.
    assert (Hpre : newPrefix f (strings.Join parents "-") = strings.Join (parents ++ [n]) "-").
    { unfold newPrefix. rewrite Hn. destruct parents as [|q parents]; [done|].
      rewrite bool_decide_eq_false_2; simpl negb; cbv iota.
      - by rewrite Join_snoc.
      - apply Join_nonempty; [done|]. by apply Forall_app in Hnames as [? _]. }
    rewrite Hpre. intros Hleaf.
    apply IH in Hleaf as (above & -> & ->); [|by rewrite <- app_assoc].
    exists (n :: above). by rewrite <- app_assoc.
  - destruct rest; [|done]. intros [= <- <-]. exists []. by rewrite Hn, app_nil_r.
Qed.

(** For a leaf field without [flag] and [env] annotations at the end of the
    field path [p], the names [flagName] and [envVarName] derive from the
    prefix built along the path are functions of the path and of the command
    name alone. *)
Lemma names_of_field_path (a : Act) (fields : list reflect.StructField) (p : path)
    (field : reflect.StructField) (prefix : string) :
  Forall (fun n => n <> EmptyString) p ->
  find_leaf fields p EmptyString = Some (field, prefix) ->
  reflect.Get (reflect.Tag field) "flag" = EmptyString ->
  reflect.Get (reflect.Tag field) "env" = EmptyString ->
  flagName field prefix = strcase.ToKebab (strings.Join p "-")
  /\ envVarName a field prefix = strcase.ToScreamingSnake (strings.Join (name a :: p) "_").
Proof.
  intros Hnames Hleaf Hflag Henv.
  destruct (find_leaf_path p fields [] field prefix Hnames Hleaf) as (above & -> & ->).
  simpl app. unfold flagName, envVarName. rewrite Hflag, Henv.
  rewrite !(bool_decide_eq_true_2 (EmptyString = EmptyString)) by done. cbn [negb].
  destruct above as [|n above].
  - split; reflexivity.
  - assert (Hne : strings.Join (n :: above) "-" <> EmptyString).
    { apply Join_nonempty; [done|]. by apply Forall_app in Hnames as [? _]. }
    rewrite !(bool_decide_eq_false_2 _ Hne). cbn [negb].
    split.
    + by rewrite Join_snoc.
    + apply ToScreamingSnake_alike.
      rewrite (Join_cons "_" (name a)) by (by destruct above).
      rewrite (Join_snoc "_") by done.
      repeat (apply alike_app; [apply alike_refl|]).
      apply alike_app; [apply Join_alike|apply alike_refl].
Qed.

(** The walk registers the field of the example under these names. *)
Example Mongo_Hosts_is_registered :
  exists a1 w1,
    parse (lib := table_library) (New empty_environment "cool" []) (mkWorld ∅ [])
      (pointer_to
         (reflect.struct_type
            [reflect.mkStructField "Mongo" ""
               (reflect.struct_type
                  [reflect.mkStructField "Hosts" "" reflect.act_StringSlice []]) []])
         (Some [])) [] ""
    = Ret (a1, w1, None)
    /\ flag.formal (flagSet a1) !! "mongo-hosts"
       = Some (flag.mkFlag "mongo-hosts" "mongo hosts (env COOL_MONGO_HOSTS)"
                 flag.StringSlice_pointer ["Mongo"; "Hosts"]).
Proof. eexists _, _. split; [reflexivity|]. vm_compute. reflexivity. Qed.

(** ** Precedence: environment over default *)

Lemma touches_only_refl (S : path -> Prop) (x : Act * World) : touches_only S x x.
Proof. repeat split; auto. Qed.

Lemma touches_only_trans (S : path -> Prop) (x y z : Act * World) :
  touches_only S x y -> touches_only S y z -> touches_only S x z.
Proof.
  intros (Hm1 & Hn1 & Ho1) (Hm2 & Hn2 & Ho2). repeat split.
  - intros q Hq. by rewrite Hm2, Hm1.
  - intros n fl Hz. destruct (Hn2 n fl Hz) as [Hy|?]; [|by right]. by apply Hn1.
  - intros n fl Hx. by apply Ho2, Ho1.
Qed.

Lemma touches_only_mono (S S' : path -> Prop) (x y : Act * World) :
  (forall q, S q -> S' q) -> touches_only S x y -> touches_only S' x y.
Proof.
  intros HS (Hm & Hn & Ho). repeat split; [|intros n fl Hy|done].
  - intros q Hq. apply Hm. naive_solver.
  - destruct (Hn n fl Hy); auto.
Qed.

Lemma parseHelp_touches_nothing (S : path -> Prop) (a : Act) (w : World)
    (flags : list string) :
  touches_only S (a, w) (parseHelp a flags, w).
Proof.
  destruct (parseHelp_keeps a flags) as (Hfs & _). unfold touches_only. simpl.
  rewrite Hfs. repeat split; auto.
Qed.

(** Binding a leaf touches its own variable only. *)
Lemma bind_leaf_touches_only {lib : Library} (a : Act) (w : World)
    (field : reflect.StructField) (p : path) (prefix : string) :
  respects (touches_only (fun q => q = p)) a w (bind_leaf a w field p prefix).
Proof.
  intros a' w' e Hret. apply bind_leaf_Ret in Hret. destruct e as [err|].
  - destruct Hret as (-> & ->). apply touches_only_refl.
  - destruct Hret as (vt & v & f' & _ & _ & Hvar & -> & ->).
    apply Var_Ret in Hvar as (Hfresh & ->). repeat split; simpl.
    + intros q Hq. by rewrite lookup_insert_ne.
    + intros n fl. rewrite lookup_insert. case_decide as Hn.
      * intros [= <-]. by right.
      * by left.
    + intros n fl Hold. rewrite lookup_insert_ne; [done|]. intros <-. congruence.
Qed.

(** The walk over a struct touches only the variables below it. *)
Lemma parse_struct_touches_only {lib : Library} (t : reflect.Type_) (flags : list string) :
  forall a w base prefix,
    respects (touches_only (fun q => base `prefix_of` q)) a w
      (parse_struct t a w base flags prefix).
Proof.
  induction t as [t IH] using struct_type_induction. intros a w base prefix a' w' e.
  destruct t; simpl; try (intros [= <- <- <-]; apply parseHelp_touches_nothing).
  specialize (IH fields eq_refl). intros Hrun.
  eapply touches_only_trans; [apply (parseHelp_touches_nothing _ a w flags)|].
  eapply (parse_fields_respects (touches_only (fun q => base `prefix_of` q)));
    [apply touches_only_refl|apply touches_only_trans| | |exact Hrun].
  - intros a0 w0 field _ a1 w1 e1 Hleaf.
    eapply touches_only_mono; [|by eapply bind_leaf_touches_only].
    intros q ->. by apply prefix_app_r.
  - intros a0 w0 field Hin _ a1 w1 e1 Hrec. rewrite Forall_forall in IH.
    eapply touches_only_mono; [|by eapply IH].
    intros q Hq. etrans; [|exact Hq]. by apply prefix_app_r.
Qed.

Lemma parse_fields_touches_only {lib : Library} (fs : list reflect.StructField)
    (base : path) (flags : list string) (prefix : string) (a : Act) (w : World) :
  respects
    (touches_only (fun q => exists f, f ∈ fs /\ (base ++ [reflect.Name f]) `prefix_of` q))
    a w (parse_fields parse_struct base flags prefix fs a w).
Proof.
  apply parse_fields_respects; [apply touches_only_refl|apply touches_only_trans| |].
  - intros a0 w0 field Hin a1 w1 e1 Hleaf.
    eapply touches_only_mono; [|by eapply bind_leaf_touches_only].
    intros q ->. by exists field.
  - intros a0 w0 field Hin _ a1 w1 e1 Hrec.
    eapply touches_only_mono; [|by eapply parse_struct_touches_only].
    intros q Hq. by exists field.
Qed.

Lemma bind_leaf_same_settings {lib : Library} (a : Act) (w : World)
    (field : reflect.StructField) (p : path) (prefix : string) :
  respects same_settings a w (bind_leaf a w field p prefix).
Proof.
  intros a' w' e Hret. apply bind_leaf_Ret in Hret. destruct e as [err|].
  - by destruct Hret as (-> & ->).
  - by destruct Hret as (vt & v & f' & _ & _ & _ & -> & _).
Qed.

Lemma parse_struct_same_settings {lib : Library} (t : reflect.Type_) (a : Act) (w : World)
    (base : path) (flags : list string) (prefix : string) :
  help_requested flags = false ->
  respects same_settings a w (parse_struct t a w base flags prefix).
Proof.
  intros Hhelp. apply parse_struct_respects.
  - by intros [a0 w0].
  - intros x y z (? & ? & ?) (? & ? & ?). unfold same_settings. intuition congruence.
  - intros a0 w0. destruct (parseHelp_keeps a0 flags) as (? & ? & ? & ? & Hh).
    repeat split; try done. simpl. by rewrite Hh, Hhelp, orb_false_r.
  - intros. apply bind_leaf_same_settings.
Qed.

Lemma baseline_text_same_settings (a a' : Act) (w w' : World) (field : reflect.StructField)
    (prefix : string) :
  same_settings (a, w) (a', w') -> baseline_text a' field prefix = baseline_text a field prefix.
Proof.
  intros (Hl & Hn & Hh). simpl in *. unfold baseline_text, envVarName.
  by rewrite Hl, Hn, Hh.
Qed.

(** Once the help tokens have been seen, the walk leaves the settings of
    the binder as they are. *)
Lemma walk_same_settings {lib : Library} (t : reflect.Type_) (a : Act) (w : World)
    (base : path) (flags : list string) (prefix : string) :
  help a = true \/ help_requested flags = false ->
  respects same_settings a w (parse_struct t a w base flags prefix).
Proof.
  intros [Hhelp|Hnone]; [|by apply parse_struct_same_settings].
  intros a1 w1 e Hrun. apply parse_struct_keeps_settings in Hrun as (? & ? & _ & Hmark).
  repeat split; try done. cbn [fst] in *. by rewrite Hhelp, Hmark.
Qed.

Lemma same_settings_seen (flags : list string) (a a' : Act) (w w' : World) :
  same_settings (a, w) (a', w') ->
  help a = true \/ help_requested flags = false ->
  help a' = true \/ help_requested flags = false.
Proof. intros (_ & _ & Hhelp) [?|?]; [left|by right]. cbn [fst] in Hhelp. congruence. Qed.

Lemma same_settings_trans (x y z : Act * World) :
  same_settings x y -> same_settings y z -> same_settings x z.
Proof. intros (? & ? & ?) (? & ? & ?). unfold same_settings. intuition congruence. Qed.

Lemma same_settings_sym (x y : Act * World) : same_settings x y -> same_settings y x.
Proof. intros (? & ? & ?). by repeat split. Qed.

(** A later step that does not touch [q] keeps the leaf bound. *)
Lemma bound_at_after {lib : Library} (S : path -> Prop) (a0 a1 a2 : Act) (w1 w2 : World)
    (q : path) (field : reflect.StructField) (flagname text : string) :
  ~ S q -> touches_only S (a1, w1) (a2, w2) ->
  bound_at a0 a1 w1 q field flagname text -> bound_at a0 a2 w2 q field flagname text.
Proof.
  intros Hq (Hm & Hn & Ho) (v & vt & u & Hv & Hmem & Hflag & Hunique).
  simpl in Hm, Hn, Ho. exists v, vt, u. repeat split; try done.
  - by rewrite (Hm q Hq).
  - by apply Ho.
  - intros n fl Hfl Hptr. destruct (Hn n fl Hfl) as [Hold|HS]; [by apply Hunique|].
    simpl in HS. by rewrite Hptr in HS.
Qed.

(** An earlier step that does not touch [q] may be put in front. *)
Lemma bound_at_before {lib : Library} (S : path -> Prop) (a0 a1 a2 : Act) (w0 w1 w2 : World)
    (q : path) (field : reflect.StructField) (flagname text : string) :
  ~ S q -> touches_only S (a0, w0) (a1, w1) ->
  bound_at a1 a2 w2 q field flagname text -> bound_at a0 a2 w2 q field flagname text.
Proof.
  intros Hq (Hm & Hn & Ho) (v & vt & u & Hv & Hmem & Hflag & Hunique).
  simpl in Hm, Hn, Ho. exists v, vt, u. repeat split; try done.
  intros n fl Hfl Hptr. destruct (Hunique n fl Hfl Hptr) as [?|Hold]; [by left|].
  destruct (Hn n fl Hold) as [?|HS]; [by right|]. simpl in HS. by rewrite Hptr in HS.
Qed.

Lemma prefix_of_sibling (base : path) (n n' : string) (rest : path) :
  (base ++ [n']) `prefix_of` (base ++ n :: rest) -> n' = n.
Proof.
  intros [k Hk]. rewrite <- app_assoc in Hk. apply app_inv_head in Hk. by injection Hk.
Qed.

(** One turn of the loop of [parse]: what it touches and what it keeps. *)
Lemma field_step_frame {lib : Library} (field : reflect.StructField) (a : Act) (w : World)
    (base : path) (flags : list string) (prefix : string) :
  help_requested flags = false ->
  let r := if recurses (reflect.Type' field)
           then parse_struct (reflect.Type' field) a w (base ++ [reflect.Name field]) flags
                  (newPrefix field prefix)
           else bind_leaf a w field (base ++ [reflect.Name field]) prefix in
  respects (touches_only (fun q => (base ++ [reflect.Name field]) `prefix_of` q)) a w r
  /\ respects same_settings a w r.
Proof.
  intros Hhelp r. unfold r. destruct (recurses (reflect.Type' field)); split.
  - apply parse_struct_touches_only.
  - by apply parse_struct_same_settings.
  - intros a' w' e Hleaf. eapply touches_only_mono; [|by eapply bind_leaf_touches_only].
    by intros q ->.
  - apply bind_leaf_same_settings.
Qed.

Lemma parse_fields_cons {lib : Library} (field : reflect.StructField)
    (fs : list reflect.StructField) (a : Act) (w : World) (base : path)
    (flags : list string) (prefix : string) :
  reflect.IsExported field = true ->
  parse_fields parse_struct base flags prefix (field :: fs) a w
  = match (if recurses (reflect.Type' field)
           then parse_struct (reflect.Type' field) a w (base ++ [reflect.Name field]) flags
                  (newPrefix field prefix)
           else bind_leaf a w field (base ++ [reflect.Name field]) prefix) with
    | Ret (a', w', None) => parse_fields parse_struct base flags prefix fs a' w'
    | r => r
    end.
Proof.
  intros Hexp. cbn [parse_fields]. rewrite Hexp. cbn [negb]. cbv zeta.
  destruct field as [n pkg ft tag]. cbn [reflect.Type'].
  by destruct (if recurses ft then _ else _) as [[[a' w'] [e'|]]|pv].
Qed.

(** The walk binds the leaf at the end of a field path: when the walk over
    the fields of the struct at [base] succeeds, the variable of the leaf
    holds the baseline of its text and its flag points to it. *)
Lemma parse_fields_binds_leaf {lib : Library} (flags : list string) (p : path) :
  help_requested flags = false ->
  forall fields base prefix a w a1 w1 field pre,
    distinct_along fields p ->
    find_leaf fields p prefix = Some (field, pre) ->
    parse_fields parse_struct base flags prefix fields a w = Ret (a1, w1, None) ->
    bound_at a a1 w1 (base ++ p) field (flagName field pre) (baseline_text a field pre).
Proof.
  intros Hhelp. induction p as [|n rest IHp]; [done|].
  intros fields. induction fields as [|field0 fields IHf];
    intros base prefix a w a1 w1 field pre Hdist Hleaf Hrun; [done|].
  destruct Hdist as [Hnodup Hdist]. rewrite fmap_cons in Hnodup.
  apply NoDup_cons in Hnodup as [Hfresh Hnodup].
  cbn [find_leaf find_field] in Hleaf, Hdist.
  destruct (reflect.IsExported field0) eqn:Hexp; [|by cbn [parse_fields] in Hrun; rewrite Hexp in Hrun].
  rewrite parse_fields_cons in Hrun by done.
  destruct (field_step_frame field0 a w base flags prefix Hhelp) as [Htouch Hsame].
  destruct (if recurses (reflect.Type' field0) then _ else _)
    as [[[a' w'] [e'|]]|pv] eqn:Hstep; try done.
  specialize (Htouch a' w' None eq_refl). specialize (Hsame a' w' None eq_refl).
  case_bool_decide as Hname.
  - (* the path goes through this field *)
    eapply (bound_at_after
              (fun q => exists f, f ∈ fields /\ (base ++ [reflect.Name f]) `prefix_of` q));
      [|by eapply parse_fields_touches_only|].
    { intros (f & Hin & Hpre). apply prefix_of_sibling in Hpre. apply Hfresh.
      rewrite Hname, <- Hpre. by apply list_elem_of_fmap_2. }
    destruct (recurses (reflect.Type' field0)) eqn:Hrec.
    + destruct (reflect.Type' field0) as [| | | | | | | | | | | |fs'|k] eqn:Hft; try done.
      cbn [parse_struct] in Hstep. rewrite Hname in Hstep.
      eapply IHp in Hstep; [|done|done].
      destruct (parseHelp_keeps a flags) as (Hfs & Hl & Hn & _ & Hh).
      rewrite Hhelp, orb_false_r in Hh.
      rewrite (baseline_text_same_settings a (parseHelp a flags) w w) in Hstep
        by (by repeat split).
      rewrite <- app_assoc in Hstep.
      destruct Hstep as (v & vt & u & ? & ? & ? & Hunique). exists v, vt, u.
      repeat split; try done. intros n1 fl Hfl Hptr. rewrite <- Hfs. by apply Hunique.
    + destruct rest; [|done]. injection Hleaf as <- <-.
      apply bind_leaf_Ret in Hstep as (vt & v & f' & _ & Hv & Hvar & -> & ->).
      apply Var_Ret in Hvar as (_ & ->). rewrite Hname.
      eexists v, vt, _. repeat split; try done.
      * apply lookup_insert_eq.
      * apply lookup_insert_eq.
      * intros n1 fl. simpl. rewrite lookup_insert. case_decide; [by left|by right].
  - (* the path goes through a later field *)
    eapply (bound_at_before (fun q => (base ++ [reflect.Name field0]) `prefix_of` q)
              a a' a1 w w' w1); [|done|].
    { intros Hpre. by apply prefix_of_sibling in Hpre. }
    rewrite <- (baseline_text_same_settings a a' w w') by done.
    eapply IHf; [|exact Hleaf|exact Hrun]. by split.
Qed.

(** *** The flags on the command line *)

Lemma Value_Set_returns {lib : Library} (vt : flag.ValueType) (cur : option Value)
    (s : string) :
  exists v err, flag.Value_Set vt cur s = Ret (v, err).
Proof.
  unfold flag.Value_Set, StringSlice_Set, IntSlice_Set, URL_Set, Time_Set.
  destruct vt; repeat case_match; simplify_eq; eauto.
Qed.

Lemma set_flag_Ret {lib : Library} (w : World) (fl : flag.Flag) (value : string) :
  exists v err,
    flag.set_flag w fl value = Ret (store w (flag.Value_pointer fl) v, err).
Proof.
  unfold flag.set_flag.
  destruct (Value_Set_returns (flag.Value_type fl) (memory w !! flag.Value_pointer fl) value)
    as (v & err & ->).
  eauto.
Qed.

(** [f.Parse] always returns, and it leaves alone every variable that no
    flag named on the command line points to. *)
Lemma flag_Parse_frame {lib : Library} (flagname : string) (q : path) (k : nat) :
  forall args f w,
    (length args <= k)%nat ->
    (forall tok, tok ∈ args -> forall v h, flag.classify tok <> flag.named flagname v h) ->
    (forall n fl, flag.formal f !! n = Some fl -> flag.Value_pointer fl = q -> n = flagname) ->
    exists f' w' e,
      flag.Parse f w args = Ret (f', w', e) /\ memory w' !! q = memory w !! q.
Proof.
  induction k as [|k IH]; intros args f w Hlen Hargs Hptr.
  { destruct args; [|simpl in Hlen; lia]. by eexists _, _, _. }
  destruct args as [|s args]; [by eexists _, _, _|].
  simpl in Hlen. cbn [flag.Parse].
  assert (Hs : forall v h, flag.classify s <> flag.named flagname v h).
  { apply Hargs. apply elem_of_cons; auto. }
  assert (Hrest : forall tok, tok ∈ args ->
            forall v h, flag.classify tok <> flag.named flagname v h).
  { intros tok Hin. apply Hargs. apply elem_of_cons; auto. }
  destruct (flag.classify s) as [| | |name value hasValue]; try (by eexists _, _, _).
  assert (Hname : name <> flagname) by (intros ->; by eapply Hs).
  destruct (flag.formal f !! name) as [fl|] eqn:Hfl.
  - assert (Hq : flag.Value_pointer fl <> q) by (intros Hq'; by apply Hname, (Hptr name fl)).
    assert (Hnext : forall args' w1,
              (length args' <= k)%nat ->
              (forall tok, tok ∈ args' ->
                 forall v h, flag.classify tok <> flag.named flagname v h) ->
              memory w1 !! q = memory w !! q ->
              exists f' w' e,
                flag.Parse (flag.record_actual f fl) w1 args' = Ret (f', w', e)
                /\ memory w' !! q = memory w !! q).
    { intros args' w1 Hlen' Hargs' Hw1.
      destruct (IH args' (flag.record_actual f fl) w1 Hlen' Hargs' Hptr)
        as (f' & w' & e & HP & Hm).
      exists f', w', e. split; [done|]. by rewrite Hm. }
    destruct (flag.IsBoolFlag (flag.Value_type fl)).
    + destruct (set_flag_Ret w fl (if hasValue then value else "true")) as (v & err & ->).
      destruct err as [err|].
      * eexists _, _, _. split; [reflexivity|]. simpl. by rewrite lookup_insert_ne.
      * apply Hnext; [lia|done|]. simpl. by rewrite lookup_insert_ne.
    + destruct hasValue.
      * destruct (set_flag_Ret w fl value) as (v & err & ->). destruct err as [err|].
        -- eexists _, _, _. split; [reflexivity|]. simpl. by rewrite lookup_insert_ne.
        -- apply Hnext; [lia|done|]. simpl. by rewrite lookup_insert_ne.
      * destruct args as [|next args'].
        -- eexists _, _, _. split; [reflexivity|done].
        -- destruct (set_flag_Ret w fl next) as (v & err & ->). destruct err as [err|].
           ++ eexists _, _, _. split; [reflexivity|]. simpl. by rewrite lookup_insert_ne.
           ++ apply Hnext; [simpl in Hlen; lia| |simpl; by rewrite lookup_insert_ne].
              intros tok Hin. apply Hrest. apply elem_of_cons; auto.
  - case_match; eexists _, _, _; (split; [reflexivity|done]).
Qed.

(** *** A new binder *)

Lemma New_is_fresh (LookupEnv : string -> string * bool) (nm : string) (opts : list Option) :
  flag.formal (flagSet (New LookupEnv nm opts)) = ∅
  /\ help (New LookupEnv nm opts) = false
  /\ name (New LookupEnv nm opts) = nm.
Proof.
  unfold New.
  assert (H0 : forall a, flag.formal (flagSet a) = ∅ /\ help a = false /\ name a = nm ->
             flag.formal (flagSet (fold_left (fun a opt => apply_Option opt a) opts a)) = ∅
             /\ help (fold_left (fun a opt => apply_Option opt a) opts a) = false
             /\ name (fold_left (fun a opt => apply_Option opt a) opts a) = nm).
  { induction opts as [|opt opts IH]; intros a Ha; [done|].
    simpl. apply IH. by destruct opt. }
  by apply H0.
Qed.

Lemma exit_final_world (a : Act) (w wf : World) (err : option error) :
  final_world (exit a w err) = Some wf -> memory wf = memory w.
Proof.
  unfold exit. destruct err as [e|]; simpl; [|by intros [= <-]].
  repeat case_match; simpl; intros [= <-]; done.
Qed.

(** C1, as the code has it.  Take a new binder, a record whose field walk
    succeeds, arguments without a help token, and a leaf field with the
    annotation [def:"1"] whose flag no argument names.  If the lookup of the
    field's environment name returns [("2", true)], the field's final value
    is what the text [2] denotes for its type; if the lookup reports the
    variable absent, it is what the text [1] denotes. *)
Theorem environment_overrides_default {lib : Library}
    (LookupEnv : string -> string * bool) (nm : string) (opts : list Option) (w : World)
    (fields : list reflect.StructField) (flags : list string) (p : path)
    (field : reflect.StructField) (prefix : string) (a1 : Act) (w1 : World) :
  help_requested flags = false ->
  distinct_along fields p ->
  find_leaf fields p "" = Some (field, prefix) ->
  reflect.Get (reflect.Tag field) "def" = "1" ->
  (forall tok, tok ∈ flags ->
     forall v h, flag.classify tok <> flag.named (flagName field prefix) v h) ->
  parse (New LookupEnv nm opts) w (pointer_to (reflect.struct_type fields) (Some [])) flags ""
  = Ret (a1, w1, None) ->
  (lookupEnvFunc (New LookupEnv nm opts) (envVarName (New LookupEnv nm opts) field prefix)
   = ("2", true) ->
   exists v, baseline_value (reflect.Type' field) "2" = Some v
             /\ field_ends_as (New LookupEnv nm opts) a1 w w1
                  (pointer_to (reflect.struct_type fields) (Some [])) flags p v)
  /\ (forall value,
        lookupEnvFunc (New LookupEnv nm opts) (envVarName (New LookupEnv nm opts) field prefix)
        = (value, false) ->
        exists v, baseline_value (reflect.Type' field) "1" = Some v
                  /\ field_ends_as (New LookupEnv nm opts) a1 w w1
                       (pointer_to (reflect.struct_type fields) (Some [])) flags p v).
Proof.
  intros Hhelp Hdist Hleaf Hdef Hflags Hwalk.
  destruct (New_is_fresh LookupEnv nm opts) as (Hfresh & Hnohelp & _).
  set (a := New LookupEnv nm opts) in *.
  destruct (parseHelp_keeps a flags) as (Hfs & Hl & Hn & _ & Hh).
  rewrite Hhelp, orb_false_r in Hh.
  assert (Hbound : bound_at (parseHelp a flags) a1 w1 p field (flagName field prefix)
                     (baseline_text a field prefix)).
  { rewrite <- (baseline_text_same_settings a (parseHelp a flags) w w) by (by repeat split).
    by apply (parse_fields_binds_leaf flags p Hhelp fields [] "" (parseHelp a flags) w). }
  destruct Hbound as (v & vt & u & Hv & Hmem & Hflag & Hunique).
  assert (Hends : field_ends_as a a1 w w1
                    (pointer_to (reflect.struct_type fields) (Some [])) flags p v).
  { destruct (flag_Parse_frame (flagName field prefix) p (length flags) flags
                (flagSet a1) w1) as (f2 & w2 & e2 & HP & Hm2); [done|done| |].
    { intros n fl Hfl Hptr. destruct (Hunique n fl Hfl Hptr) as [?|Hold]; [done|].
      rewrite Hfs, Hfresh in Hold. by rewrite lookup_empty in Hold. }
    assert (HParse : Parse a w (pointer_to (reflect.struct_type fields) (Some [])) flags
                     = exit (with_flagSet a1 f2) w2 e2).
    { unfold Parse. by rewrite Hwalk, HP. }
    split.
    - exists f2, w2, e2. repeat split; try done. by rewrite Hm2.
    - intros wf. rewrite HParse. intros Hwf. apply exit_final_world in Hwf.
      by rewrite Hwf, Hm2. }
  unfold baseline_text in Hv. split.
  - intros Henv. rewrite Henv, Hnohelp in Hv. by exists v.
  - intros value Henv. rewrite Henv, Hdef in Hv. by exists v.
Qed.

Lemma environment_overrides_default_witness :
  exists a2 w2,
    Parse (lib := table_library)
      (New (fun _ => ("2", true)) "test" [WithErrorHandling flag.ContinueOnError])
      (mkWorld ∅ [])
      (pointer_to (reflect.struct_type
                     [reflect.mkStructField "Port" "" reflect.go_int [("def", "1")]])
         (Some []))
      []
    = returned a2 w2 None
    /\ memory w2 !! ["Port"] = Some (int_of 2).
Proof.
  match eval vm_compute in
    (parse (lib := table_library)
       (New (fun _ => ("2", true)) "test" [WithErrorHandling flag.ContinueOnError])
       (mkWorld ∅ [])
       (pointer_to (reflect.struct_type
                      [reflect.mkStructField "Port" "" reflect.go_int [("def", "1")]])
          (Some []))
       [] "")
  with
  | Ret (?a1, ?w1, None) =>
      destruct (@environment_overrides_default table_library
                  (fun _ => ("2", true)) "test" [WithErrorHandling flag.ContinueOnError]
                  (mkWorld ∅ [])
                  [reflect.mkStructField "Port" "" reflect.go_int [("def", "1")]]
                  [] ["Port"]
                  (reflect.mkStructField "Port" "" reflect.go_int [("def", "1")]) ""
                  a1 w1)
        as [Henv _]
  end.
  - reflexivity.
  - split; [repeat constructor; set_solver|done].
  - reflexivity.
  - reflexivity.
  - intros tok Htok. by apply elem_of_nil in Htok.
  - vm_compute. reflexivity.
  - destruct (Henv eq_refl) as (v & Hv & _ & Hfinal).
    vm_compute in Hv. injection Hv as <-.
    eexists _, _. split; [reflexivity|]. apply Hfinal. reflexivity.
Defined.

(** C1 fails as stated: with [-h] among the arguments, which names no flag
    of the record, the field keeps the baseline of its [def] annotation
    although the lookup of its environment name returns [("2", true)]. *)
Lemma help_token_keeps_the_default :
  exists a2 w2,
    Parse (lib := table_library)
      (New (fun _ => ("2", true)) "test" [WithErrorHandling flag.ContinueOnError])
      (mkWorld ∅ [])
      (pointer_to (reflect.struct_type
                     [reflect.mkStructField "Port" "" reflect.go_int [("def", "1")]])
         (Some []))
      ["-h"]
    = returned a2 w2 None
    /\ memory w2 !! ["Port"] = Some (int_of 1)
    /\ memory w2 !! ["Port"] <> Some (int_of 2).
Proof. eexists _, _. split; [reflexivity|]. split; [reflexivity|discriminate]. Qed.

(** ** Every leaf is registered *)

Lemma envVarName_same_settings (a a' : Act) (w w' : World) (field : reflect.StructField)
    (prefix : string) :
  same_settings (a, w) (a', w') -> envVarName a' field prefix = envVarName a field prefix.
Proof. intros (_ & Hn & _). simpl in Hn. unfold envVarName. by rewrite Hn. Qed.

(** A later step that does not touch [q] keeps the leaf registered. *)
Lemma registered_at_after {lib : Library} (S : path -> Prop) (a0 a1 a2 : Act) (w1 w2 : World)
    (q : path) (field : reflect.StructField) (prefix : string) :
  ~ S q -> touches_only S (a1, w1) (a2, w2) ->
  registered_at a0 a1 w1 q field prefix -> registered_at a0 a2 w2 q field prefix.
Proof.
  intros Hq (Hm & _ & Ho) (v & vt & Hv & Hmem & Hvt & Hflag). simpl in Hm, Ho.
  exists v, vt. repeat split; try done.
  - by rewrite (Hm q Hq).
  - by apply Ho.
Qed.

(** The binder the walk started from may be any with the same settings. *)
Lemma registered_at_same_settings {lib : Library} (a0 a0' a1 : Act) (w0 w0' w1 : World)
    (q : path) (field : reflect.StructField) (prefix : string) :
  same_settings (a0, w0) (a0', w0') ->
  registered_at a0' a1 w1 q field prefix -> registered_at a0 a1 w1 q field prefix.
Proof.
  intros Hsame (v & vt & Hv & Hmem & Hvt & Hflag). exists v, vt.
  rewrite <- (baseline_text_same_settings a0 a0' w0 w0') by done.
  rewrite <- (envVarName_same_settings a0 a0' w0 w0') by done. done.
Qed.

(** The walk registers the leaf at the end of a field path, with or without
    a help token among the arguments: when the walk over the fields of the
    struct at [base] returns without an error, the variable of the leaf holds
    the baseline of its text and its flag points to it. *)
Lemma walk_binds_leaf {lib : Library} (flags : list string) (p : path) :
  forall fields base prefix a w a1 w1 field pre,
    help a = true \/ help_requested flags = false ->
    distinct_along fields p ->
    find_leaf fields p prefix = Some (field, pre) ->
    parse_fields parse_struct base flags prefix fields a w = Ret (a1, w1, None) ->
    registered_at a a1 w1 (base ++ p) field pre.
Proof.
  induction p as [|n rest IHp]; [done|].
  intros fields. induction fields as [|field0 fields IHf];
    intros base prefix a w a1 w1 field pre Hseen Hdist Hleaf Hrun; [done|].
  destruct Hdist as [Hnodup Hdist]. rewrite fmap_cons in Hnodup.
  apply NoDup_cons in Hnodup as [Hfresh Hnodup].
  cbn [find_leaf find_field] in Hleaf, Hdist.
  destruct (reflect.IsExported field0) eqn:Hexp;
    [|by cbn [parse_fields] in Hrun; rewrite Hexp in Hrun].
  rewrite parse_fields_cons in Hrun by done.
  destruct (if recurses (reflect.Type' field0) then _ else _)
    as [[[a' w'] [e'|]]|pv] eqn:Hstep; try done.
  assert (Hsame : same_settings (a, w) (a', w')).
  { destruct (recurses (reflect.Type' field0)).
    - by eapply walk_same_settings.
    - by eapply bind_leaf_same_settings. }
  case_bool_decide as Hname.
  - (* the path goes through this field *)
    eapply (registered_at_after
              (fun q => exists f, f ∈ fields /\ (base ++ [reflect.Name f]) `prefix_of` q));
      [|by eapply parse_fields_touches_only|].
    { intros (f & Hin & Hpre). apply prefix_of_sibling in Hpre. apply Hfresh.
      rewrite Hname, <- Hpre. by apply list_elem_of_fmap_2. }
    destruct (recurses (reflect.Type' field0)) eqn:Hrec.
    + destruct (reflect.Type' field0) as [| | | | | | | | | | | |fs'|k] eqn:Hft; try done.
      cbn [parse_struct] in Hstep. rewrite Hname, parseHelp_again in Hstep by done.
      eapply IHp in Hstep; [|done|done|done]. by rewrite <- app_assoc in Hstep.
    + destruct rest; [|done]. injection Hleaf as <- <-.
      apply bind_leaf_Ret in Hstep as (vt & v & f' & Hvt & Hv & Hvar & -> & ->).
      apply Var_Ret in Hvar as (_ & ->). rewrite Hname.
      exists v, vt. repeat split; try done; apply lookup_insert_eq.
  - (* the path goes through a later field *)
    apply (registered_at_same_settings a a' a1 w w'); [done|].
    eapply IHf; [by eapply same_settings_seen| |exact Hleaf|exact Hrun]. by split.
Qed.

(** What [parse] has registered for the leaf at the end of a field path of
    the target record when it returns without an error: the binder that
    binds the leaves is the one [parseHelp] has marked. *)
Lemma parse_binds_leaf {lib : Library} (a a1 : Act) (w w1 : World)
    (fields : list reflect.StructField) (base : path) (flags : list string) (p : path)
    (field : reflect.StructField) (prefix : string) :
  distinct_along fields p ->
  find_leaf fields p "" = Some (field, prefix) ->
  parse a w (pointer_to (reflect.struct_type fields) (Some base)) flags "" = Ret (a1, w1, None) ->
  registered_at (parseHelp a flags) a1 w1 (base ++ p) field prefix.
Proof.
  intros Hdist Hleaf Hwalk. unfold parse in Hwalk. cbn [reflect.Kind_of as_struct] in Hwalk.
  rewrite bool_decide_eq_true_2 in Hwalk by done. cbn [negb parse_struct] in Hwalk.
  eapply walk_binds_leaf; [|done|done|done].
  destruct (parseHelp_keeps a flags) as (_ & _ & _ & _ & ->).
  destruct (help_requested flags); [left; apply orb_true_r|by right].
Qed.

(** C2.  When one of [-h], [--h], [-help], [--help] is among the arguments
    and the walk of [Parse] over the target record returns without an error,
    every leaf of the record is registered with the baseline its [def]
    annotation denotes, whatever the environment-lookup function of the
    binder returns for the name of its environment variable: the variable of
    the leaf holds that baseline and the flag of the leaf points to it.  The
    walk and [Parse] come out the same for every environment-lookup function:
    the same flags registered, the same baselines stored, the same output
    written, the same result. *)
Theorem help_mode_ignores_environment {lib : Library} (a a1 : Act) (w w1 : World)
    (fields : list reflect.StructField) (base : path) (flags : list string) (p : path)
    (field : reflect.StructField) (prefix : string) :
  help_requested flags = true ->
  distinct_along fields p ->
  find_leaf fields p "" = Some (field, prefix) ->
  parse a w (pointer_to (reflect.struct_type fields) (Some base)) flags "" = Ret (a1, w1, None) ->
  (exists v vt,
     baseline_value (reflect.Type' field) (reflect.Get (reflect.Tag field) "def") = Some v
     /\ memory w1 !! (base ++ p) = Some v
     /\ flag_type (reflect.Type' field) = Some vt
     /\ flag.formal (flagSet a1) !! flagName field prefix
        = Some (flag.mkFlag (flagName field prefix)
                  (usage field (envVarName a field prefix) prefix) vt (base ++ p)))
  /\ (forall fn : string -> string * bool,
        parse (with_lookupEnvFunc a fn) w (pointer_to (reflect.struct_type fields) (Some base))
          flags ""
        = Ret (with_lookupEnvFunc a1 fn, w1, None)
        /\ Parse (with_lookupEnvFunc a fn) w
             (pointer_to (reflect.struct_type fields) (Some base)) flags
           = Exit_under_environment fn
               (Parse a w (pointer_to (reflect.struct_type fields) (Some base)) flags)).
Proof.
  intros Hhelp Hdist Hleaf Hwalk. split.
  - destruct (parse_binds_leaf a a1 w w1 fields base flags p field prefix Hdist Hleaf Hwalk)
      as (v & vt & Hv & Hmem & Hvt & Hflag).
    destruct (parseHelp_keeps a flags) as (_ & _ & Hname & _ & Hmark).
    rewrite Hhelp, orb_true_r in Hmark.
    assert (Henv : envVarName (parseHelp a flags) field prefix = envVarName a field prefix)
      by (unfold envVarName; by rewrite Hname).
    exists v, vt. split; [|split; [done|split; [done|by rewrite <- Henv]]].
    unfold baseline_text in Hv. rewrite Hmark in Hv.
    destruct (lookupEnvFunc (parseHelp a flags) _) as [value found].
    by rewrite andb_false_r in Hv.
  - intros fn.
    destruct (walk_under_environment a w (pointer_to (reflect.struct_type fields) (Some base))
                flags "" fn Hhelp) as [Hsame HParse].
    split; [|done]. by rewrite Hsame, Hwalk.
Qed.

Lemma help_mode_ignores_environment_witness :
  exists a1 w1,
    parse (lib := table_library)
      (New (fun _ => ("2", true)) "test" [WithErrorHandling flag.ContinueOnError])
      (mkWorld ∅ [])
      (pointer_to (reflect.struct_type
                     [reflect.mkStructField "Port" "" reflect.go_int [("def", "1")]])
         (Some []))
      ["-h"] ""
    = Ret (a1, w1, None)
    /\ memory w1 !! ["Port"] = Some (int_of 1)
    /\ flag.formal (flagSet a1) !! "port"
       = Some (flag.mkFlag "port" "port (env TEST_PORT)" flag.intValue ["Port"]).
Proof.
  eexists _, _. split; [reflexivity|].
  match goal with
  | |- memory ?w1 !! _ = _ /\ flag.formal (flagSet ?a1) !! _ = _ =>
      destruct (@help_mode_ignores_environment table_library
                  (New (fun _ => ("2", true)) "test" [WithErrorHandling flag.ContinueOnError])
                  a1 (mkWorld ∅ []) w1
                  [reflect.mkStructField "Port" "" reflect.go_int [("def", "1")]]
                  [] ["-h"] ["Port"]
                  (reflect.mkStructField "Port" "" reflect.go_int [("def", "1")]) ""
                  eq_refl)
        as [(v & vt & Hv & Hmem & Hvt & Hflag) _]
  end.
  - split; [|done]. repeat constructor. set_solver.
  - reflexivity.
  - reflexivity.
  - vm_compute in Hv, Hvt. injection Hv as <-. injection Hvt as <-.
    split; [exact Hmem|]. vm_compute in Hflag |- *. exact Hflag.
Defined.

(** C6.  When the walk of [Parse] over the target record returns without an
    error, a leaf field without [flag] and [env] annotations at the end of
    the field path [p] (parent first, field identifiers not empty) is
    registered under the flag name that is the kebab case of the path joined
    by hyphens: the flag of that name points to the leaf.  The name of its
    environment variable is the screaming snake case of the command name and
    the path joined by underscores: the usage text of the flag shows that
    name, and the baseline of the leaf is read from what the lookup function
    returns for that name, or from the [def] annotation when the lookup finds
    nothing or a help token is among the arguments.  Both names are functions
    of the path and of the command name alone. *)
Theorem derived_names {lib : Library} (a a1 : Act) (w w1 : World)
    (fields : list reflect.StructField) (base : path) (flags : list string) (p : path)
    (field : reflect.StructField) (prefix : string) :
  Forall (fun n => n <> EmptyString) p ->
  distinct_along fields p ->
  find_leaf fields p "" = Some (field, prefix) ->
  reflect.Get (reflect.Tag field) "flag" = EmptyString ->
  reflect.Get (reflect.Tag field) "env" = EmptyString ->
  parse a w (pointer_to (reflect.struct_type fields) (Some base)) flags "" = Ret (a1, w1, None) ->
  let flagname := strcase.ToKebab (strings.Join p "-") in
  let envname := strcase.ToScreamingSnake (strings.Join (name a :: p) "_") in
  flagName field prefix = flagname
  /\ envVarName a field prefix = envname
  /\ exists v vt,
       flag.formal (flagSet a1) !! flagname
       = Some (flag.mkFlag flagname (usage field envname prefix) vt (base ++ p))
       /\ flag_type (reflect.Type' field) = Some vt
       /\ memory w1 !! (base ++ p) = Some v
       /\ baseline_value (reflect.Type' field)
            (let '(value, found) := lookupEnvFunc a envname in
             if found && negb (help a || help_requested flags) then value
             else reflect.Get (reflect.Tag field) "def")
          = Some v.
Proof.
  intros Hnames Hdist Hleaf Hflag Henv Hwalk flagname envname. subst flagname envname.
  destruct (names_of_field_path a fields p field prefix Hnames Hleaf Hflag Henv)
    as [Hf He].
  split; [done|]. split; [done|].
  destruct (parse_binds_leaf a a1 w w1 fields base flags p field prefix Hdist Hleaf Hwalk)
    as (v & vt & Hv & Hmem & Hvt & Hreg).
  destruct (parseHelp_keeps a flags) as (_ & Hlookup & Hname & _ & Hmark).
  assert (Henv' : envVarName (parseHelp a flags) field prefix
                  = strcase.ToScreamingSnake (strings.Join (name a :: p) "_"))
    by (rewrite <- He; unfold envVarName; by rewrite Hname).
  exists v, vt. rewrite Hf, Henv' in Hreg. split; [done|]. split; [done|]. split; [done|].
  unfold baseline_text in Hv. by rewrite Henv', Hlookup, Hmark in Hv.
Qed.

Lemma derived_names_witness :
  exists a1 w1,
    parse (lib := table_library)
      (New (fun key => if bool_decide (key = "COOL_MONGO_HOSTS") then ("a,b", true)
                       else ("", false)) "cool" [])
      (mkWorld ∅ [])
      (pointer_to
         (reflect.struct_type
            [reflect.mkStructField "Mongo" ""
               (reflect.struct_type
                  [reflect.mkStructField "Hosts" "" reflect.act_StringSlice []]) []])
         (Some [])) [] ""
    = Ret (a1, w1, None)
    /\ flag.formal (flagSet a1) !! "mongo-hosts"
       = Some (flag.mkFlag "mongo-hosts" "mongo hosts (env COOL_MONGO_HOSTS)"
                 flag.StringSlice_pointer ["Mongo"; "Hosts"])
    /\ memory w1 !! ["Mongo"; "Hosts"] = Some (StringSlice_of ["a"; "b"]).
Proof.
  eexists _, _. split; [reflexivity|].
  match goal with
  | |- flag.formal (flagSet ?a1) !! _ = _ /\ memory ?w1 !! _ = _ =>
      destruct (@derived_names table_library
                  (New (fun key => if bool_decide (key = "COOL_MONGO_HOSTS")
                                   then ("a,b", true) else ("", false)) "cool" [])
                  a1 (mkWorld ∅ []) w1
                  [reflect.mkStructField "Mongo" ""
                     (reflect.struct_type
                        [reflect.mkStructField "Hosts" "" reflect.act_StringSlice []]) []]
                  [] [] ["Mongo"; "Hosts"]
                  (reflect.mkStructField "Hosts" "" reflect.act_StringSlice []) "Mongo")
        as (_ & _ & v & vt & Hreg & Hvt & Hmem & Hv)
  end.
  - repeat constructor; discriminate.
  - split; [repeat constructor; set_solver|]. split; [|done]. repeat constructor. set_solver.
  - reflexivity.
  - reflexivity.
  - reflexivity.
  - reflexivity.
  - vm_compute in Hv, Hvt. injection Hv as <-. injection Hvt as <-.
    split; [|exact Hmem]. vm_compute in Hreg |- *. exact Hreg.
Defined.

(** ** RFC 3339 timestamps *)

Lemma digit_is_digit (d : Z) :
  0 <= d <= 9 ->
  isDigit (rfc3339.digit d) = true /\ digit_value (rfc3339.digit d) = d.
Proof.
  intros Hd.
  assert (Hcases : d = 0 \/ d = 1 \/ d = 2 \/ d = 3 \/ d = 4 \/ d = 5 \/ d = 6 \/ d = 7
                   \/ d = 8 \/ d = 9) by lia.
  repeat (destruct Hcases as [->|Hcases]; [by split|]). by subst.
Qed.

Lemma parseUint_two_digits (n min max : Z) :
  0 <= n <= 99 -> min <= n <= max ->
  time.parseUint (rfc3339.two_digits n EmptyString) min max = (n, true).
Proof.
  intros Hn Hrange. unfold time.parseUint, rfc3339.two_digits. cbn [time.digits].
  destruct (digit_is_digit (n / 10)) as [-> ->]; [div_lia|].
  destruct (digit_is_digit (n mod 10)) as [-> ->]; [div_lia|].
  replace ((0 * 10 + n / 10) * 10 + n mod 10) with n by div_lia.
  destruct (n <? min) eqn:H1; [lia|]. destruct (max <? n) eqn:H2; [lia|]. done.
Qed.

Lemma parseUint_four_digits (n min max : Z) :
  0 <= n <= 9999 -> min <= n <= max ->
  time.parseUint (rfc3339.four_digits n EmptyString) min max = (n, true).
Proof.
  intros Hn Hrange. unfold time.parseUint, rfc3339.four_digits. cbn [time.digits].
  destruct (digit_is_digit (n / 1000)) as [-> ->]; [div_lia|].
  destruct (digit_is_digit (n / 100 mod 10)) as [-> ->]; [div_lia|].
  destruct (digit_is_digit (n / 10 mod 10)) as [-> ->]; [div_lia|].
  destruct (digit_is_digit (n mod 10)) as [-> ->]; [div_lia|].
  replace ((((0 * 10 + n / 1000) * 10 + n / 100 mod 10) * 10 + n / 10 mod 10) * 10 + n mod 10)
    with n by div_lia.
  destruct (n <? min) eqn:H1; [lia|]. destruct (max <? n) eqn:H2; [lia|]. done.
Qed.

Lemma appendInt_two_digits (n : Z) :
  0 <= n <= 99 -> time.appendInt n 2 = rfc3339.two_digits n EmptyString.
Proof.
  intros Hn. unfold time.appendInt. rewrite Z.abs_eq by lia.
  destruct (n <? 0) eqn:H1; [lia|]. destruct (n <? 100) eqn:H2; [|lia]. done.
Qed.

Lemma appendInt_four_digits (n : Z) :
  0 <= n <= 9999 -> time.appendInt n 4 = rfc3339.four_digits n EmptyString.
Proof.
  intros Hn. unfold time.appendInt. rewrite Z.abs_eq by lia.
  destruct (n <? 0) eqn:H1; [lia|]. destruct (n <? 10000) eqn:H2; [|lia]. done.
Qed.

Lemma days_in_month_daysIn (year month : Z) :
  1 <= month <= 12 -> rfc3339.days_in_month year month = time.daysIn month year.
Proof.
  intros Hm.
  assert (Hcases : month = 1 \/ month = 2 \/ month = 3 \/ month = 4 \/ month = 5
                   \/ month = 6 \/ month = 7 \/ month = 8 \/ month = 9 \/ month = 10
                   \/ month = 11 \/ month = 12) by lia.
  unfold rfc3339.days_in_month, time.daysIn, rfc3339.leap_year, time.isLeap.
  repeat (destruct Hcases as [->|Hcases]; [by repeat case_match|]). subst. done.
Qed.

Lemma substring_all (s : string) : substring 0 (String.length s) s = s.
Proof. induction s as [|c s IH]; simpl; [done|]. by rewrite IH. Qed.

(** The date and the time of day of a timestamp, as [parseRFC3339] reads
    them. *)
Lemma parseRFC3339_date (dt : rfc3339.DateTime) (rest : string) :
  rfc3339.valid dt -> rfc3339.lowercase_t dt = false -> rfc3339.second dt <= 59 ->
  time.parseRFC3339
    (rfc3339.four_digits (rfc3339.fullyear dt) (String "-"
      (rfc3339.two_digits (rfc3339.month dt) (String "-"
        (rfc3339.two_digits (rfc3339.mday dt) (String "T"
          (rfc3339.two_digits (rfc3339.hour dt) (String ":"
            (rfc3339.two_digits (rfc3339.minute dt) (String ":"
              (rfc3339.two_digits (rfc3339.second dt) rest)))))))))))
  = time.parseRFC3339_zone rest (rfc3339.fullyear dt) (rfc3339.month dt) (rfc3339.mday dt)
      (rfc3339.hour dt) (rfc3339.minute dt) (rfc3339.second dt).
Proof.
  destruct dt as [y mo d lt h mi s off]. unfold rfc3339.valid. simpl.
  intros (Hy & Hmo & Hd & Hh & Hmi & Hs & Hoff) -> Hs'.
  rewrite days_in_month_daysIn in Hd by done.
  pose proof (parseUint_four_digits y 0 9999 Hy Hy) as Hpy.
  assert (Hpmo : time.parseUint (rfc3339.two_digits mo EmptyString) 1 12 = (mo, true))
    by (apply parseUint_two_digits; lia).
  assert (Hpd : time.parseUint (rfc3339.two_digits d EmptyString) 1 (time.daysIn mo y)
                = (d, true)).
  { apply parseUint_two_digits; [|done]. unfold time.daysIn in Hd. repeat case_match; lia. }
  assert (Hph : time.parseUint (rfc3339.two_digits h EmptyString) 0 23 = (h, true))
    by (apply parseUint_two_digits; lia).
  assert (Hpmi : time.parseUint (rfc3339.two_digits mi EmptyString) 0 59 = (mi, true))
    by (apply parseUint_two_digits; lia).
  assert (Hps : time.parseUint (rfc3339.two_digits s EmptyString) 0 59 = (s, true))
    by (apply parseUint_two_digits; lia).
  unfold rfc3339.four_digits, rfc3339.two_digits in *.
  unfold time.parseRFC3339, time.byte_is, time.slice_from.
  cbn [String.length Nat.ltb Nat.leb time.slice substring Nat.sub String.get].
  rewrite Hpy, Hpmo, Hpd, Hph, Hpmi.
  replace (substring 0 0 rest) with EmptyString by (by destruct rest).
  rewrite Hps, Nat.sub_0_r, substring_all. done.
Qed.

Lemma substring_append_right (a b : string) :
  substring (String.length a) (String.length (a +:+ b) - String.length a) (a +:+ b) = b.
Proof.
  induction a as [|c a IH].
  - change (EmptyString +:+ b) with b. simpl. by rewrite Nat.sub_0_r, substring_all.
  - change (String c a +:+ b) with (String c (a +:+ b)). simpl. exact IH.
Qed.

Lemma offset_text_first (o : rfc3339.Offset) :
  exists c rest, rfc3339.offset_text o = String c rest /\ isDigit c = false
                 /\ Ascii.eqb c "." = false.
Proof.
  destruct o as [[]|[] h m]; simpl; eexists _, _; (split; [reflexivity|by vm_compute]).
Qed.

Lemma leading_digits_append (a b : string) (c : ascii) :
  rfc3339.digits_only a = true -> isDigit c = false ->
  time.leading_digits (a +:+ String c b) = String.length a.
Proof.
  intros Ha Hc. induction a as [|x a IH].
  - change (EmptyString +:+ String c b) with (String c b). simpl. by rewrite Hc.
  - change (String x a +:+ String c b) with (String x (a +:+ String c b)).
    simpl in Ha |- *. apply andb_true_iff in Ha as [-> Ha]. by rewrite IH.
Qed.

(** Without a fraction the zone is read as it stands. *)
Lemma parseRFC3339_fraction_none (o : rfc3339.Offset) :
  time.parseRFC3339_fraction (rfc3339.offset_text o) = (0, rfc3339.offset_text o).
Proof.
  by destruct o as [[]|[] h m].
Qed.

Lemma substring_skip (n m : nat) (c : ascii) (s : string) :
  substring (S n) m (String c s) = substring n m s.
Proof. by destruct m. Qed.

(** A fraction is skipped up to the zone. *)
Lemma parseRFC3339_fraction_some (fraction : string) (o : rfc3339.Offset) :
  rfc3339.secfrac fraction ->
  exists nsec,
    time.parseRFC3339_fraction (String "." (fraction +:+ rfc3339.offset_text o))
    = (nsec, rfc3339.offset_text o).
Proof.
  intros [Hne Hdigits]. destruct fraction as [|x fraction]; [done|]. clear Hne.
  simpl in Hdigits. apply andb_true_iff in Hdigits as [Hx Hdigits].
  destruct (offset_text_first o) as (c & rest & Ho & Hc & _).
  change (String x fraction +:+ rfc3339.offset_text o)
    with (String x (fraction +:+ rfc3339.offset_text o)).
  set (tail := fraction +:+ rfc3339.offset_text o).
  unfold time.parseRFC3339_fraction.
  change (time.isDigitAt (String "." (String x tail)) 1) with (isDigit x). rewrite Hx.
  change (time.byte_is (String "." (String x tail)) 0 ".") with true.
  change ((2 <=? String.length (String "." (String x tail)))%nat) with true.
  change (true && true && true) with true. cbv iota.
  assert (Htail : time.slice_from (String "." (String x tail)) 2 = tail).
  { unfold time.slice_from. rewrite !substring_skip.
    change (String.length (String "." (String x tail))) with (S (S (String.length tail))).
    replace (S (S (String.length tail)) - 2)%nat with (String.length tail) by lia.
    apply substring_all. }
  rewrite Htail.
  assert (Hlead : time.leading_digits tail = String.length fraction).
  { unfold tail. rewrite Ho. by apply leading_digits_append. }
  rewrite Hlead. eexists. f_equal.
  unfold time.slice_from. change (2 + String.length fraction)%nat
    with (S (S (String.length fraction))). rewrite !substring_skip.
  change (String.length (String "." (String x tail))) with (S (S (String.length tail))).
  replace (S (S (String.length tail)) - S (S (String.length fraction)))%nat
    with (String.length tail - String.length fraction)%nat by lia.
  apply substring_append_right.
Qed.

(** The zone of a timestamp is read as an offset that [Format] prints as
    the same text, unless it is a numeric offset of zero or a small [z]. *)
Lemma zone_round_trip (o : rfc3339.Offset) (s : string)
    (year month day hour min sec nsec : Z) :
  rfc3339.valid_offset o ->
  match o with
  | rfc3339.zulu lowercase => lowercase = false
  | rfc3339.numoffset _ h m => h <> 0 \/ m <> 0
  end ->
  time.parseRFC3339_fraction s = (nsec, rfc3339.offset_text o) ->
  exists offset,
    time.parseRFC3339_zone s year month day hour min sec
    = Some (time.mkTime year month day hour min sec nsec offset)
    /\ time.formatZone offset = rfc3339.offset_text o.
Proof.
  intros Hvalid Hcanonical Hfraction. unfold time.parseRFC3339_zone. rewrite Hfraction.
  destruct o as [lowercase|negative h m].
  - subst lowercase. by exists 0.
  - destruct Hvalid as [Hh Hm].
    pose proof (parseUint_two_digits h 0 23 ltac:(lia) Hh) as Hph.
    pose proof (parseUint_two_digits m 0 59 ltac:(lia) Hm) as Hpm.
    pose proof (appendInt_two_digits h ltac:(lia)) as Hah.
    pose proof (appendInt_two_digits m ltac:(lia)) as Ham.
    unfold rfc3339.offset_text. unfold rfc3339.two_digits in *.
    set (sign := if negative then "-"%char else "+"%char).
    rewrite bool_decide_eq_false_2 by done.
    match goal with |- context [time.slice ?z 1 3] =>
      change (time.slice z 1 3)
        with (String (rfc3339.digit (h / 10)) (String (rfc3339.digit (h mod 10)) ""));
      change (time.slice z 4 6)
        with (String (rfc3339.digit (m / 10)) (String (rfc3339.digit (m mod 10)) ""));
      change (String.length z =? 6)%nat with true;
      change (time.byte_is z 3 ":") with true;
      change (time.byte_is z 0 "-") with (Ascii.eqb sign "-");
      change (time.byte_is z 0 "+") with (Ascii.eqb sign "+")
    end.
    rewrite Hph, Hpm. unfold sign. destruct negative; simpl; eexists; (split; [done|]).
    + unfold time.formatZone.
      assert (((h * 60 + m) * 60 * -1 =? 0) = false) as -> by lia.
      replace ((h * 60 + m) * 60 * -1) with (- (h * 60 + m) * 60) by lia.
      rewrite Z.quot_mul by done.
      assert ((- (h * 60 + m) <? 0) = true) as -> by lia.
      replace (Z.abs (- (h * 60 + m))) with (h * 60 + m) by lia.
      rewrite Z.quot_div_nonneg, Z.rem_mod_nonneg by lia.
      replace ((h * 60 + m) `div` 60) with h by div_lia.
      replace ((h * 60 + m) `mod` 60) with m by div_lia.
      by rewrite Hah, Ham.
    + unfold time.formatZone.
      assert (((h * 60 + m) * 60 =? 0) = false) as -> by lia.
      rewrite Z.quot_mul by done.
      assert ((h * 60 + m <? 0) = false) as -> by lia.
      replace (Z.abs (h * 60 + m)) with (h * 60 + m) by lia.
      rewrite Z.quot_div_nonneg, Z.rem_mod_nonneg by lia.
      replace ((h * 60 + m) `div` 60) with h by div_lia.
      replace ((h * 60 + m) `mod` 60) with m by div_lia.
      by rewrite Hah, Ham.
Qed.

(** [Format] prints the fields of a timestamp as the grammar writes them. *)
Lemma Format_RFC3339_text (dt : rfc3339.DateTime) (nsec offset : Z) :
  rfc3339.valid dt -> rfc3339.lowercase_t dt = false -> rfc3339.second dt <= 59 ->
  time.formatZone offset = rfc3339.offset_text (rfc3339.offset dt) ->
  time.Format_RFC3339
    (time.mkTime (rfc3339.fullyear dt) (rfc3339.month dt) (rfc3339.mday dt)
       (rfc3339.hour dt) (rfc3339.minute dt) (rfc3339.second dt) nsec offset)
  = rfc3339.text dt.
Proof.
  destruct dt as [y mo d lt h mi s off]. unfold rfc3339.valid. simpl.
  intros (Hy & Hmo & Hd & Hh & Hmi & Hs & Hoff) -> Hs' Hzone.
  rewrite days_in_month_daysIn in Hd by done.
  assert (d <= 31) by (unfold time.daysIn in Hd; repeat case_match; lia).
  unfold time.Format_RFC3339, rfc3339.text. simpl.
  rewrite Hzone, appendInt_four_digits by done.
  rewrite !appendInt_two_digits by lia. reflexivity.
Qed.

(** A timestamp in canonical form, with or without a fraction of a second,
    is read by [time.Parse] as a time that [Format] prints in that form. *)
Lemma time_Parse_round_trip {lib : Library} (dt : rfc3339.DateTime) (rest : string) :
  rfc3339.valid dt -> rfc3339.canonical dt ->
  (exists nsec, time.parseRFC3339_fraction rest
                = (nsec, rfc3339.offset_text (rfc3339.offset dt))) ->
  exists t,
    time_Parse_RFC3339
      (rfc3339.four_digits (rfc3339.fullyear dt) (String "-"
        (rfc3339.two_digits (rfc3339.month dt) (String "-"
          (rfc3339.two_digits (rfc3339.mday dt) (String "T"
            (rfc3339.two_digits (rfc3339.hour dt) (String ":"
              (rfc3339.two_digits (rfc3339.minute dt) (String ":"
                (rfc3339.two_digits (rfc3339.second dt) rest)))))))))))
    = (t, None)
    /\ time.Format_RFC3339 t = rfc3339.text dt.
Proof.
  intros Hvalid (Ht & Hsecond & Hoffset) [nsec Hfraction].
  unfold time_Parse_RFC3339. rewrite parseRFC3339_date by done.
  destruct (zone_round_trip (rfc3339.offset dt) rest (rfc3339.fullyear dt)
              (rfc3339.month dt) (rfc3339.mday dt) (rfc3339.hour dt) (rfc3339.minute dt)
              (rfc3339.second dt) nsec) as (offset & -> & Hzone);
    [apply Hvalid|done|done|].
  eexists. split; [done|]. by apply Format_RFC3339_text.
Qed.

(** C5, as the code has it.  A valid RFC 3339 timestamp in canonical form
    (capital [T] and [Z], no leap second, no numeric offset of zero) is
    accepted by [Set] of the timestamp adapter, and [String] then returns
    exactly that text.  The same timestamp with a fraction of a second is
    accepted too, and [String] then returns the text without the fraction. *)
Theorem Time_round_trip {lib : Library} (f : Time) (dt : rfc3339.DateTime)
    (fraction : string) :
  rfc3339.valid dt -> rfc3339.canonical dt ->
  (exists t, Time_Set (Some f) (rfc3339.text dt) = Ret (Some (mkTime (Some t)), None)
             /\ Time_String (Some (mkTime (Some t))) = rfc3339.text dt)
  /\ (rfc3339.secfrac fraction ->
      exists t, Time_Set (Some f) (rfc3339.text_with_fraction dt fraction)
                = Ret (Some (mkTime (Some t)), None)
                /\ Time_String (Some (mkTime (Some t))) = rfc3339.text dt).
Proof.
  intros Hvalid Hcanonical. pose proof Hcanonical as (Ht & _).
  unfold Time_Set, rfc3339.text, rfc3339.text_with_fraction. rewrite Ht. split.
  - destruct (time_Parse_round_trip dt (rfc3339.offset_text (rfc3339.offset dt)))
      as (t & -> & Hformat); [done|done| |].
    2: { exists t. split; [done|]. simpl. rewrite Hformat. unfold rfc3339.text.
         by rewrite Ht. }
    eexists. apply parseRFC3339_fraction_none.
  - intros Hfraction.
    destruct (time_Parse_round_trip dt
                (String "." (fraction +:+ rfc3339.offset_text (rfc3339.offset dt))))
      as (t & -> & Hformat); [done|done| |].
    2: { exists t. split; [done|]. simpl. rewrite Hformat. unfold rfc3339.text.
         by rewrite Ht. }
    by apply parseRFC3339_fraction_some.
Qed.

(** The timestamps of the package's tests: [2002-10-02T15:00:00Z] comes
    back as it is, and [2002-10-02T15:00:00.05Z] without its fraction. *)
Lemma Time_round_trip_witness :
  rfc3339.valid (rfc3339.mkDateTime 2002 10 2 false 15 0 0 (rfc3339.zulu false))
  /\ rfc3339.canonical (rfc3339.mkDateTime 2002 10 2 false 15 0 0 (rfc3339.zulu false))
  /\ rfc3339.secfrac "05"
  /\ rfc3339.text (rfc3339.mkDateTime 2002 10 2 false 15 0 0 (rfc3339.zulu false))
     = "2002-10-02T15:00:00Z"
  /\ rfc3339.text_with_fraction
       (rfc3339.mkDateTime 2002 10 2 false 15 0 0 (rfc3339.zulu false)) "05"
     = "2002-10-02T15:00:00.05Z"
  /\ (exists t, @Time_Set table_library (Some (mkTime None)) "2002-10-02T15:00:00Z"
                = Ret (Some (mkTime (Some t)), None)
                /\ Time_String (Some (mkTime (Some t))) = "2002-10-02T15:00:00Z")
  /\ (exists t, @Time_Set table_library (Some (mkTime None)) "2002-10-02T15:00:00.05Z"
                = Ret (Some (mkTime (Some t)), None)
                /\ Time_String (Some (mkTime (Some t))) = "2002-10-02T15:00:00Z").
Proof.
  assert (Hvalid : rfc3339.valid
                     (rfc3339.mkDateTime 2002 10 2 false 15 0 0 (rfc3339.zulu false)))
    by (unfold rfc3339.valid; simpl;
        change (rfc3339.days_in_month 2002 10) with 31; lia).
  assert (Hcanonical : rfc3339.canonical
                         (rfc3339.mkDateTime 2002 10 2 false 15 0 0 (rfc3339.zulu false)))
    by (unfold rfc3339.canonical; simpl; split; [reflexivity|split; [lia|reflexivity]]).
  assert (Hfraction : rfc3339.secfrac "05")
    by (split; [discriminate|reflexivity]).
  split; [exact Hvalid|]. split; [exact Hcanonical|]. split; [exact Hfraction|].
  split; [reflexivity|]. split; [reflexivity|].
  destruct (@Time_round_trip table_library (mkTime None)
              (rfc3339.mkDateTime 2002 10 2 false 15 0 0 (rfc3339.zulu false)) "05"
              Hvalid Hcanonical) as [Hplain Hfractional].
  split; [exact Hplain|exact (Hfractional Hfraction)].
Defined.

(** The valid timestamp [2002-10-02T15:00:00+00:00] has no fraction of a
    second and is accepted, but [String] returns [2002-10-02T15:00:00Z]. *)
Lemma numeric_zero_offset_comes_back_as_Z :
  rfc3339.valid
    (rfc3339.mkDateTime 2002 10 2 false 15 0 0 (rfc3339.numoffset false 0 0))
  /\ rfc3339.text
       (rfc3339.mkDateTime 2002 10 2 false 15 0 0 (rfc3339.numoffset false 0 0))
     = "2002-10-02T15:00:00+00:00"
  /\ @Time_Set table_library (Some (mkTime None)) "2002-10-02T15:00:00+00:00"
     = Ret (Some (mkTime (Some (time.mkTime 2002 10 2 15 0 0 0 0))), None)
  /\ Time_String (Some (mkTime (Some (time.mkTime 2002 10 2 15 0 0 0 0))))
     = "2002-10-02T15:00:00Z"
  /\ "2002-10-02T15:00:00Z" <> "2002-10-02T15:00:00+00:00".
Proof.
  split; [unfold rfc3339.valid; simpl;
          change (rfc3339.days_in_month 2002 10) with 31; lia|].
  split; [reflexivity|]. split; [by vm_compute|]. split; [by vm_compute|]. discriminate.
Qed.

(** * Further properties of the code *)

(** ** The list adapters, continued *)

Lemma Split_from_comma_nonempty (s : string) : strings.Split_from "," s 0 <> [].
Proof.
  induction s as [|c s IH]; [done|]. cbn [strings.Split_from].
  destruct (strings.HasPrefix (String c s) ","); [done|].
  by destruct (strings.Split_from "," s 0).
Qed.

Lemma HasPrefix_empty (s : string) : strings.HasPrefix s "" = true.
Proof. by destruct s. Qed.

(** [strings.Join] undoes [strings.Split] at commas. *)
Lemma Join_Split_comma (s : string) : strings.Join (strings.Split_from "," s 0) "," = s.
Proof.
  induction s as [|c s IH]; [done|]. cbn [strings.Split_from strings.HasPrefix].
  pose proof (Split_from_comma_nonempty s) as Hne.
  destruct (Ascii.eqb_spec "," c) as [<-|Hc].
  - rewrite HasPrefix_empty. change (String.length "," - 1)%nat with 0%nat.
    rewrite Join_cons by done. by rewrite IH.
  - destruct (strings.Split_from "," s 0) as [|piece pieces]; [done|].
    destruct pieces as [|piece' pieces]; [by rewrite <- IH|].
    rewrite Join_cons by done. rewrite Join_cons in IH by done. by rewrite <- IH.
Qed.

Lemma Split_comma_pieces (s : string) :
  Forall (fun piece => strings.Contains piece "," = false) (strings.Split_from "," s 0).
Proof.
  induction s as [|c s IH]; [by repeat constructor|].
  cbn [strings.Split_from strings.HasPrefix].
  destruct (Ascii.eqb_spec "," c) as [<-|Hc].
  - rewrite HasPrefix_empty. by constructor.
  - assert (Hhead : forall piece, strings.Contains piece "," = false ->
                             strings.Contains (String c piece) "," = false).
    { intros piece Hpiece. cbn [strings.Contains strings.HasPrefix].
      destruct (Ascii.eqb_spec "," c) as [?|_]; [done|]. by rewrite Hpiece. }
    destruct (strings.Split_from "," s 0) as [|piece pieces].
    + constructor; [by apply Hhead|done].
    + inversion IH as [|? ? Hpiece Hpieces]; subst. constructor; [by apply Hhead|done].
Qed.

(** X1.  [StringSlice.Set] on a text that is not empty replaces the list by the
    pieces of the text between its commas: there is at least one piece, no
    piece holds a comma, and the pieces joined by commas spell the text. *)
Theorem StringSlice_Set_splits (l : StringSlice) (s : string) :
  s <> "" ->
  exists pieces,
    StringSlice_Set (Some l) s = Ret (Some pieces, None)
    /\ pieces <> []
    /\ Forall (fun piece => strings.Contains piece "," = false) pieces
    /\ strings.Join pieces "," = s.
Proof.
  intros Hs. exists (strings.Split s ","). unfold StringSlice_Set.
  rewrite bool_decide_eq_false_2 by done. unfold strings.Split.
  split; [done|]. split; [apply Split_from_comma_nonempty|].
  split; [apply Split_comma_pieces|apply Join_Split_comma].
Qed.

Lemma StringSlice_Set_splits_witness :
  exists pieces,
    StringSlice_Set (Some ["old"]) "foo,,bar" = Ret (Some pieces, None)
    /\ pieces <> []
    /\ Forall (fun piece => strings.Contains piece "," = false) pieces
    /\ strings.Join pieces "," = "foo,,bar".
Proof. apply (StringSlice_Set_splits ["old"] "foo,,bar"). discriminate. Defined.

Lemma length_append (s1 s2 : string) :
  String.length (s1 +:+ s2) = (String.length s1 + String.length s2)%nat.
Proof.
  induction s1 as [|c s1 IH]; [done|].
  change (String c s1 +:+ s2) with (String c (s1 +:+ s2)). simpl. by rewrite IH.
Qed.

Lemma Join_length_commas (l : list string) :
  (String.length (strings.Join l ",") <= String.length (strings.Join l "','"))%nat.
Proof.
  induction l as [|e l IH]; [done|]. destruct l as [|e' l]; [done|].
  rewrite (Join_cons "," e (e' :: l)), (Join_cons "','" e (e' :: l)) by done.
  rewrite !length_append.
  change (String.length ",") with 1%nat. change (String.length "','") with 3%nat. lia.
Qed.

Lemma StringSlice_Set_joins (l0 l : StringSlice) (s : string) :
  s <> "" -> StringSlice_Set (Some l0) s = Ret (Some l, None) -> strings.Join l "," = s.
Proof.
  intros Hs. unfold StringSlice_Set, strings.Split. rewrite bool_decide_eq_false_2 by done.
  intros [= <-]. apply Join_Split_comma.
Qed.

(** X2.  The text [String] shows for a list of strings is not what [Set] reads:
    [Set] on that text never gives the list back. *)
Theorem StringSlice_String_is_not_read_back (l0 l : StringSlice) :
  StringSlice_Set (Some l0) (StringSlice_String (Some l)) <> Ret (Some l, None).
Proof.
  unfold StringSlice_String. destruct l as [|e l]; [by vm_compute|].
  change (Z.of_nat (length (e :: l)) =? 0) with false. cbv iota.
  set (shown := "['" +:+ strings.Join (e :: l) "','" +:+ "']").
  intros Hjoin. apply StringSlice_Set_joins in Hjoin; [|done].
  apply (f_equal String.length) in Hjoin.
  pose proof (Join_length_commas (e :: l)) as Hle. unfold shown in Hjoin.
  rewrite !length_append in Hjoin.
  change (String.length "['") with 2%nat in Hjoin.
  change (String.length "']") with 2%nat in Hjoin. lia.
Qed.

Lemma IntSlice_Set_loop_reads (vs : list string) (acc r : IntSlice) :
  IntSlice_Set_loop vs acc = (r, None)
  <-> exists ns, Forall2 (fun tok n => strconv.Atoi tok = (n, None)) vs ns /\ r = acc ++ ns.
Proof.
  revert acc. induction vs as [|v vs IH]; intros acc; cbn [IntSlice_Set_loop].
  - split.
    + intros [= <-]. exists []. split; [constructor|by rewrite app_nil_r].
    + intros (ns & Hns & ->). inversion Hns. by rewrite app_nil_r.
  - destruct (strconv.Atoi v) as [i [err|]] eqn:Hv.
    + split; [done|]. intros (ns & Hns & _). inversion Hns; congruence.
    + rewrite IH. split.
      * intros (ns & Hns & ->). exists (i :: ns). split; [by constructor|].
        by rewrite <- app_assoc.
      * intros (ns & Hns & ->). inversion Hns as [|? n ? ns' Hn Hns']; subst.
        exists ns'. split; [done|]. rewrite <- app_assoc. simpl. congruence.
Qed.

(** X3.  [IntSlice.Set] on a text that is not empty succeeds exactly when
    [strconv.Atoi] reads every piece between the commas, and then the list
    is replaced by the numbers read, in the order of the pieces; what the
    list held before plays no part. *)
Theorem IntSlice_Set_reads_in_order (l0 : IntSlice) (s : string) (ns : list Z) :
  s <> "" ->
  (IntSlice_Set (Some l0) s = Ret (Some ns, None)
   <-> Forall2 (fun tok n => strconv.Atoi tok = (n, None)) (strings.Split s ",") ns).
Proof.
  intros Hs. unfold IntSlice_Set. rewrite bool_decide_eq_false_2 by done.
  destruct (IntSlice_Set_loop (strings.Split s ",") []) as [r err] eqn:Hloop. split.
  - intros [= -> ->]. apply IntSlice_Set_loop_reads in Hloop as (ns' & Hns & ->). done.
  - intros Hns.
    assert (Hgoal : IntSlice_Set_loop (strings.Split s ",") [] = (ns, None)).
    { apply IntSlice_Set_loop_reads. by exists ns. }
    rewrite Hgoal in Hloop. by injection Hloop as <- <-.
Qed.

Lemma IntSlice_Set_reads_in_order_witness :
  IntSlice_Set (Some [7; 8; 9]) "3,-1,+20" = Ret (Some [3; -1; 20], None).
Proof.
  apply (IntSlice_Set_reads_in_order [7; 8; 9] "3,-1,+20" [3; -1; 20]); [discriminate|].
  repeat constructor.
Defined.

Lemma Atoi_bracket (rest : string) :
  strconv.Atoi (String "[" rest) = (0, Some (NumError "Atoi" (String "[" rest) strconv_ErrSyntax)).
Proof. reflexivity. Qed.

(** X4.  The text [String] shows for a list of numbers is not what [Set] reads:
    [Set] on that text always fails, and leaves the list empty. *)
Theorem IntSlice_String_is_rejected (l0 l : IntSlice) :
  exists tok,
    IntSlice_Set (Some l0) (IntSlice_String (Some l))
    = Ret (Some [], Some (Errorf "parsing int: " (NumError "Atoi" tok strconv_ErrSyntax) "")).
Proof.
  assert (Hshown : exists rest, IntSlice_String (Some l) = String "[" rest).
  { unfold IntSlice_String. destruct (Z.of_nat (length l) =? 0); by eexists. }
  destruct Hshown as [rest ->]. unfold IntSlice_Set, strings.Split.
  rewrite bool_decide_eq_false_2 by done.
  cbn [strings.Split_from strings.HasPrefix Ascii.eqb Bool.eqb].
  destruct (strings.Split_from "," rest 0) as [|piece pieces];
    cbn [IntSlice_Set_loop]; rewrite Atoi_bracket; by eexists.
Qed.

(** ** Numbers *)

Lemma digit_value_range (c : ascii) : isDigit c = true -> 0 <= digit_value c <= 9.
Proof.
  unfold isDigit, byte_in, digit_value. change (N_of_ascii "0") with 48%N.
  change (N_of_ascii "9") with 57%N. rewrite andb_true_iff, !N.leb_le. lia.
Qed.

Lemma ParseUint_digits_range (maxVal : Z) (s : string) :
  forall n r, 0 <= n <= maxVal -> strconv.ParseUint_digits maxVal s n = inl r ->
              0 <= r <= maxVal.
Proof.
  induction s as [|c s IH]; intros n r Hn; cbn [strconv.ParseUint_digits].
  - by intros [= <-].
  - destruct (isDigit c) eqn:Hc; [|done]. cbn [negb].
    destruct (_ <=? n); [done|]. destruct (maxVal <? _) eqn:Hmax; [done|].
    apply IH. pose proof (digit_value_range c Hc). lia.
Qed.

Lemma ParseUint10_range (s : string) (bitSize n : Z) (err : option error) :
  0 <= strconv.bits bitSize ->
  strconv.ParseUint10 s bitSize = (n, err) -> 0 <= n <= 2 ^ strconv.bits bitSize - 1.
Proof.
  intros Hbits. assert (0 < 2 ^ strconv.bits bitSize) by (apply Z.pow_pos_nonneg; lia).
  unfold strconv.ParseUint10. destruct s as [|c s]; [intros [= <- _]; lia|].
  destruct (strconv.ParseUint_digits _ _ 0) as [r|e] eqn:Hdigits.
  - intros [= <- _]. apply ParseUint_digits_range in Hdigits; lia.
  - destruct e; intros [= <- _]; lia.
Qed.

Lemma ParseInt10_as_range (fn s : string) (bitSize n : Z) :
  1 <= strconv.bits bitSize ->
  strconv.ParseInt10_as fn s bitSize = (n, None) ->
  - 2 ^ (strconv.bits bitSize - 1) <= n < 2 ^ (strconv.bits bitSize - 1).
Proof.
  intros Hbits. unfold strconv.ParseInt10_as. destruct s as [|c s]; [done|].
  assert (0 < 2 ^ (strconv.bits bitSize - 1)) by (apply Z.pow_pos_nonneg; lia).
  destruct (strconv.ParseUint10 _ bitSize) as [un err] eqn:Hun.
  apply ParseUint10_range in Hun; [|lia].
  assert (Hcases :
    (if negb (Ascii.eqb c "-") && (2 ^ (strconv.bits bitSize - 1) <=? un)
     then (2 ^ (strconv.bits bitSize - 1) - 1, Some (NumError fn (String c s) strconv_ErrRange))
     else if Ascii.eqb c "-" && (2 ^ (strconv.bits bitSize - 1) <? un)
          then (- 2 ^ (strconv.bits bitSize - 1),
                Some (NumError fn (String c s) strconv_ErrRange))
          else (if Ascii.eqb c "-" then - un else un, None)) = (n, None) ->
    - 2 ^ (strconv.bits bitSize - 1) <= n < 2 ^ (strconv.bits bitSize - 1)).
  { destruct (Ascii.eqb c "-"); cbn [negb andb];
      [destruct (_ <? un) eqn:Hlt|destruct (_ <=? un) eqn:Hle]; intros [= <-]; lia. }
  repeat case_match; try done; apply Hcases.
Qed.

(** X5.  The numbers the walk stores fit the type of the field, with one
    restriction: a [uint] field takes a baseline below [2^32] only, because
    [parseUint] reads it with a bit size of 32. *)
Theorem numbers_fit_their_field (a a' : Act) (w w' : World) (p : path)
    (flag value usage : string) :
  (parseUint a w p flag value usage = Ret (a', w', None) ->
   exists n, memory w' !! p = Some (uint_of n) /\ 0 <= n < 2 ^ 32)
  /\ (parseUint64 a w p flag value usage = Ret (a', w', None) ->
      exists n, memory w' !! p = Some (uint64_of n) /\ 0 <= n < 2 ^ 64)
  /\ (parseInt a w p flag value usage = Ret (a', w', None) ->
      exists n, memory w' !! p = Some (int_of n) /\ - 2 ^ 63 <= n < 2 ^ 63)
  /\ (parseInt64 a w p flag value usage = Ret (a', w', None) ->
      exists n, memory w' !! p = Some (int64_of n) /\ - 2 ^ 63 <= n < 2 ^ 63).
Proof.
  assert (Hstored : forall vt v, register a w vt p v flag usage = Ret (a', w', None) ->
                                 memory w' !! p = Some v).
  { intros vt v Hreg. apply register_Ret in Hreg as (_ & -> & _). apply lookup_insert_eq. }
  unfold parseUint, parseUint64, parseInt, parseInt64, strconv.Atoi, strconv.ParseInt10.
  repeat split; case_bool_decide as Hvalue.
  - intros Hreg. exists 0. split; [by eapply Hstored|lia].
  - destruct (strconv.ParseUint10 value 32) as [n [err|]] eqn:Hn; [done|].
    intros Hreg. exists n. split; [by eapply Hstored|].
    apply ParseUint10_range in Hn; [|done]. change (strconv.bits 32) with 32 in Hn. lia.
  - intros Hreg. exists 0. split; [by eapply Hstored|lia].
  - destruct (strconv.ParseUint10 value 64) as [n [err|]] eqn:Hn; [done|].
    intros Hreg. exists n. split; [by eapply Hstored|].
    apply ParseUint10_range in Hn; [|done]. change (strconv.bits 64) with 64 in Hn. lia.
  - intros Hreg. exists 0. split; [by eapply Hstored|lia].
  - destruct (strconv.ParseInt10_as "Atoi" value 0) as [n [err|]] eqn:Hn; [done|].
    intros Hreg. exists n. split; [by eapply Hstored|].
    apply ParseInt10_as_range in Hn; [|done]. by change (strconv.bits 0 - 1) with 63 in Hn.
  - intros Hreg. exists 0. split; [by eapply Hstored|lia].
  - destruct (strconv.ParseInt10_as "ParseInt" value 64) as [n [err|]] eqn:Hn; [done|].
    intros Hreg. exists n. split; [by eapply Hstored|].
    apply ParseInt10_as_range in Hn; [|done]. by change (strconv.bits 64 - 1) with 63 in Hn.
Qed.

(** ** The walk, field after field *)

Lemma parse_fields_app {lib : Library}
    (recurse : reflect.Type_ -> Act -> World -> path -> list string -> string -> Step)
    (base : path) (flags : list string) (prefix : string)
    (fs1 fs2 : list reflect.StructField) :
  forall a w,
    parse_fields recurse base flags prefix (fs1 ++ fs2) a w
    = match parse_fields recurse base flags prefix fs1 a w with
      | Ret (a', w', None) => parse_fields recurse base flags prefix fs2 a' w'
      | r => r
      end.
Proof.
  induction fs1 as [|field fs1 IH]; intros a w; [done|].
  rewrite <- app_comm_cons. cbn [parse_fields].
  destruct (negb (reflect.IsExported field)); [done|]. cbv zeta.
  destruct field as [n pkg ft tag].
  by destruct (if recurses ft then _ else _) as [[[a' w'] [e|]]|pv].
Qed.

(** The binder a walk has returned has seen the help tokens already. *)
Lemma walk_keeps_help_mark {lib : Library} (fs : list reflect.StructField) (a a1 : Act)
    (w w1 : World) (base : path) (flags : list string) (prefix : string)
    (e : option error) :
  parse_fields parse_struct base flags prefix fs (parseHelp a flags) w = Ret (a1, w1, e) ->
  parseHelp a1 flags = a1.
Proof.
  intros Hrun.
  assert (Hkeeps : keeps_settings (parseHelp a flags, w) (a1, w1)).
  { apply (parse_struct_keeps_settings (reflect.struct_type fs) (parseHelp a flags) w base
             flags prefix a1 w1 e).
    cbn [parse_struct]. by rewrite parseHelp_twice. }
  destruct Hkeeps as (_ & _ & _ & Hhelp). cbn [fst] in Hhelp. apply parseHelp_again.
  destruct (parseHelp_keeps a flags) as (_ & _ & _ & _ & Hh). rewrite Hh in Hhelp.
  destruct (help_requested flags); [left; apply Hhelp, orb_true_r|by right].
Qed.

(** X6.  The walk over a record binds its fields one after the other: binding
    the fields [fs1 ++ fs2] is binding [fs1] and then, when that has returned
    without an error, binding [fs2] from the binder and the record as [fs1]
    left them.  An error or a panic in [fs1] ends the walk there: what the
    fields before it have registered and stored stays, and [fs2] is not
    looked at. *)
Theorem walk_in_sequence {lib : Library} (fs1 fs2 : list reflect.StructField) (a : Act)
    (w : World) (base : path) (flags : list string) (prefix : string) :
  parse_struct (reflect.struct_type (fs1 ++ fs2)) a w base flags prefix
  = match parse_struct (reflect.struct_type fs1) a w base flags prefix with
    | Ret (a', w', None) => parse_struct (reflect.struct_type fs2) a' w' base flags prefix
    | r => r
    end.
Proof.
  cbn [parse_struct]. rewrite parse_fields_app.
  destruct (parse_fields parse_struct base flags prefix fs1 (parseHelp a flags) w)
    as [[[a' w'] [e|]]|pv] eqn:Hfirst; try done.
  by rewrite (walk_keeps_help_mark fs1 a a' w w' base flags prefix None Hfirst).
Qed.

(** ** Where the walk stops *)

(** One turn of the loop of [parse] is the loop over one field. *)
Lemma parse_fields_turn {lib : Library} (field : reflect.StructField)
    (fs : list reflect.StructField) (a : Act) (w : World) (base : path)
    (flags : list string) (prefix : string) :
  parse_fields parse_struct base flags prefix (field :: fs) a w
  = match parse_fields parse_struct base flags prefix [field] a w with
    | Ret (a', w', None) => parse_fields parse_struct base flags prefix fs a' w'
    | r => r
    end.
Proof. apply (parse_fields_app parse_struct base flags prefix [field] fs). Qed.

(** When the turn of the loop at the field the walk has arrived at does not
    go on to the next field, because it returns an error or panics, the walk
    over the whole record ends as that turn does. *)
Lemma arrives_stops {lib : Library} (flags : list string) (t : reflect.Type_) (a a' : Act)
    (w w' : World) (base base' : path) (prefix prefix' : string)
    (field : reflect.StructField) (r : Step) :
  arrives flags t a w base prefix field a' w' base' prefix' ->
  parse_fields parse_struct base' flags prefix' [field] a' w' = r ->
  (forall a2 w2, r <> Ret (a2, w2, None)) ->
  parse_struct t a w base flags prefix = r.
Proof.
  intros Harrives Hturn Hstops.
  induction Harrives as [fs1 fs2 field a a1 w w1 base prefix Hfirst
                        |fs1 fs2 parent field a a1 a' w w1 w' base base' prefix prefix'
                           Hfirst Hexported Hrec Hbelow IH];
    cbn [parse_struct]; rewrite parse_fields_app, Hfirst, parse_fields_turn.
  - rewrite Hturn. destruct r as [[[a2 w2] [e|]]|pv]; try done. by destruct (Hstops a2 w2).
  - rewrite parse_fields_cons by done. rewrite Hrec, (IH Hturn).
    destruct r as [[[a2 w2] [e|]]|pv]; try done. by destruct (Hstops a2 w2).
Qed.

(** The walk arrives at fields it reaches only. *)
Lemma arrives_reaches {lib : Library} (flags : list string) (t : reflect.Type_) (a a' : Act)
    (w w' : World) (base base' : path) (prefix prefix' : string)
    (field : reflect.StructField) :
  arrives flags t a w base prefix field a' w' base' prefix' -> reaches t field.
Proof.
  induction 1 as [fs1 fs2 field a a1 w w1 base prefix Hfirst
                 |fs1 fs2 parent field a a1 a' w w1 w' base base' prefix prefix'
                    Hfirst Hexported Hrec Hbelow IH].
  - apply reaches_field. set_solver.
  - apply (reaches_below _ parent); [set_solver|done|done].
Qed.

(** The walk of [Parse] over the target record, as [parse] starts it. *)
Lemma parse_of_record {lib : Library} (a : Act) (w : World)
    (fields : list reflect.StructField) (base : path) (flags : list string)
    (prefix : string) :
  parse a w (pointer_to (reflect.struct_type fields) (Some base)) flags prefix
  = parse_struct (reflect.struct_type fields) a w base flags prefix.
Proof.
  unfold parse. cbn [reflect.Kind_of as_struct]. by rewrite bool_decide_eq_true_2.
Qed.

(** ** Leaves the walk cannot bind *)

(** A text that denotes a value for a leaf of a supported type is
    registered as the baseline of the leaf. *)
Lemma parseValue_registers {lib : Library} (a : Act) (w : World) (t : reflect.Type_)
    (p : path) (flag value usage : string) (vt : flag.ValueType) (v : Value) :
  flag_type t = Some vt -> baseline_value t value = Some v ->
  parseValue a w (reflect.Kind_of t) t p flag value usage = register a w vt p v flag usage.
Proof.
  unfold baseline_value, parseValue, parseBool, parseUint, parseUint64, parseInt, parseInt64,
    parseDuration, parseFloat64, parseStringSlice, parseIntSlice, parseURL, parseTime,
    StringSlice_Set, IntSlice_Set, URL_Set, Time_Set.
  destruct t; simpl; intros [= <-]; repeat case_match; intros; by simplify_eq.
Qed.

Lemma register_outcome (a : Act) (w : World) (vt : flag.ValueType) (p : path) (v : Value)
    (name usage : string) :
  (exists a' w', register a w vt p v name usage = Ret (a', w', None))
  \/ (exists msg, register a w vt p v name usage = Panic (flag_panic msg)).
Proof.
  unfold register, flag.Var. repeat case_match; simplify_eq; eauto.
Qed.

Lemma bind_leaf_registers {lib : Library} (a : Act) (w : World) (field : reflect.StructField)
    (p : path) (prefix : string) (vt : flag.ValueType) (v : Value) :
  flag_type (reflect.Type' field) = Some vt ->
  baseline_value (reflect.Type' field) (baseline_text a field prefix) = Some v ->
  bind_leaf a w field p prefix
  = register a w vt p v (flagName field prefix) (usage field (envVarName a field prefix) prefix).
Proof.
  intros Hvt Hv. unfold bind_leaf, baseline_text in *.
  destruct (lookupEnvFunc a (envVarName a field prefix)) as [value found].
  destruct (found && negb (help a));
    rewrite (parseValue_registers _ _ _ _ _ _ _ vt v Hvt Hv);
    by destruct (register_outcome a w vt p v (flagName field prefix)
                   (usage field (envVarName a field prefix) prefix))
      as [(a' & w' & ->)|(msg & ->)].
Qed.

Lemma flag_type_is_leaf (t : reflect.Type_) : is_Some (flag_type t) -> recurses t = false.
Proof. destruct t; by intros [vt [=]]. Qed.

(** X7.  Two leaves of one record must not come to the same flag name, as a
    field [MongoHost] and a field [Host] of a struct [Mongo] do, whichever
    of the two the walk comes to first and at whatever depth they are.  When
    the walk arrives at a leaf whose flag name is registered already, and the
    leaf is of a supported type and its text denotes a value, [Parse] panics
    in package flag, under every error handling policy. *)
Theorem redefined_flag_panics {lib : Library} (flags : list string)
    (fields : list reflect.StructField) (a a' : Act) (w w' : World) (base base' : path)
    (prefix' : string) (field : reflect.StructField) (fl : flag.Flag) :
  arrives flags (reflect.struct_type fields) a w base "" field a' w' base' prefix' ->
  reflect.IsExported field = true ->
  flag.formal (flagSet a') !! flagName field prefix' = Some fl ->
  is_Some (flag_type (reflect.Type' field)) ->
  is_Some (baseline_value (reflect.Type' field) (baseline_text a' field prefix')) ->
  exists msg,
    Parse a w (pointer_to (reflect.struct_type fields) (Some base)) flags
    = panicked (flag_panic msg).
Proof.
  intros Harrives Hexported Hfl [vt Hvt] [v Hv].
  assert (Hturn : exists msg,
            parse_fields parse_struct base' flags prefix' [field] a' w'
            = Panic (flag_panic msg)).
  { rewrite parse_fields_cons by done. rewrite flag_type_is_leaf by done.
    rewrite (bind_leaf_registers _ _ _ _ _ vt v) by done.
    unfold register, flag.Var. rewrite Hfl. repeat case_match; simplify_eq; by eexists. }
  destruct Hturn as [msg Hturn]. exists msg. unfold Parse.
  by rewrite parse_of_record, (arrives_stops _ _ _ _ _ _ _ _ _ _ _ _ Harrives Hturn).
Qed.

Lemma redefined_flag_panics_witness :
  exists msg,
    Parse (lib := table_library) (New empty_environment "cool" []) (mkWorld ∅ [])
      (pointer_to
         (reflect.struct_type
            [reflect.mkStructField "MongoHost" "" reflect.go_string [];
             reflect.mkStructField "Mongo" ""
               (reflect.struct_type
                  [reflect.mkStructField "Port" "" reflect.go_int [];
                   reflect.mkStructField "Host" "" reflect.go_string []]) []])
         (Some []))
      []
    = panicked (flag_panic msg).
Proof.
  eapply (@redefined_flag_panics table_library []
            [reflect.mkStructField "MongoHost" "" reflect.go_string [];
             reflect.mkStructField "Mongo" ""
               (reflect.struct_type
                  [reflect.mkStructField "Port" "" reflect.go_int [];
                   reflect.mkStructField "Host" "" reflect.go_string []]) []]
            (New empty_environment "cool" []) _ (mkWorld ∅ []) _ [] _ _
            (reflect.mkStructField "Host" "" reflect.go_string [])
            (flag.mkFlag "mongo-host" "mongo host (env COOL_MONGO_HOST)" flag.stringValue
               ["MongoHost"])).
  - eapply (arrives_below [] [reflect.mkStructField "MongoHost" "" reflect.go_string []] []
              (reflect.mkStructField "Mongo" ""
                 (reflect.struct_type
                    [reflect.mkStructField "Port" "" reflect.go_int [];
                     reflect.mkStructField "Host" "" reflect.go_string []]) [])).
    + reflexivity.
    + reflexivity.
    + reflexivity.
    + eapply (arrives_here [] [reflect.mkStructField "Port" "" reflect.go_int []] []).
      reflexivity.
  - reflexivity.
  - vm_compute. reflexivity.
  - by eexists.
  - by eexists.
Defined.

(** X8.  A leaf whose type is none of the twelve the binder knows is never
    bound.  For a type of kind bool, string, uint, uint64, int or float64
    that is not the predeclared type itself the unchecked type assertion of
    [parseValue] panics; for every other kind the walk fails with
    [ErrUnsupportedType], reported with the name of the field, the source of
    the text and the kind.  Nothing is registered or stored. *)
Theorem other_type_is_never_bound {lib : Library} (a : Act) (w : World)
    (field : reflect.StructField) (p : path) (prefix : string) (k : reflect.Kind) :
  reflect.Type' field = reflect.other_type k ->
  bind_leaf a w field p prefix
  = (if bool_decide (k ∈ [reflect.Bool; reflect.String; reflect.Uint; reflect.Uint64;
                          reflect.Int; reflect.Float64])
     then Panic type_assertion_failed
     else
       let source :=
         if (lookupEnvFunc a (envVarName a field prefix)).2 && negb (help a)
         then " env: " else " def: " in
       Ret (a, w, Some (Errorf (reflect.Name field +:+ source) (unsupported k) "")))
  /\ Error (unsupported k) = "parsing value: type not supported: " +:+ reflect.Kind_String k.
Proof.
  intros Ht. split; [|done]. unfold bind_leaf. rewrite Ht. cbn [reflect.Kind_of].
  destruct (lookupEnvFunc a (envVarName a field prefix)) as [value found]. cbn [snd].
  destruct (found && negb (help a)); by destruct k.
Qed.

Lemma other_type_is_never_bound_witness :
  bind_leaf (lib := table_library) (New empty_environment "test" []) (mkWorld ∅ [])
    (reflect.mkStructField "Port" "" (reflect.other_type reflect.Int16) [("def", "80")])
    ["Port"] ""
  = Ret (New empty_environment "test" [], mkWorld ∅ [],
         Some (Errorf "Port def: " (unsupported reflect.Int16) ""))
  /\ Error (Errorf "Port def: " (unsupported reflect.Int16) "")
     = "Port def: parsing value: type not supported: int16".
Proof.
  split; [|reflexivity].
  apply (@other_type_is_never_bound table_library (New empty_environment "test" [])
           (mkWorld ∅ [])
           (reflect.mkStructField "Port" "" (reflect.other_type reflect.Int16) [("def", "80")])
           ["Port"] "" reflect.Int16).
  reflexivity.
Defined.

(** What a successful walk over fields says of each of them. *)
Lemma parse_fields_each {lib : Library} (fs : list reflect.StructField) (base : path)
    (flags : list string) (prefix : string) :
  forall a w a1 w1 field,
    parse_fields parse_struct base flags prefix fs a w = Ret (a1, w1, None) ->
    field ∈ fs ->
    reflect.IsExported field = true
    /\ exists a' w' a'' w'',
         (if recurses (reflect.Type' field)
          then parse_struct (reflect.Type' field) a' w' (base ++ [reflect.Name field]) flags
                 (newPrefix field prefix)
          else bind_leaf a' w' field (base ++ [reflect.Name field]) prefix)
         = Ret (a'', w'', None).
Proof.
  induction fs as [|field0 fs IH]; intros a w a1 w1 field Hrun Hin; [by inversion Hin|].
  destruct (reflect.IsExported field0) eqn:Hexp;
    [|by cbn [parse_fields] in Hrun; rewrite Hexp in Hrun].
  rewrite parse_fields_cons in Hrun by done.
  destruct (if recurses (reflect.Type' field0) then _ else _)
    as [[[a' w'] [e'|]]|pv] eqn:Hstep; try done.
  apply elem_of_cons in Hin as [->|Hin]; [|by eapply IH].
  split; [done|]. by exists a, w, a', w'.
Qed.

(** X9.  When the walk over a record returns without an error, every field it
    has come to, at any depth, is exported and is either a struct the walk
    went into or a leaf of one of the twelve supported types. *)
Theorem walk_succeeds_on_supported_fields_only {lib : Library} (t : reflect.Type_)
    (field : reflect.StructField) :
  reaches t field ->
  forall a w base flags prefix a1 w1,
    parse_struct t a w base flags prefix = Ret (a1, w1, None) ->
    reflect.IsExported field = true
    /\ (recurses (reflect.Type' field) = true \/ is_Some (flag_type (reflect.Type' field))).
Proof.
  induction 1 as [fields field Hin|fields field below Hin Hrec Hbelow IH];
    intros a w base flags prefix a1 w1 Hrun; cbn [parse_struct] in Hrun;
    destruct (parse_fields_each _ _ _ _ _ _ _ _ _ Hrun Hin)
      as (Hexported & a' & w' & a'' & w'' & Hstep).
  - split; [done|]. destruct (recurses (reflect.Type' field)); [by left|right].
    apply bind_leaf_Ret in Hstep as (vt & _ & _ & -> & _). by eexists.
  - rewrite Hrec in Hstep. by eapply IH.
Qed.

Lemma walk_succeeds_on_supported_fields_only_witness :
  reflect.IsExported (reflect.mkStructField "Hosts" "" reflect.act_StringSlice []) = true
  /\ (recurses reflect.act_StringSlice = true \/ is_Some (flag_type reflect.act_StringSlice)).
Proof.
  assert (Hreaches :
    reaches
      (reflect.struct_type
         [reflect.mkStructField "Mongo" ""
            (reflect.struct_type [reflect.mkStructField "Hosts" "" reflect.act_StringSlice []])
            []])
      (reflect.mkStructField "Hosts" "" reflect.act_StringSlice [])).
  { eapply reaches_below; [constructor|reflexivity|]. apply reaches_field. constructor. }
  match eval vm_compute in
    (parse_struct (lib := table_library)
       (reflect.struct_type
          [reflect.mkStructField "Mongo" ""
             (reflect.struct_type [reflect.mkStructField "Hosts" "" reflect.act_StringSlice []])
             []])
       (New empty_environment "cool" []) (mkWorld ∅ []) [] [] "")
  with
  | Ret (?a1, ?w1, None) =>
      apply (@walk_succeeds_on_supported_fields_only table_library _ _ Hreaches
               (New empty_environment "cool" []) (mkWorld ∅ []) [] [] "" a1 w1)
  end.
  vm_compute. reflexivity.
Defined.

(** ** The command line *)

(** The flag the walk registers for a leaf has the dynamic type that goes
    with the type of the leaf. *)
Lemma parse_fields_registers_typed {lib : Library} (flags : list string) (p : path) :
  forall fields base prefix a w a1 w1 field pre,
    find_leaf fields p prefix = Some (field, pre) ->
    parse_fields parse_struct base flags prefix fields a w = Ret (a1, w1, None) ->
    exists fl, flag.formal (flagSet a1) !! flagName field pre = Some fl
               /\ flag_type (reflect.Type' field) = Some (flag.Value_type fl).
Proof.
  induction p as [|n rest IHp]; [done|].
  intros fields. induction fields as [|field0 fields IHf];
    intros base prefix a w a1 w1 field pre Hleaf Hrun; [done|].
  cbn [find_leaf find_field] in Hleaf.
  destruct (reflect.IsExported field0) eqn:Hexp;
    [|by cbn [parse_fields] in Hrun; rewrite Hexp in Hrun].
  rewrite parse_fields_cons in Hrun by done.
  destruct (if recurses (reflect.Type' field0) then _ else _)
    as [[[a' w'] [e'|]]|pv] eqn:Hstep; try done.
  case_bool_decide as Hname; [|by eapply IHf].
  assert (Hstays : forall fl, flag.formal (flagSet a') !! flagName field pre = Some fl ->
                              flag.formal (flagSet a1) !! flagName field pre = Some fl).
  { intros fl Hfl.
    by destruct (parse_fields_touches_only fields base flags prefix a' w' a1 w1 None Hrun)
      as (_ & _ & Hkept); apply Hkept. }
  destruct (recurses (reflect.Type' field0)) eqn:Hrec.
  - destruct (reflect.Type' field0) as [| | | | | | | | | | | |fs'|k] eqn:Hft; try done.
    cbn [parse_struct] in Hstep.
    destruct (IHp _ _ _ _ _ _ _ _ _ Hleaf Hstep) as (fl & Hfl & Htype).
    exists fl. split; [by apply Hstays|done].
  - destruct rest; [|done]. injection Hleaf as <- <-.
    apply bind_leaf_Ret in Hstep as (vt & v & f' & Hvt & _ & Hvar & -> & _).
    apply Var_Ret in Hvar as (_ & ->). eexists.
    split; [apply Hstays; apply lookup_insert_eq|exact Hvt].
Qed.

(** [f.Parse] on an argument [-name=value] for a registered flag whose
    [Set] accepts the value: the variable receives what [Set] makes of the
    value, and the parse goes on. *)
Lemma flag_Parse_sets {lib : Library} (f : flag.FlagSet) (w : World) (tok : string)
    (rest : list string) (name value : string) (fl : flag.Flag) (v : Value) :
  flag.classify tok = flag.named name value true ->
  flag.formal f !! name = Some fl ->
  flag.Value_Set (flag.Value_type fl) (memory w !! flag.Value_pointer fl) value
  = Ret (v, None) ->
  flag.Parse f w (tok :: rest)
  = flag.Parse (flag.record_actual f fl) (store w (flag.Value_pointer fl) v) rest.
Proof.
  intros Htok Hfl Hset. cbn [flag.Parse]. rewrite Htok, Hfl. unfold flag.set_flag.
  rewrite Hset. by destruct (flag.IsBoolFlag (flag.Value_type fl)).
Qed.

(** When [f.Parse] starts by setting the variable of a leaf to [v] and none
    of the arguments it goes on with names the flag of the leaf, the field's
    final value is [v]. *)
Lemma first_flag_decides {lib : Library}
    (LookupEnv : string -> string * bool) (nm : string) (opts : list Option) (w : World)
    (fields : list reflect.StructField) (flags rest : list string) (p : path)
    (field : reflect.StructField) (prefix : string) (a1 : Act) (w1 : World) (v : Value) :
  help_requested flags = false ->
  distinct_along fields p ->
  find_leaf fields p "" = Some (field, prefix) ->
  parse (New LookupEnv nm opts) w (pointer_to (reflect.struct_type fields) (Some [])) flags ""
  = Ret (a1, w1, None) ->
  (forall later, later ∈ rest ->
     forall v' h, flag.classify later <> flag.named (flagName field prefix) v' h) ->
  (forall fl, flag.formal (flagSet a1) !! flagName field prefix = Some fl ->
              flag.Value_pointer fl = p ->
              flag_type (reflect.Type' field) = Some (flag.Value_type fl) ->
              flag.Parse (flagSet a1) w1 flags
              = flag.Parse (flag.record_actual (flagSet a1) fl) (store w1 p v) rest) ->
  field_ends_as (New LookupEnv nm opts) a1 w w1
    (pointer_to (reflect.struct_type fields) (Some [])) flags p v.
Proof.
  intros Hhelp Hdist Hleaf Hwalk Hrest Hfirst.
  destruct (New_is_fresh LookupEnv nm opts) as (Hfresh & _ & _).
  set (a := New LookupEnv nm opts) in *.
  destruct (parseHelp_keeps a flags) as (Hfs & _).
  assert (Hbound : bound_at (parseHelp a flags) a1 w1 p field (flagName field prefix)
                     (baseline_text (parseHelp a flags) field prefix))
    by (by apply (parse_fields_binds_leaf flags p Hhelp fields [] "" (parseHelp a flags) w)).
  destruct Hbound as (v0 & vt0 & u & _ & _ & Hflag & Hunique).
  destruct (parse_fields_registers_typed flags p fields [] "" (parseHelp a flags) w a1 w1
              field prefix Hleaf Hwalk) as (fl & Hfl & Htype).
  rewrite Hflag in Hfl. injection Hfl as <-.
  specialize (Hfirst _ Hflag eq_refl Htype).
  destruct (flag_Parse_frame (flagName field prefix) p (length rest) rest
              (flag.record_actual (flagSet a1)
                 (flag.mkFlag (flagName field prefix) u vt0 p))
              (store w1 p v)) as (f2 & w2 & e2 & HP & Hm2); [done|done| |].
  { intros n fl Hfl Hptr. destruct (Hunique n fl Hfl Hptr) as [?|Hold]; [done|].
    rewrite Hfs, Hfresh in Hold. by rewrite lookup_empty in Hold. }
  rewrite <- Hfirst in HP. simpl in Hm2. rewrite lookup_insert_eq in Hm2.
  assert (HParse : Parse a w (pointer_to (reflect.struct_type fields) (Some [])) flags
                   = exit (with_flagSet a1 f2) w2 e2).
  { unfold Parse. by rewrite Hwalk, HP. }
  split.
  - by exists f2, w2, e2.
  - intros wf. rewrite HParse. intros Hwf. apply exit_final_world in Hwf. by rewrite Hwf.
Qed.

(** X10.  A flag on the command line overrides the environment and the [def]
    annotation.  Take a new binder, a record whose walk succeeds, and
    arguments without a help token that start with [-name=value] for the
    flag name of a leaf and do not name that flag again.  When [Set] of the
    flag accepts the value, the field's final value is what [Set] makes of
    it, whatever baseline the walk has given the field. *)
Theorem command_line_overrides_environment {lib : Library}
    (LookupEnv : string -> string * bool) (nm : string) (opts : list Option) (w : World)
    (fields : list reflect.StructField) (tok : string) (rest : list string) (p : path)
    (field : reflect.StructField) (prefix value : string) (a1 : Act) (w1 : World)
    (vt : flag.ValueType) (v : Value) :
  help_requested (tok :: rest) = false ->
  distinct_along fields p ->
  find_leaf fields p "" = Some (field, prefix) ->
  flag.classify tok = flag.named (flagName field prefix) value true ->
  (forall later, later ∈ rest ->
     forall v' h, flag.classify later <> flag.named (flagName field prefix) v' h) ->
  parse (New LookupEnv nm opts) w (pointer_to (reflect.struct_type fields) (Some []))
    (tok :: rest) ""
  = Ret (a1, w1, None) ->
  flag_type (reflect.Type' field) = Some vt ->
  flag.Value_Set vt (memory w1 !! p) value = Ret (v, None) ->
  field_ends_as (New LookupEnv nm opts) a1 w w1
    (pointer_to (reflect.struct_type fields) (Some [])) (tok :: rest) p v.
Proof.
  intros Hhelp Hdist Hleaf Htok Hrest Hwalk Hvt Hset.
  apply (first_flag_decides LookupEnv nm opts w fields (tok :: rest) rest p field prefix);
    try done.
  intros fl Hfl Hptr Htype. rewrite <- Hptr.
  eapply flag_Parse_sets; [exact Htok|exact Hfl|].
  rewrite Hptr. by assert (flag.Value_type fl = vt) as -> by congruence.
Qed.

Lemma command_line_overrides_environment_witness :
  exists a2 w2,
    Parse (lib := table_library)
      (New (fun _ => ("2", true)) "test" [WithErrorHandling flag.ContinueOnError])
      (mkWorld ∅ [])
      (pointer_to (reflect.struct_type
                     [reflect.mkStructField "Port" "" reflect.go_int [("def", "1")]])
         (Some []))
      ["-port=3"]
    = returned a2 w2 None
    /\ memory w2 !! ["Port"] = Some (int_of 3).
Proof.
  match eval vm_compute in
    (parse (lib := table_library)
       (New (fun _ => ("2", true)) "test" [WithErrorHandling flag.ContinueOnError])
       (mkWorld ∅ [])
       (pointer_to (reflect.struct_type
                      [reflect.mkStructField "Port" "" reflect.go_int [("def", "1")]])
          (Some []))
       ["-port=3"] "")
  with
  | Ret (?a1, ?w1, None) =>
      destruct (@command_line_overrides_environment table_library
                  (fun _ => ("2", true)) "test" [WithErrorHandling flag.ContinueOnError]
                  (mkWorld ∅ [])
                  [reflect.mkStructField "Port" "" reflect.go_int [("def", "1")]]
                  "-port=3" [] ["Port"]
                  (reflect.mkStructField "Port" "" reflect.go_int [("def", "1")]) "" "3"
                  a1 w1 flag.intValue (int_of 3))
        as [_ Hfinal]
  end.
  - reflexivity.
  - split; [repeat constructor; set_solver|done].
  - reflexivity.
  - reflexivity.
  - intros later Hlater. by apply elem_of_nil in Hlater.
  - vm_compute. reflexivity.
  - reflexivity.
  - reflexivity.
  - eexists _, _. split; [reflexivity|]. apply Hfinal. reflexivity.
Defined.

(** X11.  A boolean flag takes no separate value.  Take a new binder, a record
    whose walk succeeds, and arguments without a help token that start with
    the bare flag [-name] of a leaf of type bool and do not name that flag
    again.  The field's final value is true, whatever the environment and
    the [def] annotation say and whatever argument follows: a following
    [false] is not read as the value of the flag. *)
Theorem bare_boolean_flag_sets_true {lib : Library}
    (LookupEnv : string -> string * bool) (nm : string) (opts : list Option) (w : World)
    (fields : list reflect.StructField) (tok : string) (rest : list string) (p : path)
    (field : reflect.StructField) (prefix value : string) (a1 : Act) (w1 : World) :
  help_requested (tok :: rest) = false ->
  distinct_along fields p ->
  find_leaf fields p "" = Some (field, prefix) ->
  reflect.Type' field = reflect.go_bool ->
  flag.classify tok = flag.named (flagName field prefix) value false ->
  (forall later, later ∈ rest ->
     forall v' h, flag.classify later <> flag.named (flagName field prefix) v' h) ->
  parse (New LookupEnv nm opts) w (pointer_to (reflect.struct_type fields) (Some []))
    (tok :: rest) ""
  = Ret (a1, w1, None) ->
  field_ends_as (New LookupEnv nm opts) a1 w w1
    (pointer_to (reflect.struct_type fields) (Some [])) (tok :: rest) p (bool_of true).
Proof.
  intros Hhelp Hdist Hleaf Hbool Htok Hrest Hwalk.
  apply (first_flag_decides LookupEnv nm opts w fields (tok :: rest) rest p field prefix);
    try done.
  intros fl Hfl Hptr Htype. rewrite Hbool in Htype. injection Htype as Htype.
  cbn [flag.Parse]. rewrite Htok, Hfl. unfold flag.set_flag. rewrite <- Htype, Hptr. done.
Qed.

Lemma bare_boolean_flag_sets_true_witness :
  exists a2 w2,
    Parse (lib := table_library)
      (New (fun _ => ("false", true)) "test" [WithErrorHandling flag.ContinueOnError])
      (mkWorld ∅ [])
      (pointer_to (reflect.struct_type
                     [reflect.mkStructField "Debug" "" reflect.go_bool [("def", "false")]])
         (Some []))
      ["-debug"; "false"]
    = returned a2 w2 None
    /\ memory w2 !! ["Debug"] = Some (bool_of true).
Proof.
  match eval vm_compute in
    (parse (lib := table_library)
       (New (fun _ => ("false", true)) "test" [WithErrorHandling flag.ContinueOnError])
       (mkWorld ∅ [])
       (pointer_to (reflect.struct_type
                      [reflect.mkStructField "Debug" "" reflect.go_bool [("def", "false")]])
          (Some []))
       ["-debug"; "false"] "")
  with
  | Ret (?a1, ?w1, None) =>
      destruct (@bare_boolean_flag_sets_true table_library
                  (fun _ => ("false", true)) "test" [WithErrorHandling flag.ContinueOnError]
                  (mkWorld ∅ [])
                  [reflect.mkStructField "Debug" "" reflect.go_bool [("def", "false")]]
                  "-debug" ["false"] ["Debug"]
                  (reflect.mkStructField "Debug" "" reflect.go_bool [("def", "false")]) "" ""
                  a1 w1)
        as [_ Hfinal]
  end.
  - reflexivity.
  - split; [repeat constructor; set_solver|done].
  - reflexivity.
  - reflexivity.
  - reflexivity.
  - intros later Hlater. apply elem_of_cons in Hlater as [->|Hlater]; [by vm_compute|].
    by apply elem_of_nil in Hlater.
  - vm_compute. reflexivity.
  - eexists _, _. split; [reflexivity|]. apply Hfinal. reflexivity.
Defined.

(** X12.  A flag of another type takes the argument that follows it.  Take a new
    binder, a record whose walk succeeds, and arguments without a help token
    that start with the bare flag [-name] of a leaf that is not of type bool,
    followed by a value, and that do not name the flag again.  When [Set] of
    the flag accepts the value, the field's final value is what [Set] makes
    of it. *)
Theorem following_argument_is_the_value {lib : Library}
    (LookupEnv : string -> string * bool) (nm : string) (opts : list Option) (w : World)
    (fields : list reflect.StructField) (tok next : string) (rest : list string) (p : path)
    (field : reflect.StructField) (prefix value : string) (a1 : Act) (w1 : World)
    (vt : flag.ValueType) (v : Value) :
  help_requested (tok :: next :: rest) = false ->
  distinct_along fields p ->
  find_leaf fields p "" = Some (field, prefix) ->
  flag.classify tok = flag.named (flagName field prefix) value false ->
  (forall later, later ∈ rest ->
     forall v' h, flag.classify later <> flag.named (flagName field prefix) v' h) ->
  parse (New LookupEnv nm opts) w (pointer_to (reflect.struct_type fields) (Some []))
    (tok :: next :: rest) ""
  = Ret (a1, w1, None) ->
  flag_type (reflect.Type' field) = Some vt ->
  flag.IsBoolFlag vt = false ->
  flag.Value_Set vt (memory w1 !! p) next = Ret (v, None) ->
  field_ends_as (New LookupEnv nm opts) a1 w w1
    (pointer_to (reflect.struct_type fields) (Some [])) (tok :: next :: rest) p v.
Proof.
  intros Hhelp Hdist Hleaf Htok Hrest Hwalk Hvt Hnobool Hset.
  apply (first_flag_decides LookupEnv nm opts w fields (tok :: next :: rest) rest p field
           prefix); try done.
  intros fl Hfl Hptr Htype. assert (flag.Value_type fl = vt) as Hfl_vt by congruence.
  cbn [flag.Parse]. rewrite Htok, Hfl, Hfl_vt, Hnobool. unfold flag.set_flag.
  by rewrite Hfl_vt, Hptr, Hset.
Qed.

Lemma following_argument_is_the_value_witness :
  exists a2 w2,
    Parse (lib := table_library)
      (New (fun _ => ("2", true)) "test" [WithErrorHandling flag.ContinueOnError])
      (mkWorld ∅ [])
      (pointer_to (reflect.struct_type
                     [reflect.mkStructField "Port" "" reflect.go_int [("def", "1")]])
         (Some []))
      ["-port"; "3"]
    = returned a2 w2 None
    /\ memory w2 !! ["Port"] = Some (int_of 3).
Proof.
  match eval vm_compute in
    (parse (lib := table_library)
       (New (fun _ => ("2", true)) "test" [WithErrorHandling flag.ContinueOnError])
       (mkWorld ∅ [])
       (pointer_to (reflect.struct_type
                      [reflect.mkStructField "Port" "" reflect.go_int [("def", "1")]])
          (Some []))
       ["-port"; "3"] "")
  with
  | Ret (?a1, ?w1, None) =>
      destruct (@following_argument_is_the_value table_library
                  (fun _ => ("2", true)) "test" [WithErrorHandling flag.ContinueOnError]
                  (mkWorld ∅ [])
                  [reflect.mkStructField "Port" "" reflect.go_int [("def", "1")]]
                  "-port" "3" [] ["Port"]
                  (reflect.mkStructField "Port" "" reflect.go_int [("def", "1")]) "" ""
                  a1 w1 flag.intValue (int_of 3))
        as [_ Hfinal]
  end.
  - reflexivity.
  - split; [repeat constructor; set_solver|done].
  - reflexivity.
  - reflexivity.
  - intros later Hlater. by apply elem_of_nil in Hlater.
  - vm_compute. reflexivity.
  - reflexivity.
  - reflexivity.
  - reflexivity.
  - eexists _, _. split; [reflexivity|]. apply Hfinal. reflexivity.
Defined.

(** X13.  An empty value on the command line does not clear a list.  [Set] of
    the list adapters returns at once on the empty text, so after
    [-name=] for the flag of a [StringSlice] or [IntSlice] leaf the field
    still holds the baseline the walk gave it from the environment or the
    [def] annotation. *)
Theorem empty_flag_value_keeps_the_list {lib : Library}
    (LookupEnv : string -> string * bool) (nm : string) (opts : list Option) (w : World)
    (fields : list reflect.StructField) (tok : string) (rest : list string) (p : path)
    (field : reflect.StructField) (prefix : string) (a1 : Act) (w1 : World) :
  help_requested (tok :: rest) = false ->
  distinct_along fields p ->
  find_leaf fields p "" = Some (field, prefix) ->
  flag.classify tok = flag.named (flagName field prefix) "" true ->
  (forall later, later ∈ rest ->
     forall v' h, flag.classify later <> flag.named (flagName field prefix) v' h) ->
  parse (New LookupEnv nm opts) w (pointer_to (reflect.struct_type fields) (Some []))
    (tok :: rest) ""
  = Ret (a1, w1, None) ->
  (forall l, reflect.Type' field = reflect.act_StringSlice ->
             memory w1 !! p = Some (StringSlice_of l) ->
             field_ends_as (New LookupEnv nm opts) a1 w w1
               (pointer_to (reflect.struct_type fields) (Some [])) (tok :: rest) p
               (StringSlice_of l))
  /\ (forall l, reflect.Type' field = reflect.act_IntSlice ->
                memory w1 !! p = Some (IntSlice_of l) ->
                field_ends_as (New LookupEnv nm opts) a1 w w1
                  (pointer_to (reflect.struct_type fields) (Some [])) (tok :: rest) p
                  (IntSlice_of l)).
Proof.
  intros Hhelp Hdist Hleaf Htok Hrest Hwalk.
  split; intros l Htype Hmem;
    apply (first_flag_decides LookupEnv nm opts w fields (tok :: rest) rest p field prefix);
    try done;
    intros fl Hfl Hptr Hfl_type; rewrite Htype in Hfl_type; injection Hfl_type as Hfl_type;
    rewrite <- Hptr; (eapply flag_Parse_sets; [exact Htok|exact Hfl|]);
    by rewrite Hptr, Hmem, <- Hfl_type.
Qed.

Lemma empty_flag_value_keeps_the_list_witness :
  exists a2 w2,
    Parse (lib := table_library)
      (New (fun _ => ("a,b", true)) "test" [WithErrorHandling flag.ContinueOnError])
      (mkWorld ∅ [])
      (pointer_to (reflect.struct_type
                     [reflect.mkStructField "Hosts" "" reflect.act_StringSlice []])
         (Some []))
      ["-hosts="]
    = returned a2 w2 None
    /\ memory w2 !! ["Hosts"] = Some (StringSlice_of ["a"; "b"]).
Proof.
  match eval vm_compute in
    (parse (lib := table_library)
       (New (fun _ => ("a,b", true)) "test" [WithErrorHandling flag.ContinueOnError])
       (mkWorld ∅ [])
       (pointer_to (reflect.struct_type
                      [reflect.mkStructField "Hosts" "" reflect.act_StringSlice []])
          (Some []))
       ["-hosts="] "")
  with
  | Ret (?a1, ?w1, None) =>
      destruct (@empty_flag_value_keeps_the_list table_library
                  (fun _ => ("a,b", true)) "test" [WithErrorHandling flag.ContinueOnError]
                  (mkWorld ∅ [])
                  [reflect.mkStructField "Hosts" "" reflect.act_StringSlice []]
                  "-hosts=" [] ["Hosts"]
                  (reflect.mkStructField "Hosts" "" reflect.act_StringSlice []) ""
                  a1 w1)
        as [Hstrings _]
  end.
  - reflexivity.
  - split; [repeat constructor; set_solver|done].
  - reflexivity.
  - reflexivity.
  - intros later Hlater. by apply elem_of_nil in Hlater.
  - vm_compute. reflexivity.
  - destruct (Hstrings ["a"; "b"] eq_refl eq_refl) as [_ Hfinal].
    eexists _, _. split; [reflexivity|]. apply Hfinal. reflexivity.
Defined.

(** ** What the walk leaves alone *)

(** A leaf is bound, or rejected with an error, or the binding panics: on
    the type assertion of [parseValue], or in [f.Var] with one of its
    messages. *)
Lemma bind_leaf_panics {lib : Library} (a : Act) (w : World) (field : reflect.StructField)
    (p : path) (prefix : string) (pv : PanicValue) :
  bind_leaf a w field p prefix = Panic pv ->
  pv = type_assertion_failed
  \/ exists msg, pv = flag_panic msg
                 /\ Var_panics_with (flagSet a) (flagName field prefix) msg.
Proof.
  unfold bind_leaf, parseValue, parseBool, parseUint, parseUint64, parseInt, parseInt64,
    parseDuration, parseFloat64, parseStringSlice, parseIntSlice, parseURL, parseTime,
    register, flag.Var, StringSlice_Set, IntSlice_Set, URL_Set, Time_Set, Var_panics_with.
  repeat case_match; simplify_eq; intros [= <-]; eauto 6.
Qed.

(** A panic of the walk is the panic of package reflect on a field that is
    not exported, or the panic of binding a leaf the walk has come to
    through steps that have returned. *)
Lemma parse_struct_panics {lib : Library} (R : Act * World -> Act * World -> Prop)
    (flags : list string) :
  (forall x, R x x) ->
  (forall x y z, R x y -> R y z -> R x z) ->
  (forall a w, R (a, w) (parseHelp a flags, w)) ->
  (forall a w field p prefix, respects R a w (bind_leaf a w field p prefix)) ->
  forall t a w base prefix pv,
    parse_struct t a w base flags prefix = Panic pv ->
    (exists msg, pv = reflect_panic msg)
    \/ exists a' w' field p pre,
         R (a, w) (a', w') /\ bind_leaf a' w' field p pre = Panic pv.
Proof.
  intros Hrefl Htrans Hhelp Hleaf t.
  induction t as [t IH] using struct_type_induction. intros a w base prefix pv.
  destruct t as [| | | | | | | | | | | |fields|k]; try done.
  cbn [parse_struct]. specialize (IH fields eq_refl).
  assert (Hfields : forall a0 w0,
            parse_fields parse_struct base flags prefix fields a0 w0 = Panic pv ->
            (exists msg, pv = reflect_panic msg)
            \/ exists a' w' field p pre,
                 R (a0, w0) (a', w') /\ bind_leaf a' w' field p pre = Panic pv).
  { induction fields as [|field fields IHf]; intros a0 w0; [done|].
    inversion IH as [|? ? Hfield Hrest]; subst.
    destruct (reflect.IsExported field) eqn:Hexp;
      [|cbn [parse_fields]; rewrite Hexp; intros [= <-]; left; by eexists].
    rewrite parse_fields_cons by done.
    destruct (if recurses (reflect.Type' field) then _ else _)
      as [[[a1 w1] [e1|]]|pv1] eqn:Hstep; try done.
    - assert (Hstepped : R (a0, w0) (a1, w1)).
      { destruct (recurses (reflect.Type' field)).
        - by eapply (parse_struct_respects R flags).
        - by eapply Hleaf. }
      intros Hlater. destruct (IHf Hrest a1 w1 Hlater)
        as [?|(a' & w' & f' & p' & pre' & HR & Hpanic)]; [by left|right].
      exists a', w', f', p', pre'. split; [by eapply Htrans; [exact Hstepped|]|done].
    - intros [= ->]. destruct (recurses (reflect.Type' field)).
      + by eapply Hfield.
      + right. by exists a0, w0, field, (base ++ [reflect.Name field]), prefix. }
  intros Hpanic. destruct (Hfields _ _ Hpanic)
    as [?|(a' & w' & f' & p' & pre' & HR & Hbind)]; [by left|right].
  exists a', w', f', p', pre'. split; [by eapply Htrans; [apply Hhelp|]|done].
Qed.

(** X14.  A walk that returns, with or without an error, has printed nothing
    and has marked no flag as set: it has changed neither what the output
    writer has received, nor the flags seen on the command line, nor the name
    and the usage function of the flag set.  A walk prints only where it
    panics in package flag: [f.Var] prints the message of its panic before it
    panics, and that message says of one flag name that it begins with a
    hyphen, contains an equals sign or is defined already. *)
Theorem walk_is_silent {lib : Library} (a : Act) (w : World) (config : Config)
    (flags : list string) (prefix : string) :
  match parse a w config flags prefix with
  | Ret (a', w', _) =>
      sink w' = sink w
      /\ flag.actual (flagSet a') = flag.actual (flagSet a)
      /\ flag.name (flagSet a') = flag.name (flagSet a)
      /\ flag.Usage_parent (flagSet a') = flag.Usage_parent (flagSet a)
  | Panic (flag_panic msg) => exists name, Var_panics_with (flagSet a) name msg
  | Panic _ => True
  end.
Proof.
  set (R := fun x y : Act * World =>
              sink y.2 = sink x.2
              /\ flag.actual (flagSet y.1) = flag.actual (flagSet x.1)
              /\ flag.name (flagSet y.1) = flag.name (flagSet x.1)
              /\ flag.Usage_parent (flagSet y.1) = flag.Usage_parent (flagSet x.1)).
  assert (Hrefl : forall x, R x x) by done.
  assert (Htrans : forall x y z, R x y -> R y z -> R x z).
  { intros x y z (? & ? & ? & ?) (? & ? & ? & ?). unfold R. intuition congruence. }
  assert (Hhelp : forall a0 w0, R (a0, w0) (parseHelp a0 flags, w0)).
  { intros a0 w0. destruct (parseHelp_keeps a0 flags) as (Hfs & _). unfold R. simpl.
    by rewrite Hfs. }
  assert (Hleaf : forall a0 w0 field p pre, respects R a0 w0 (bind_leaf a0 w0 field p pre)).
  { intros a0 w0 field p pre a1 w1 e1 Hret. apply bind_leaf_Ret in Hret.
    destruct e1 as [err|]; [by destruct Hret as (-> & ->)|].
    destruct Hret as (vt & v & f' & _ & _ & Hvar & -> & ->).
    by apply Var_Ret in Hvar as (_ & ->). }
  destruct (parse a w config flags prefix) as [[[a' w'] e]|pv] eqn:Hwalk.
  - change (R (a, w) (a', w')). unfold parse in Hwalk.
    destruct config as [|elem [base|]|]; try (injection Hwalk as <- <- <-; apply Hhelp).
    + case_match; [injection Hwalk as <- <- <-; apply Hhelp|].
      by eapply (parse_struct_respects R flags).
    + case_match; [injection Hwalk as <- <- <-; apply Hhelp|done].
  - destruct pv as [| |text|msg|err]; try done. unfold parse in Hwalk.
    destruct config as [|elem [base|]|]; try done; case_match; try done.
    destruct (parse_struct_panics R flags Hrefl Htrans Hhelp Hleaf _ _ _ _ _ _ Hwalk)
      as [[? [=]]|(a' & w' & field & p & pre & (_ & _ & Hname & _) & Hbind)].
    apply bind_leaf_panics in Hbind as [[=]|(msg' & [= <-] & Hmsg)].
    exists (flagName field pre). unfold Var_panics_with in *. cbn [fst] in Hname.
    by rewrite <- Hname.
Qed.

(** A flag name that is defined already: what the walk prints and panics
    with. *)
Example walk_prints_the_redefined_flag :
  parse (lib := table_library) (New empty_environment "cool" []) (mkWorld ∅ [])
    (pointer_to
       (reflect.struct_type
          [reflect.mkStructField "MongoHost" "" reflect.go_string [];
           reflect.mkStructField "Mongo" ""
             (reflect.struct_type [reflect.mkStructField "Host" "" reflect.go_string []]) []])
       (Some []))
    [] ""
  = Panic (flag_panic "cool flag redefined: mongo-host").
Proof. reflexivity. Qed.

(** ** The error handling policies *)

(** [f.Parse] always returns. *)
Lemma flag_Parse_returns {lib : Library} (k : nat) :
  forall args f w,
    (length args <= k)%nat -> exists f' w' e, flag.Parse f w args = Ret (f', w', e).
Proof.
  induction k as [|k IH]; intros args f w Hlen.
  { destruct args; [|simpl in Hlen; lia]. by eexists _, _, _. }
  destruct args as [|s args]; [by eexists _, _, _|].
  simpl in Hlen. cbn [flag.Parse].
  destruct (flag.classify s) as [| | |name value hasValue]; try (by eexists _, _, _).
  destruct (flag.formal f !! name) as [fl|]; [|case_match; by eexists _, _, _].
  destruct (flag.IsBoolFlag (flag.Value_type fl)).
  - destruct (set_flag_Ret w fl (if hasValue then value else "true")) as (v & err & ->).
    destruct err as [err|]; [by eexists _, _, _|]. apply IH. lia.
  - destruct hasValue.
    + destruct (set_flag_Ret w fl value) as (v & err & ->).
      destruct err as [err|]; [by eexists _, _, _|]. apply IH. lia.
    + destruct args as [|next args']; [by eexists _, _, _|].
      destruct (set_flag_Ret w fl next) as (v & err & ->).
      destruct err as [err|]; [by eexists _, _, _|]. apply IH. simpl in Hlen. lia.
Qed.

(** A panic of the walk carries no error value: it comes from package
    flag, from package reflect or from a type assertion. *)
Lemma bind_leaf_panic {lib : Library} (a : Act) (w : World) (field : reflect.StructField)
    (p : path) (prefix : string) (e : error) :
  bind_leaf a w field p prefix <> Panic (panic_error e).
Proof.
  unfold bind_leaf, parseValue, parseBool, parseUint, parseUint64, parseInt, parseInt64,
    parseDuration, parseFloat64, parseStringSlice, parseIntSlice, parseURL, parseTime,
    register, flag.Var, StringSlice_Set, IntSlice_Set, URL_Set, Time_Set.
  repeat case_match; simplify_eq; done.
Qed.

Lemma parse_struct_panic {lib : Library} (flags : list string) (e : error) :
  forall t a w base prefix, parse_struct t a w base flags prefix <> Panic (panic_error e).
Proof.
  intros t. induction t as [t IH] using struct_type_induction.
  intros a w base prefix. destruct t as [| | | | | | | | | | | |fields|k]; try done.
  cbn [parse_struct]. specialize (IH fields eq_refl).
  generalize (parseHelp a flags) as a0. revert w.
  induction fields as [|field fields IHf]; intros w a0; [done|].
  inversion IH as [|? ? Hfield Hfields]; subst. cbn [parse_fields].
  destruct (negb (reflect.IsExported field)); [done|]. cbv zeta.
  destruct field as [n pkg ft tag]. cbn [reflect.Type'] in Hfield.
  destruct (if recurses ft then _ else _) as [[[a' w'] [e'|]]|pv] eqn:Hstep; try done.
  - by apply IHf.
  - intros [= ->]. destruct (recurses ft); [by eapply Hfield|by eapply bind_leaf_panic].
Qed.

(** X15.  How [Parse] can end under each policy.  It returns an error only under
    [ContinueOnError], and never the help sentinel; it ends the process only
    under [ExitOnError], with status 0 or 2; it panics with an error value
    only under [PanicOnError]. *)
Theorem Parse_outcome_by_policy {lib : Library} (a : Act) (w : World) (config : Config)
    (flags : list string) :
  match Parse a w config flags with
  | returned _ _ (Some e) => errorHandling a = flag.ContinueOnError /\ is_ErrHelp e = false
  | returned _ _ None => True
  | exited _ code => errorHandling a = flag.ExitOnError /\ (code = 0 \/ code = 2)
  | panicked (panic_error _) => errorHandling a = flag.PanicOnError
  | panicked _ => True
  end.
Proof.
  assert (Hexit : forall a' w' err, errorHandling a' = errorHandling a ->
    match exit a' w' err with
    | returned _ _ (Some e) => errorHandling a = flag.ContinueOnError /\ is_ErrHelp e = false
    | returned _ _ None => True
    | exited _ code => errorHandling a = flag.ExitOnError /\ (code = 0 \/ code = 2)
    | panicked (panic_error _) => errorHandling a = flag.PanicOnError
    | panicked _ => True
    end).
  { intros a' w' [e|] Hpolicy; [|done]. unfold exit. rewrite Hpolicy.
    destruct (Z.eqb_spec (errorHandling a) flag.ContinueOnError);
      [by destruct (is_ErrHelp e) eqn:?|].
    destruct (Z.eqb_spec (errorHandling a) flag.ExitOnError);
      [destruct (help a' || is_ErrHelp e); auto|].
    by destruct (Z.eqb_spec (errorHandling a) flag.PanicOnError). }
  unfold Parse.
  destruct (parse a w config flags "") as [[[a1 w1] err]|pv] eqn:Hwalk.
  - destruct (parse_keeps_settings a w config flags "" a1 w1 err Hwalk) as (_ & _ & Hpolicy & _).
    destruct err as [e|]; [by apply Hexit|].
    destruct (flag_Parse_returns (length flags) flags (flagSet a1) w1) as (f & w2 & e & ->);
      [done|].
    by apply Hexit.
  - destruct pv as [| | | |e]; try done. exfalso. unfold parse in Hwalk.
    destruct config as [|elem [base|]|]; try done; case_match; try done.
    by eapply parse_struct_panic.
Qed.

(** ** The bytes of the derived names *)

Lemma list_ascii_of_append (s1 s2 : string) :
  list_ascii_of_string (s1 +:+ s2) = list_ascii_of_string s1 ++ list_ascii_of_string s2.
Proof.
  induction s1 as [|c s1 IH]; [done|].
  change (String c s1 +:+ s2) with (String c (s1 +:+ s2)). simpl. by rewrite IH.
Qed.

(** The byte [delimit] writes for a byte of its input is never in the case
    it converts from, and it is no separator when it is written as the end
    of a word. *)
Lemma delimit_byte (v0 : ascii) (screaming : bool) :
  let v := if strcase.isLow v0 && screaming then strcase.toUpper v0
           else if strcase.isCap v0 && negb screaming then strcase.toLower v0
           else v0 in
  (if screaming then strcase.isLow v else strcase.isCap v) = false
  /\ (strcase.isCap v0 || strcase.isLow v0 || strcase.isNum v = true ->
      strcase.isSeparator v = false).
Proof.
  destruct screaming; destruct v0 as [[] [] [] [] [] [] [] []]; vm_compute;
    (split; [reflexivity|]); intros; (reflexivity || discriminate).
Qed.

Lemma delimit_bytes (delimiter : ascii) (screaming : bool) (s : string) :
  forall prev,
    Forall (fun c => c = delimiter
                     \/ (strcase.isSeparator c = false
                         /\ (if screaming then strcase.isLow c else strcase.isCap c) = false))
      (list_ascii_of_string (strcase.delimit delimiter EmptyString screaming prev s)).
Proof.
  induction s as [|v0 rest IH]; intros prev; [constructor|].
  cbn [strcase.delimit]. cbv zeta.
  destruct (delimit_byte v0 screaming) as [Hcase Hword]. cbv zeta in Hcase, Hword.
  set (v := if strcase.isLow v0 && screaming then strcase.toUpper v0
            else if strcase.isCap v0 && negb screaming then strcase.toLower v0
            else v0) in *.
  assert (Hplain : Forall (fun c => c = delimiter
                     \/ (strcase.isSeparator c = false
                         /\ (if screaming then strcase.isLow c else strcase.isCap c) = false))
            (list_ascii_of_string
               (String (if strcase.isSeparator v && negb (strcase.ContainsAny v EmptyString)
                        then delimiter else v)
                  (strcase.delimit delimiter EmptyString screaming (Some v0) rest)))).
  { simpl. constructor; [|apply IH].
    destruct (strcase.isSeparator v) eqn:Hsep; [by left|right; by split]. }
  destruct rest as [|next rest']; [exact Hplain|].
  match goal with
  | |- context [if ?cond then (if negb _ then Some _ else None) else None] =>
      destruct cond eqn:Hchange; [|exact Hplain]
  end.
  rewrite bool_decide_eq_true_2 by done. cbn [negb andb].
  assert (Hv : strcase.isSeparator v = false).
  { apply Hword. by destruct (strcase.isCap v0), (strcase.isLow v0), (strcase.isNum v). }
  assert (Hdelimiter : forall c : bool,
            Forall (fun c => c = delimiter
                     \/ (strcase.isSeparator c = false
                         /\ (if screaming then strcase.isLow c else strcase.isCap c) = false))
              (list_ascii_of_string (if c then String delimiter EmptyString else EmptyString))).
  { intros []; simpl; [constructor; [by left|constructor]|constructor]. }
  rewrite !list_ascii_of_append.
  repeat apply Forall_app_2; try apply IH; try apply Hdelimiter.
  simpl. constructor; [right; by split|constructor].
Qed.

(** X16.  An environment variable name the binder derives, for a field without
    an [env] annotation, holds no lower-case letter, no space, no hyphen and
    no period: [ToScreamingSnake] turns letters into capitals and the other
    three into underscores. *)
Theorem derived_environment_names_are_screaming (a : Act) (sf : reflect.StructField)
    (prefix : string) :
  reflect.Get (reflect.Tag sf) "env" = "" ->
  Forall (fun c => strcase.isLow c = false /\ c <> " "%char /\ c <> "-"%char /\ c <> "."%char)
    (list_ascii_of_string (envVarName a sf prefix)).
Proof.
  intros Htag. unfold envVarName. rewrite Htag. cbn [bool_decide negb].
  rewrite bool_decide_eq_true_2 by done. cbn [negb].
  unfold strcase.ToScreamingSnake, strcase.ToScreamingDelimited.
  eapply Forall_impl; [apply delimit_bytes|]. intros c [->|[Hsep Hlow]]; [done|].
  split; [done|]. repeat split; intros ->; discriminate Hsep.
Qed.

Lemma derived_environment_names_are_screaming_witness :
  Forall (fun c => strcase.isLow c = false /\ c <> " "%char /\ c <> "-"%char /\ c <> "."%char)
    (list_ascii_of_string "COOL_MONGO_CONNECTION_TIMEOUT").
Proof.
  apply (derived_environment_names_are_screaming (New empty_environment "cool" [])
           (reflect.mkStructField "ConnectionTimeout" "" reflect.time_Duration
              [("def", "10s")]) "Mongo").
  reflexivity.
Defined.

(** X17.  A flag name the binder derives, for a field without a [flag]
    annotation, holds no capital letter, no space, no underscore and no
    period: [ToKebab] turns letters into lower case and the other three into
    hyphens. *)
Theorem derived_flag_names_are_kebab (sf : reflect.StructField) (prefix : string) :
  reflect.Get (reflect.Tag sf) "flag" = "" ->
  Forall (fun c => strcase.isCap c = false /\ c <> " "%char /\ c <> "_"%char /\ c <> "."%char)
    (list_ascii_of_string (flagName sf prefix)).
Proof.
  intros Htag. unfold flagName. rewrite Htag.
  rewrite bool_decide_eq_true_2 by done. cbn [negb].
  unfold strcase.ToKebab, strcase.ToDelimited, strcase.ToScreamingDelimited.
  eapply Forall_impl; [apply delimit_bytes|]. intros c [->|[Hsep Hcap]]; [done|].
  split; [done|]. repeat split; intros ->; discriminate Hsep.
Qed.

Lemma derived_flag_names_are_kebab_witness :
  Forall (fun c => strcase.isCap c = false /\ c <> " "%char /\ c <> "_"%char /\ c <> "."%char)
    (list_ascii_of_string "mongo-connection-timeout").
Proof.
  apply (derived_flag_names_are_kebab
           (reflect.mkStructField "ConnectionTimeout" "" reflect.time_Duration
              [("def", "10s")]) "Mongo").
  reflexivity.
Defined.

(** ** Fields the walk stops at *)

(** X18.  A record with a field that is not exported cannot be bound, be the
    field one of the record itself or one of a struct below it: when the
    walk arrives at the field, [Parse] panics in package reflect, under every
    error handling policy, whatever the type and the annotations of the
    field. *)
Theorem unexported_field_panics {lib : Library} (flags : list string)
    (fields : list reflect.StructField) (a a' : Act) (w w' : World) (base base' : path)
    (prefix' : string) (field : reflect.StructField) :
  arrives flags (reflect.struct_type fields) a w base "" field a' w' base' prefix' ->
  reflect.IsExported field = false ->
  exists msg,
    Parse a w (pointer_to (reflect.struct_type fields) (Some base)) flags
    = panicked (reflect_panic msg).
Proof.
  intros Harrives Hexported. eexists. unfold Parse.
  rewrite parse_of_record, (arrives_stops _ _ _ _ _ _ _ _ _ _ _ _ Harrives eq_refl).
  - cbn [parse_fields]. by rewrite Hexported.
  - intros a2 w2. cbn [parse_fields]. by rewrite Hexported.
Qed.

Lemma unexported_field_panics_witness :
  exists msg,
    Parse (lib := table_library)
      (New empty_environment "test" [WithErrorHandling flag.ContinueOnError]) (mkWorld ∅ [])
      (pointer_to
         (reflect.struct_type
            [reflect.mkStructField "Port" "" reflect.go_int [];
             reflect.mkStructField "DB" ""
               (reflect.struct_type [reflect.mkStructField "host" "main" reflect.go_string []])
               []])
         (Some []))
      []
    = panicked (reflect_panic msg).
Proof.
  eapply (@unexported_field_panics table_library []
            [reflect.mkStructField "Port" "" reflect.go_int [];
             reflect.mkStructField "DB" ""
               (reflect.struct_type [reflect.mkStructField "host" "main" reflect.go_string []])
               []]
            (New empty_environment "test" [WithErrorHandling flag.ContinueOnError]) _
            (mkWorld ∅ []) _ [] _ _
            (reflect.mkStructField "host" "main" reflect.go_string [])).
  - eapply (arrives_below [] [reflect.mkStructField "Port" "" reflect.go_int []] []
              (reflect.mkStructField "DB" ""
                 (reflect.struct_type
                    [reflect.mkStructField "host" "main" reflect.go_string []]) [])).
    + reflexivity.
    + reflexivity.
    + reflexivity.
    + eapply (arrives_here [] [] []). reflexivity.
  - reflexivity.
Defined.

(** A text that denotes no value for a leaf of a supported type is
    rejected with nothing registered. *)
Lemma parseValue_rejects {lib : Library} (a : Act) (w : World) (t : reflect.Type_)
    (p : path) (flag value usage : string) (vt : flag.ValueType) :
  flag_type t = Some vt -> baseline_value t value = None ->
  exists e, parseValue a w (reflect.Kind_of t) t p flag value usage = Ret (a, w, Some e).
Proof.
  unfold baseline_value, parseValue, parseBool, parseUint, parseUint64, parseInt, parseInt64,
    parseDuration, parseFloat64, parseStringSlice, parseIntSlice, parseURL, parseTime,
    StringSlice_Set, IntSlice_Set, URL_Set, Time_Set.
  destruct t; simpl; intros [= <-]; repeat case_match; intros; simplify_eq; by eexists.
Qed.

(** X19.  A leaf of a supported type whose text denotes no value makes the walk
    fail there, be the leaf a field of the record itself or of a struct
    below it.  When the walk arrives at the leaf, [parse] returns, and
    [Parse] hands the policy, an error that names the field and the source
    of the text, [env] or [def]; the fields before the leaf stay registered
    and stored as the walk has left them on arriving, and the leaf and the
    fields after it are not bound. *)
Theorem invalid_text_fails_the_walk {lib : Library} (flags : list string)
    (fields : list reflect.StructField) (a a' : Act) (w w' : World) (base base' : path)
    (prefix' : string) (field : reflect.StructField) :
  arrives flags (reflect.struct_type fields) a w base "" field a' w' base' prefix' ->
  reflect.IsExported field = true ->
  is_Some (flag_type (reflect.Type' field)) ->
  baseline_value (reflect.Type' field) (baseline_text a' field prefix') = None ->
  exists e,
    parse a w (pointer_to (reflect.struct_type fields) (Some base)) flags ""
    = Ret (a', w',
           Some (Errorf (reflect.Name field +:+
                         (if (lookupEnvFunc a' (envVarName a' field prefix')).2
                             && negb (help a')
                          then " env: " else " def: ")) e ""))
    /\ Parse a w (pointer_to (reflect.struct_type fields) (Some base)) flags
       = exit a' w'
           (Some (Errorf (reflect.Name field +:+
                          (if (lookupEnvFunc a' (envVarName a' field prefix')).2
                              && negb (help a')
                           then " env: " else " def: ")) e "")).
Proof.
  intros Harrives Hexported [vt Hvt] Hbad.
  assert (Hturn : exists e,
            parse_fields parse_struct base' flags prefix' [field] a' w'
            = Ret (a', w',
                   Some (Errorf (reflect.Name field +:+
                                 (if (lookupEnvFunc a' (envVarName a' field prefix')).2
                                     && negb (help a')
                                  then " env: " else " def: ")) e ""))).
  { rewrite parse_fields_cons by done. rewrite flag_type_is_leaf by done.
    unfold bind_leaf, baseline_text in *.
    destruct (lookupEnvFunc a' (envVarName a' field prefix')) as [value found]. cbn [snd].
    destruct (found && negb (help a'));
      match goal with
      | |- context [parseValue a' w' ?k ?t ?p ?f ?v ?u] =>
          destruct (parseValue_rejects a' w' t p f v u vt Hvt Hbad) as [e ->]
      end; by exists e. }
  destruct Hturn as [e Hturn]. exists e. unfold Parse.
  by rewrite parse_of_record, (arrives_stops _ _ _ _ _ _ _ _ _ _ _ _ Harrives Hturn).
Qed.

Lemma invalid_text_fails_the_walk_witness :
  exists a1 w1,
    Parse (lib := table_library)
      (New empty_environment "test" [WithErrorHandling flag.ContinueOnError])
      (mkWorld ∅ [])
      (pointer_to
         (reflect.struct_type
            [reflect.mkStructField "Host" "" reflect.go_string [("def", "localhost")];
             reflect.mkStructField "DB" ""
               (reflect.struct_type
                  [reflect.mkStructField "Port" "" reflect.go_uint [("def", "a")];
                   reflect.mkStructField "Name" "" reflect.go_string []]) []])
         (Some []))
      ["-h"]
    = returned a1 w1
        (Some (Errorf "Port def: "
                 (parsing "uint" "a" (NumError "ParseUint" "a" strconv_ErrSyntax)) ""))
    /\ memory w1 !! ["Host"] = Some (string_of "localhost")
    /\ memory w1 !! ["DB"; "Port"] = None
    /\ memory w1 !! ["DB"; "Name"] = None.
Proof.
  eassert (Harrives :
    arrives (lib := table_library) ["-h"]
      (reflect.struct_type
         [reflect.mkStructField "Host" "" reflect.go_string [("def", "localhost")];
          reflect.mkStructField "DB" ""
            (reflect.struct_type
               [reflect.mkStructField "Port" "" reflect.go_uint [("def", "a")];
                reflect.mkStructField "Name" "" reflect.go_string []]) []])
      (New empty_environment "test" [WithErrorHandling flag.ContinueOnError])
      (mkWorld ∅ []) [] ""
      (reflect.mkStructField "Port" "" reflect.go_uint [("def", "a")]) _ _ _ _).
  { eapply (arrives_below ["-h"]
              [reflect.mkStructField "Host" "" reflect.go_string [("def", "localhost")]] []
              (reflect.mkStructField "DB" ""
                 (reflect.struct_type
                    [reflect.mkStructField "Port" "" reflect.go_uint [("def", "a")];
                     reflect.mkStructField "Name" "" reflect.go_string []]) [])).
    - reflexivity.
    - reflexivity.
    - reflexivity.
    - eapply (arrives_here ["-h"] []
                [reflect.mkStructField "Name" "" reflect.go_string []]).
      reflexivity. }
  destruct (invalid_text_fails_the_walk _ _ _ _ _ _ _ _ _ _ Harrives)
    as (e & Hparse & HParse); [reflexivity|by eexists|reflexivity|].
  eexists _, _. vm_compute in Hparse. injection Hparse as <-.
  split; [etransitivity; [exact HParse|reflexivity]|]. by vm_compute.
Defined.

(** ** One flag for every leaf *)

(** X20.  When the walk over a record returns without an error it has registered
    one new flag for each leaf of the record, at any depth: the number of
    registered flags has grown by the number of leaves. *)
Theorem walk_registers_one_flag_per_leaf {lib : Library} (flags : list string)
    (t : reflect.Type_) :
  forall a w base prefix a1 w1,
    parse_struct t a w base flags prefix = Ret (a1, w1, None) ->
    size (flag.formal (flagSet a1)) = (size (flag.formal (flagSet a)) + leaves t)%nat.
Proof.
  induction t as [t IH] using struct_type_induction.
  intros a w base prefix a1 w1 Hrun.
  destruct (parseHelp_keeps a flags) as (Hfs & _).
  destruct t as [| | | | | | | | | | | |fields|k];
    try (cbn [parse_struct] in Hrun; injection Hrun as <- _; rewrite Hfs; simpl; lia).
  cbn [parse_struct] in Hrun. specialize (IH fields eq_refl). rewrite <- Hfs.
  revert Hrun. generalize (parseHelp a flags) as a0. clear Hfs. revert w.
  cbn [leaves]. induction fields as [|field fields IHf]; intros w a0 Hrun.
  { injection Hrun as <- _. simpl. lia. }
  inversion IH as [|? ? Hfield Hfields]; subst.
  destruct (reflect.IsExported field) eqn:Hexp;
    [|by cbn [parse_fields] in Hrun; rewrite Hexp in Hrun].
  rewrite parse_fields_cons in Hrun by done.
  destruct (if recurses (reflect.Type' field) then _ else _)
    as [[[a' w'] [e'|]]|pv] eqn:Hstep; try done.
  rewrite (IHf Hfields _ _ Hrun). destruct field as [n pkg ft tag].
  cbn [reflect.Type'] in *. cbn [sum_list_with].
  destruct (recurses ft).
  - rewrite (Hfield _ _ _ _ _ _ Hstep). lia.
  - apply bind_leaf_Ret in Hstep as (vt & v & f' & _ & _ & Hvar & -> & _).
    apply Var_Ret in Hvar as (Hfresh & ->). cbn [flagSet with_flagSet flag.formal].
    rewrite map_size_insert_None by done. lia.
Qed.

Lemma walk_registers_one_flag_per_leaf_witness :
  exists a1 w1,
    parse_struct (lib := table_library)
      (reflect.struct_type
         [reflect.mkStructField "Host" "" reflect.go_string [];
          reflect.mkStructField "Mongo" ""
            (reflect.struct_type
               [reflect.mkStructField "Hosts" "" reflect.act_StringSlice [];
                reflect.mkStructField "Start" "" reflect.act_Time []]) []])
      (New empty_environment "cool" []) (mkWorld ∅ []) [] [] ""
    = Ret (a1, w1, None)
    /\ size (flag.formal (flagSet a1)) = 3%nat.
Proof.
  eexists _, _. split; [reflexivity|].
  match goal with
  | |- size (flag.formal (flagSet ?a1)) = _ =>
      apply (@walk_registers_one_flag_per_leaf table_library []
               (reflect.struct_type
                  [reflect.mkStructField "Host" "" reflect.go_string [];
                   reflect.mkStructField "Mongo" ""
                     (reflect.struct_type
                        [reflect.mkStructField "Hosts" "" reflect.act_StringSlice [];
                         reflect.mkStructField "Start" "" reflect.act_Time []]) []])
               (New empty_environment "cool" []) (mkWorld ∅ []) [] "" a1 _ eq_refl)
  end.
Defined.

(** ** A help token and the policy of the process *)

Lemma parse_after_parseHelp {lib : Library} (a : Act) (w : World) (config : Config)
    (flags : list string) (prefix : string) :
  parse (parseHelp a flags) w config flags prefix = parse a w config flags prefix.
Proof.
  unfold parse. destruct config as [|elem [base|]|]; rewrite ?parseHelp_twice; try done.
  case_match; [done|]. destruct (as_struct elem); cbn [parse_struct];
    by rewrite parseHelp_twice.
Qed.

(** The panics of the walk: of package flag, of package reflect, or of a
    type assertion. *)
Lemma parse_panics {lib : Library} (a : Act) (w : World) (config : Config)
    (flags : list string) (prefix : string) (pv : PanicValue) :
  parse a w config flags prefix = Panic pv ->
  pv = type_assertion_failed
  \/ (exists msg, pv = flag_panic msg)
  \/ (exists msg, pv = reflect_panic msg).
Proof.
  unfold parse. destruct config as [|elem [base|]|]; try done; case_match; try done.
  - intros Hwalk.
    destruct (parse_struct_panics (fun _ _ => True) flags
                ltac:(done) ltac:(done) ltac:(done) ltac:(done) _ _ _ _ _ _ Hwalk)
      as [?|(a' & w' & field & p & pre & _ & Hbind)]; [by right; right|].
    apply bind_leaf_panics in Hbind as [?|(msg & -> & _)]; [by left|right; left; by eexists].
  - intros [= <-]. right; right. by eexists.
Qed.

(** X21.  With a help token among the arguments, a binder with the policy
    [ExitOnError], the one [New] gives, reports no error.  When the walk
    returns, with or without an error, [Parse] returns nil or ends the
    process with status 0, whatever went wrong in the walk or on the command
    line.  A panic is not masked: [Parse] panics when the walk panics, with
    the panic of the walk, which is one of package flag, of package reflect
    or of a type assertion, and at no other time. *)
Theorem help_token_masks_errors {lib : Library} (a : Act) (w : World) (config : Config)
    (flags : list string) :
  help_requested flags = true ->
  errorHandling a = flag.ExitOnError ->
  match parse a w config flags "" with
  | Ret _ =>
      (exists a' w', Parse a w config flags = returned a' w' None)
      \/ (exists w', Parse a w config flags = exited w' 0)
  | Panic pv =>
      Parse a w config flags = panicked pv
      /\ (pv = type_assertion_failed
          \/ (exists msg, pv = flag_panic msg)
          \/ (exists msg, pv = reflect_panic msg))
  end.
Proof.
  intros Hhelp Hpolicy.
  assert (Hexit : forall a' w' err, errorHandling a' = flag.ExitOnError -> help a' = true ->
    (exists a2 w2, exit a' w' err = returned a2 w2 None)
    \/ (exists w2, exit a' w' err = exited w2 0)).
  { intros a' w' [e|] Hp Hh; [|left; by eexists _, _]. unfold exit. rewrite Hp, Hh.
    right. by eexists. }
  unfold Parse.
  destruct (parse a w config flags "") as [[[a1 w1] err]|pv] eqn:Hwalk;
    [|split; [done|by eapply parse_panics]].
  rewrite <- parse_after_parseHelp in Hwalk.
  destruct (parseHelp_keeps a flags) as (_ & _ & _ & Hp0 & Hh0).
  rewrite Hhelp, orb_true_r in Hh0.
  destruct (parse_keeps_settings _ w config flags "" a1 w1 err Hwalk) as (_ & _ & Hp1 & Hh1).
  cbn [fst] in Hp1, Hh1. specialize (Hh1 Hh0). rewrite Hp0, Hpolicy in Hp1.
  destruct err as [e|]; [by apply Hexit|].
  destruct (flag_Parse_returns (length flags) flags (flagSet a1) w1) as (f & w2 & e & ->);
    [done|].
  by apply Hexit.
Qed.

Lemma help_token_masks_errors_witness :
  (exists a' w',
     Parse (lib := table_library) (New (fun _ => ("abc", true)) "test" []) (mkWorld ∅ [])
       (pointer_to (reflect.struct_type
                      [reflect.mkStructField "Port" "" (reflect.other_type reflect.Int16) []])
          (Some []))
       ["-x"; "--help"]
     = returned a' w' None)
  \/ (exists w',
        Parse (lib := table_library) (New (fun _ => ("abc", true)) "test" []) (mkWorld ∅ [])
          (pointer_to (reflect.struct_type
                         [reflect.mkStructField "Port" ""
                            (reflect.other_type reflect.Int16) []])
             (Some []))
          ["-x"; "--help"]
        = exited w' 0).
Proof.
  exact (@help_token_masks_errors table_library (New (fun _ => ("abc", true)) "test" [])
           (mkWorld ∅ [])
           (pointer_to (reflect.struct_type
                          [reflect.mkStructField "Port" ""
                             (reflect.other_type reflect.Int16) []])
              (Some []))
           ["-x"; "--help"] eq_refl eq_refl).
Defined.

(** The unsupported field of the example fails the walk, and the process
    ends with status 0 and nothing written. *)
Example help_token_masks_an_unsupported_type :
  Parse (lib := table_library) (New (fun _ => ("abc", true)) "test" []) (mkWorld ∅ [])
    (pointer_to (reflect.struct_type
                   [reflect.mkStructField "Port" "" (reflect.other_type reflect.Int16) []])
       (Some []))
    ["-x"; "--help"]
  = exited (mkWorld ∅ []) 0.
Proof. reflexivity. Qed.

(** A field that is not exported makes [Parse] panic, with or without a
    help token. *)
Example help_token_does_not_mask_a_panic :
  exists msg,
    Parse (lib := table_library) (New empty_environment "test" []) (mkWorld ∅ [])
      (pointer_to (reflect.struct_type [reflect.mkStructField "port" "main" reflect.go_int []])
         (Some []))
      ["-h"]
    = panicked (reflect_panic msg).
Proof. by eexists. Qed.

(** ** A binder is used once *)

(** A leaf that was bound once is not bound again: its flag name is
    taken. *)
Lemma bind_leaf_again {lib : Library} (a a' a2 : Act) (w w' w2 : World)
    (field : reflect.StructField) (p : path) (prefix : string) :
  bind_leaf a w field p prefix = Ret (a', w', None) ->
  same_settings (a, w) (a2, w2) ->
  is_Some (flag.formal (flagSet a2) !! flagName field prefix) ->
  exists msg, bind_leaf a2 w2 field p prefix = Panic (flag_panic msg).
Proof.
  intros Hfirst Hsame [fl Hfl].
  apply bind_leaf_Ret in Hfirst as (vt & v & f' & Hvt & Hv & Hvar & _).
  rewrite <- (baseline_text_same_settings a a2 w w2) in Hv by done.
  rewrite (bind_leaf_registers _ _ _ _ _ vt v) by done.
  unfold register, flag.Var in *. rewrite Hfl.
  repeat case_match; simplify_eq; by eexists.
Qed.

Lemma parse_struct_again {lib : Library} (flags : list string) (t : reflect.Type_) :
  forall a w base prefix a1 w1 a2 w2,
    help a = true \/ help_requested flags = false ->
    parse_struct t a w base flags prefix = Ret (a1, w1, None) ->
    same_settings (a, w) (a2, w2) ->
    (forall n, is_Some (flag.formal (flagSet a1) !! n) ->
               is_Some (flag.formal (flagSet a2) !! n)) ->
    match leaves t with
    | O => exists a3, parse_struct t a2 w2 base flags prefix = Ret (a3, w2, None)
                      /\ flag.formal (flagSet a3) = flag.formal (flagSet a2)
                      /\ same_settings (a, w) (a3, w2)
    | S _ => exists msg, parse_struct t a2 w2 base flags prefix = Panic (flag_panic msg)
    end.
Proof.
  induction t as [t IH] using struct_type_induction.
  intros a w base prefix a1 w1 a2 w2 Hseen Hrun Hsame Hnames.
  pose proof (same_settings_seen flags a a2 w w2 Hsame Hseen) as Hseen2.
  assert (Hplain : exists a3, Ret (parseHelp a2 flags, w2, @None error) = Ret (a3, w2, None)
                      /\ flag.formal (flagSet a3) = flag.formal (flagSet a2)
                      /\ same_settings (a, w) (a3, w2)).
  { exists a2. by rewrite parseHelp_again. }
  destruct t as [| | | | | | | | | | | |fields|k]; try exact Hplain. clear Hplain.
  cbn [parse_struct] in *. specialize (IH fields eq_refl).
  rewrite parseHelp_again in Hrun |- * by done. cbn [leaves].
  revert a w a2 w2 Hseen Hseen2 Hrun Hsame Hnames.
  induction fields as [|field fields IHf]; intros a w a2 w2 Hseen Hseen2 Hrun Hsame Hnames.
  { by exists a2. }
  inversion IH as [|? ? Hfield Hfields]; subst. specialize (IHf Hfields).
  destruct (reflect.IsExported field) eqn:Hexp;
    [|by cbn [parse_fields] in Hrun; rewrite Hexp in Hrun].
  rewrite parse_fields_cons in Hrun |- * by done.
  destruct (if recurses (reflect.Type' field) then _ else _)
    as [[[a' w'] [e'|]]|pv] eqn:Hstep; try done.
  assert (Hkept : forall n, is_Some (flag.formal (flagSet a') !! n) ->
                            is_Some (flag.formal (flagSet a2) !! n)).
  { intros n [fl Hfl]. apply Hnames. exists fl.
    by destruct (parse_fields_touches_only fields base flags prefix a' w' a1 w1 None Hrun)
      as (_ & _ & Hstays); apply Hstays. }
  destruct field as [n pkg ft tag]. cbn [reflect.Type' reflect.Name sum_list_with] in *.
  destruct (recurses ft) eqn:Hrec.
  - pose proof (walk_same_settings ft a w _ flags _ Hseen a' w' None Hstep) as Hsame'.
    specialize (Hfield a w _ _ a' w' a2 w2 Hseen Hstep Hsame Hkept).
    destruct (leaves ft).
    + destruct Hfield as (a3 & -> & Hformal & Hsame3).
      specialize (IHf a' w' a3 w2).
      destruct (sum_list_with _ fields); cbn [Nat.add].
      * destruct IHf as (a4 & -> & Hformal4 & Hsame4);
          [by eapply same_settings_seen|by eapply same_settings_seen|done
          |by eapply same_settings_trans; [apply same_settings_sym|]
          |by intros m; rewrite Hformal; apply Hnames|].
        exists a4. split; [done|]. split; [congruence|].
        by eapply same_settings_trans.
      * apply IHf;
          [by eapply same_settings_seen|by eapply same_settings_seen|done
          |by eapply same_settings_trans; [apply same_settings_sym|]
          |by intros m; rewrite Hformal; apply Hnames].
    + destruct Hfield as (msg & ->). by exists msg.
  - destruct (bind_leaf_again a a' a2 w w' w2 (reflect.mkStructField n pkg ft tag)
                (base ++ [n]) prefix Hstep Hsame) as (msg & ->); [|by exists msg].
    apply Hkept. apply bind_leaf_Ret in Hstep as (vt & v & f' & _ & _ & Hvar & -> & _).
    apply Var_Ret in Hvar as (_ & ->). eexists. apply lookup_insert_eq.
Qed.

(** X22.  A binder serves one [Parse].  After a walk that has returned without
    an error over a record with at least one leaf, a second [Parse] with the
    same binder, record type and arguments panics in package flag at the
    first leaf, whose flag is defined already, whatever the record holds and
    under every error handling policy. *)
Theorem binder_is_used_once {lib : Library} (a a1 : Act) (w w1 w2 : World)
    (fields : list reflect.StructField) (base : path) (flags : list string) :
  parse a w (pointer_to (reflect.struct_type fields) (Some base)) flags "" = Ret (a1, w1, None) ->
  (0 < leaves (reflect.struct_type fields))%nat ->
  exists msg,
    Parse a1 w2 (pointer_to (reflect.struct_type fields) (Some base)) flags
    = panicked (flag_panic msg).
Proof.
  intros Hfirst Hleaves. unfold Parse, parse in *. cbn [reflect.Kind_of as_struct] in *.
  rewrite bool_decide_eq_true_2 in * by done. cbn [negb] in *.
  assert (Hseen : help (parseHelp a flags) = true \/ help_requested flags = false).
  { destruct (parseHelp_keeps a flags) as (_ & _ & _ & _ & ->).
    destruct (help_requested flags); [left; apply orb_true_r|by right]. }
  assert (Hrun : parse_struct (reflect.struct_type fields) (parseHelp a flags) w base flags ""
                 = Ret (a1, w1, None)).
  { cbn [parse_struct] in *. by rewrite parseHelp_twice. }
  pose proof (walk_same_settings _ _ _ _ _ _ Hseen a1 w1 None Hrun) as Hsame.
  pose proof (parse_struct_again flags (reflect.struct_type fields) (parseHelp a flags) w base
                "" a1 w1 a1 w2 Hseen Hrun) as Hagain.
  destruct (leaves (reflect.struct_type fields)); [lia|].
  destruct Hagain as (msg & ->); [by destruct Hsame as (? & ? & ?)|done|]. by exists msg.
Qed.

Lemma binder_is_used_once_witness :
  exists a1 w1 msg,
    parse (lib := table_library) (New empty_environment "test" []) (mkWorld ∅ [])
      (pointer_to
         (reflect.struct_type
            [reflect.mkStructField "DB" ""
               (reflect.struct_type [reflect.mkStructField "Host" "" reflect.go_string []]) [];
             reflect.mkStructField "Port" "" reflect.go_int [("def", "80")]])
         (Some [])) [] ""
    = Ret (a1, w1, None)
    /\ Parse (lib := table_library) a1 w1
         (pointer_to
            (reflect.struct_type
               [reflect.mkStructField "DB" ""
                  (reflect.struct_type [reflect.mkStructField "Host" "" reflect.go_string []])
                  [];
                reflect.mkStructField "Port" "" reflect.go_int [("def", "80")]])
            (Some [])) []
       = panicked (flag_panic msg).
Proof.
  eexists _, _, _. split; [reflexivity|].
  match goal with
  | |- Parse ?a1 ?w1 _ _ = _ =>
      destruct (@binder_is_used_once table_library (New empty_environment "test" []) a1
                  (mkWorld ∅ []) w1 w1
                  [reflect.mkStructField "DB" ""
                     (reflect.struct_type
                        [reflect.mkStructField "Host" "" reflect.go_string []]) [];
                   reflect.mkStructField "Port" "" reflect.go_int [("def", "80")]]
                  [] [] eq_refl) as [msg Hpanic]; [simpl; lia|]
  end.
  reflexivity.
Defined.
